(** * lib/ai-service.ts: the two-phase analysis pipeline, embedded and verified

    The development embeds [callOpenAI], [deepAnalyzeArticles],
    [generateSmartTopicInsights] and [generateWordCloud] of
    [lib/ai-service.ts] together with the fragment of the JavaScript
    run time they rely on (strings as UTF-16 code units, binary64
    numbers, [JSON.parse], property access, truthiness, [ToNumber],
    [Array.prototype.sort], [Number.prototype.toFixed]), and proves the
    properties of the pipeline stated against it.  The statistics and the
    two rankings of [app/analysis/page.tsx] ([calculateStats],
    [getTopLikesArticles], [getTopEngagementArticles]) are embedded and
    verified beside them. *)

From Stdlib Require Import Ascii String.
From Stdlib Require Import List ZArith NArith QArith Qabs Qround Qcanon Lia Bool.
From Stdlib Require Import Permutation Sorted.
Import ListNotations.

Set Warnings "-register-all".
Local Open Scope Z_scope.

(* ================================================================== *)
(** * JavaScript strings *)
(* ================================================================== *)

Module JsString.

(** A JavaScript string is a finite sequence of UTF-16 code units. *)
Definition jsstring := list N.

(** ASCII literals of the source, as code units. *)
Definition lit (s : string) : jsstring :=
  map N_of_ascii (list_ascii_of_string s).

(** The same, an apostrophe standing for a double quote. *)
Definition quoted (s : string) : jsstring :=
  map (fun c => if (c =? 39)%N then 34%N else c) (lit s).

Fixpoint eqb (s t : jsstring) : bool :=
  match s, t with
  | [], [] => true
  | c :: s', d :: t' => N.eqb c d && eqb s' t'
  | _, _ => false
  end.

(** WhiteSpace and LineTerminator code points of ECMA-262: what
    [String.prototype.trim] removes and what [StringToNumber] skips. *)
Definition is_space (c : N) : bool :=
  ((9 <=? c) && (c <=? 13) || (c =? 32) || (c =? 160) || (c =? 5760)
   || (8192 <=? c) && (c <=? 8202) || (c =? 8232) || (c =? 8233)
   || (c =? 8239) || (c =? 8287) || (c =? 12288) || (c =? 65279))%N.

Fixpoint trimStart (s : jsstring) : jsstring :=
  match s with
  | c :: t => if is_space c then trimStart t else s
  | [] => []
  end.

Definition trimEnd (s : jsstring) : jsstring := rev (trimStart (rev s)).

(** [s.trim()] *)
Definition trim (s : jsstring) : jsstring := trimEnd (trimStart s).

(** [s.startsWith(p)] *)
Fixpoint startsWith (p s : jsstring) : bool :=
  match p, s with
  | [], _ => true
  | c :: p', d :: s' => N.eqb c d && startsWith p' s'
  | _ :: _, [] => false
  end.

(** [s.replace(p, '')] with a string pattern: the first occurrence of
    [p] is removed, and [s] is returned as it is when there is none. *)
Fixpoint remove_first (p s : jsstring) : jsstring :=
  if startsWith p s then skipn (length p) s
  else match s with
       | [] => []
       | c :: t => c :: remove_first p t
       end.

(** [s.substring(0, n)] for [0 <= n]. *)
Definition substring0 (n : nat) (s : jsstring) : jsstring := firstn n s.

(** Decimal digits of a natural number, most significant first. *)
Fixpoint digits_fuel (fuel : nat) (n : Z) (acc : jsstring) : jsstring :=
  match fuel with
  | O => acc
  | S f =>
      let acc' := Z.to_N (48 + n mod 10) :: acc in
      if n / 10 =? 0 then acc' else digits_fuel f (n / 10) acc'
  end.

Definition of_Z_nonneg (n : Z) : jsstring :=
  digits_fuel (S (Z.to_nat (Z.log2 n))) n [].

End JsString.
Export JsString.

(* ================================================================== *)
(** * JavaScript numbers *)
(* ================================================================== *)

Module Num.

(** A Number is a binary64 value.  A finite one is kept as the rational
    it denotes (the sign of zero is not kept: no operation of the service
    observes it). *)
Inductive number : Type :=
| Finite (q : Q)
| Infinity (negative : bool)
| NaN.

(** Nearest integer to [a / b], ties to even ([0 <= a], [0 < b]). *)
Definition round_half_even (a b : Z) : Z :=
  let q := a / b in
  match 2 * (a mod b) ?= b with
  | Lt => q
  | Gt => q + 1
  | Eq => if Z.even q then q else q + 1
  end.

(** [floor (log2 (n / d))] for [0 < n], [0 < d]. *)
Definition ilog2 (n d : Z) : Z :=
  let e := Z.log2 n - Z.log2 d in
  if d * 2 ^ Z.max e 0 <=? n * 2 ^ Z.max (- e) 0 then e else e - 1.

(** The dyadic [m * 2^k] as a rational. *)
Definition dyadic (m k : Z) : Q :=
  Qmake (m * 2 ^ Z.max k 0) (Z.to_pos (2 ^ Z.max (- k) 0)).

(** Round-to-nearest, ties-to-even, of the positive rational [n / d] to
    binary64: 53 significant bits, least exponent -1074 (subnormals),
    overflow to infinity from [2^1024]. *)
Definition round_pos (n d : Z) : number :=
  let k := Z.max (ilog2 n d - 52) (- 1074) in
  let m := round_half_even (n * 2 ^ Z.max (- k) 0) (d * 2 ^ Z.max k 0) in
  if 2 ^ 1024 <=? m * 2 ^ Z.max k 0 then Infinity false
  else Finite (Qred (dyadic m k)).

Definition neg (x : number) : number :=
  match x with
  | Finite q => Finite (Qopp q)
  | Infinity s => Infinity (negb s)
  | NaN => NaN
  end.

(** The Number value of the rational [n / d], [0 < d]. *)
Definition round_frac (n d : Z) : number :=
  match n ?= 0 with
  | Eq => Finite 0
  | Gt => round_pos n d
  | Lt => neg (round_pos (- n) d)
  end.

Definition round_Q (q : Q) : number := round_frac (Qnum q) (Zpos (Qden q)).

(** An integer that binary64 holds exactly is its own Number value. *)
Definition of_Z (z : Z) : number := Finite (inject_Z z).

(** The Number value of [m * 10^e] (decimal literals). *)
Definition of_decimal (m e : Z) : number :=
  if 0 <=? e then round_frac (m * 10 ^ e) 1 else round_frac m (10 ^ (- e)).

Definition is_zero (x : number) : bool :=
  match x with
  | Finite q => Qeq_bool q 0
  | _ => false
  end.

Definition sign_neg (x : number) : bool :=
  match x with
  | Finite q => match Qcompare q 0 with Lt => true | _ => false end
  | Infinity s => s
  | NaN => false
  end.

(** [x / y] *)
Definition div (x y : number) : number :=
  match x, y with
  | NaN, _ | _, NaN => NaN
  | Infinity _, Infinity _ => NaN
  | Infinity s, Finite q => Infinity (xorb s (sign_neg y))
  | Finite _, Infinity _ => Finite 0
  | Finite p, Finite q =>
      if Qeq_bool q 0 then
        (if Qeq_bool p 0 then NaN else Infinity (sign_neg x))
      else round_Q (Qdiv p q)
  end.

(** [x * y] *)
Definition mul (x y : number) : number :=
  match x, y with
  | NaN, _ | _, NaN => NaN
  | Infinity s, Infinity t => Infinity (xorb s t)
  | Infinity s, Finite q | Finite q, Infinity s =>
      if Qeq_bool q 0 then NaN else Infinity (xorb s (sign_neg (Finite q)))
  | Finite p, Finite q => round_Q (Qmult p q)
  end.

(** The sign of [x - y], [None] when the difference is NaN.  The
    difference of two finite binary64 values rounds to zero only when
    they are equal, and overflow keeps the sign, so the sign of the
    rounded difference is the sign of the exact one. *)
Definition sub_sign (x y : number) : option comparison :=
  match x, y with
  | NaN, _ | _, NaN => None
  | Finite p, Finite q => Some (Qcompare p q)
  | Infinity s, Infinity t =>
      if Bool.eqb s t then None else Some (if s then Lt else Gt)
  | Infinity s, Finite _ => Some (if s then Lt else Gt)
  | Finite _, Infinity t => Some (if t then Gt else Lt)
  end.

(** [x > y] *)
Definition gt (x y : number) : bool :=
  match sub_sign x y with
  | Some Gt => true
  | _ => false
  end.

End Num.
Export Num.

(* ================================================================== *)
(** * JSON values and [JSON.parse] *)
(* ================================================================== *)

Module Json.

(** What [JSON.parse] can return.  An object keeps its members as
    written, in source order; a later member of the same name shadows an
    earlier one ([get_own]). *)
Inductive value : Type :=
| VNull
| VBool (b : bool)
| VNum (n : number)
| VStr (s : jsstring)
| VArr (elems : list value)
| VObj (members : list (jsstring * value)).

(** ** Lexical level *)

Inductive token : Type :=
| TLBracket | TRBracket | TLBrace | TRBrace | TComma | TColon
| TValue (v : value).

(** JSON white space: tab, line feed, carriage return, space. *)
Definition is_json_ws (c : N) : bool :=
  ((c =? 9) || (c =? 10) || (c =? 13) || (c =? 32))%N.

Fixpoint skip_ws (s : jsstring) : jsstring :=
  match s with
  | c :: t => if is_json_ws c then skip_ws t else s
  | [] => []
  end.

Definition is_digit (c : N) : bool := ((48 <=? c) && (c <=? 57))%N.

Definition hex_value (c : N) : option N :=
  if is_digit c then Some (c - 48)%N
  else if ((97 <=? c) && (c <=? 102))%N then Some (c - 87)%N
  else if ((65 <=? c) && (c <=? 70))%N then Some (c - 55)%N
  else None.

(** The longest run of decimal digits at the head of [s]: its value on
    top of [acc], how many digits it has, and what follows it. *)
Fixpoint take_digits (s : jsstring) (acc : Z) (count : Z) : Z * Z * jsstring :=
  match s with
  | c :: t =>
      if is_digit c then take_digits t (10 * acc + Z.of_N (c - 48)) (count + 1)
      else (acc, count, s)
  | [] => (acc, count, [])
  end.

(** The characters of a string literal after its opening quote. *)
Fixpoint lex_string (s : jsstring) (acc : jsstring) : option (jsstring * jsstring) :=
  match s with
  | [] => None
  | c :: t =>
      if (c =? 34)%N then Some (rev acc, t)
      else if (c =? 92)%N then
        match t with
        | [] => None
        | e :: t' =>
            if (e =? 34)%N then lex_string t' (34%N :: acc)
            else if (e =? 92)%N then lex_string t' (92%N :: acc)
            else if (e =? 47)%N then lex_string t' (47%N :: acc)
            else if (e =? 98)%N then lex_string t' (8%N :: acc)
            else if (e =? 102)%N then lex_string t' (12%N :: acc)
            else if (e =? 110)%N then lex_string t' (10%N :: acc)
            else if (e =? 114)%N then lex_string t' (13%N :: acc)
            else if (e =? 116)%N then lex_string t' (9%N :: acc)
            else if (e =? 117)%N then
              match t' with
              | h1 :: h2 :: h3 :: h4 :: t'' =>
                  match hex_value h1, hex_value h2, hex_value h3, hex_value h4 with
                  | Some a, Some b, Some c', Some d =>
                      lex_string t'' ((4096 * a + 256 * b + 16 * c' + d)%N :: acc)
                  | _, _, _, _ => None
                  end
              | _ => None
              end
            else None
        end
      else if (c <? 32)%N then None
      else lex_string t (c :: acc)
  end.

(** The fraction of a number literal: [.] and at least one digit. *)
Definition lex_fraction (m : Z) (s : jsstring) : Z * Z * jsstring :=
  match s with
  | 46%N :: t =>
      let '(m', n, r) := take_digits t m 0 in
      if n =? 0 then (m, 0, s) else (m', n, r)
  | _ => (m, 0, s)
  end.

(** The exponent of a number literal: [e] or [E], a sign, at least one
    digit. *)
Definition lex_exponent (s : jsstring) : Z * jsstring :=
  match s with
  | c :: t =>
      if ((c =? 101) || (c =? 69))%N then
        let '(sgn, t1) :=
          match t with
          | 43%N :: u => (1, u)
          | 45%N :: u => (- 1, u)
          | _ => (1, t)
          end in
        let '(e, n, r) := take_digits t1 0 0 in
        if n =? 0 then (0, s) else (sgn * e, r)
      else (0, s)
  | [] => (0, [])
  end.

(** A number literal without its sign: [0] or a run of digits that does
    not start with [0], then the fraction and the exponent. *)
Definition lex_unsigned (s : jsstring) : option (number * jsstring) :=
  match s with
  | c :: t =>
      if is_digit c then
        let '(i, r) :=
          if (c =? 48)%N then (0, t)
          else let '(i, _, r) := take_digits s 0 0 in (i, r) in
        let '(m, fd, r1) := lex_fraction i r in
        let '(e, r2) := lex_exponent r1 in
        Some (of_decimal m (e - fd), r2)
      else None
  | [] => None
  end.

Definition lex_number (s : jsstring) : option (number * jsstring) :=
  match s with
  | 45%N :: t =>
      match lex_unsigned t with
      | Some (x, r) => Some (neg x, r)
      | None => None
      end
  | _ => lex_unsigned s
  end.

(** The next token of [s] and the rest of the text. *)
Definition lex1 (s : jsstring) : option (token * jsstring) :=
  match skip_ws s with
  | [] => None
  | c :: t =>
      if (c =? 91)%N then Some (TLBracket, t)
      else if (c =? 93)%N then Some (TRBracket, t)
      else if (c =? 123)%N then Some (TLBrace, t)
      else if (c =? 125)%N then Some (TRBrace, t)
      else if (c =? 44)%N then Some (TComma, t)
      else if (c =? 58)%N then Some (TColon, t)
      else if (c =? 34)%N then
        match lex_string t [] with
        | Some (str, r) => Some (TValue (VStr str), r)
        | None => None
        end
      else if startsWith (lit "null") (c :: t) then Some (TValue VNull, skipn 4 (c :: t))
      else if startsWith (lit "true") (c :: t) then Some (TValue (VBool true), skipn 4 (c :: t))
      else if startsWith (lit "false") (c :: t) then Some (TValue (VBool false), skipn 5 (c :: t))
      else
        match lex_number (c :: t) with
        | Some (x, r) => Some (TValue (VNum x), r)
        | None => None
        end
  end.

(** ** Syntactic level: a pushdown recogniser that builds the value *)

(** An enclosing array with the elements read so far (last first), or an
    enclosing object with its members so far and the name whose value is
    being read. *)
Inductive frame : Type :=
| FArr (acc : list value)
| FObj (acc : list (jsstring * value)) (k : jsstring).

Inductive pstate : Type :=
| SValue (st : list frame)
| SArrStart (st : list frame)
| SObjStart (st : list frame)
| SKey (st : list frame) (acc : list (jsstring * value))
| SColon (st : list frame) (acc : list (jsstring * value)) (k : jsstring)
| SAfterArr (st : list frame) (acc : list value)
| SAfterObj (st : list frame) (acc : list (jsstring * value))
| SDone (v : value).

(** A value [v] has been read below the frames [st]. *)
Definition reduce (st : list frame) (v : value) : pstate :=
  match st with
  | [] => SDone v
  | FArr acc :: st' => SAfterArr st' (v :: acc)
  | FObj acc k :: st' => SAfterObj st' ((k, v) :: acc)
  end.

Definition step_value (st : list frame) (t : token) : option pstate :=
  match t with
  | TValue v => Some (reduce st v)
  | TLBracket => Some (SArrStart st)
  | TLBrace => Some (SObjStart st)
  | _ => None
  end.

Definition step (s : pstate) (t : token) : option pstate :=
  match s with
  | SValue st => step_value st t
  | SArrStart st =>
      match t with
      | TRBracket => Some (reduce st (VArr []))
      | _ => step_value (FArr [] :: st) t
      end
  | SObjStart st =>
      match t with
      | TRBrace => Some (reduce st (VObj []))
      | TValue (VStr k) => Some (SColon st [] k)
      | _ => None
      end
  | SKey st acc =>
      match t with
      | TValue (VStr k) => Some (SColon st acc k)
      | _ => None
      end
  | SColon st acc k =>
      match t with
      | TColon => Some (SValue (FObj acc k :: st))
      | _ => None
      end
  | SAfterArr st acc =>
      match t with
      | TComma => Some (SValue (FArr acc :: st))
      | TRBracket => Some (reduce st (VArr (rev acc)))
      | _ => None
      end
  | SAfterObj st acc =>
      match t with
      | TComma => Some (SKey st acc)
      | TRBrace => Some (reduce st (VObj (rev acc)))
      | _ => None
      end
  | SDone _ => None
  end.

Fixpoint run (fuel : nat) (s : pstate) (text : jsstring) : option value :=
  match fuel with
  | O => None
  | S f =>
      match s with
      | SDone v => match skip_ws text with [] => Some v | _ :: _ => None end
      | _ =>
          match lex1 text with
          | None => None
          | Some (t, rest) =>
              match step s t with
              | None => None
              | Some s' => run f s' rest
              end
          end
      end
  end.

(** [JSON.parse(text)]: [None] is the [SyntaxError].  Every token takes
    at least one code unit, so [length text] steps and the final check
    are all the recogniser ever needs ([run_fuel] below). *)
Definition parse (text : jsstring) : option value :=
  run (S (length text)) (SValue []) text.

End Json.
Export Json.

(* ================================================================== *)
(** * Run-time operations on parsed values *)
(* ================================================================== *)

Module Runtime.

Inductive exn : Type :=
| TypeError                 (* property of null or undefined, call of a non-function *)
| SyntaxError               (* JSON.parse, response.json() *)
| NetworkError              (* fetch rejected *)
| ConfigurationError        (* Error('OPENAI_API_KEY 未配置') *)
| UpstreamError (detail : value)  (* Error(`OpenAI API错误: ${detail}`) *)
| DeepAnalysisFailed        (* Error('深度文章分析失败') *)
| InsightGenerationFailed.  (* Error('智能选题洞察生成失败') *)

Inductive result (A : Type) : Type :=
| Ok (a : A)
| Throw (e : exn).
Arguments Ok {A} a.
Arguments Throw {A} e.

(** The own property [k] of an object literal read by [JSON.parse]: the
    last member of that name. *)
Fixpoint get_own (k : jsstring) (ms : list (jsstring * value)) : option value :=
  match ms with
  | [] => None
  | (k', v) :: t =>
      match get_own k t with
      | Some w => Some w
      | None => if JsString.eqb k k' then Some v else None
      end
  end.

(** [v.k] for a name [k] that no prototype defines (every name the
    service reads but [length], [0] and the array methods, which have
    their own definitions below): [None] is [undefined]. *)
Definition getprop (v : value) (k : jsstring) : result (option value) :=
  match v with
  | VNull => Throw TypeError
  | VObj ms => Ok (get_own k ms)
  | _ => Ok None
  end.

(** [v?.k], with [v] possibly [undefined]. *)
Definition getprop_opt (v : option value) (k : jsstring) : option value :=
  match v with
  | Some (VObj ms) => get_own k ms
  | _ => None
  end.

(** [v[0]] *)
Definition index0 (v : option value) : result (option value) :=
  match v with
  | None | Some VNull => Throw TypeError
  | Some (VArr l) => Ok (nth_error l 0)
  | Some (VStr s) =>
      Ok (match s with c :: _ => Some (VStr [c]) | [] => None end)
  | Some (VObj ms) => Ok (get_own (lit "0") ms)
  | Some _ => Ok None
  end.

(** [v.length], for [v] neither [null] nor [undefined]. *)
Definition get_length (v : value) : option value :=
  match v with
  | VArr l => Some (VNum (of_Z (Z.of_nat (length l))))
  | VStr s => Some (VNum (of_Z (Z.of_nat (length s))))
  | VObj ms => get_own (lit "length") ms
  | _ => None
  end.

(** ToBoolean *)
Definition truthy (v : option value) : bool :=
  match v with
  | None | Some VNull => false
  | Some (VBool b) => b
  | Some (VNum x) =>
      match x with NaN => false | _ => negb (is_zero x) end
  | Some (VStr s) => match s with [] => false | _ => true end
  | Some (VArr _) | Some (VObj _) => true
  end.

(** [v || d] *)
Definition or_else (v : option value) (d : value) : value :=
  match v with
  | Some w => if truthy v then w else d
  | None => d
  end.

(** ** StringToNumber *)

Fixpoint take_radix (radix : Z) (s : jsstring) (acc : Z) (count : Z) : option (Z * Z) :=
  match s with
  | [] => Some (acc, count)
  | c :: t =>
      match hex_value c with
      | Some d =>
          if Z.of_N d <? radix then take_radix radix t (radix * acc + Z.of_N d) (count + 1)
          else None
      | None => None
      end
  end.

Definition radix_literal (radix : Z) (s : jsstring) : number :=
  match take_radix radix s 0 0 with
  | Some (v, n) => if n =? 0 then NaN else round_frac v 1
  | None => NaN
  end.

(** StrUnsignedDecimalLiteral: [Infinity], or digits with an optional
    fraction (either side of the point may be empty, not both) and an
    optional exponent. *)
Definition unsigned_decimal (s : jsstring) : number :=
  if JsString.eqb s (lit "Infinity") then Infinity false
  else
    let '(i, ni, r) := take_digits s 0 0 in
    let '(m, nf, r1) :=
      match r with
      | 46%N :: t => take_digits t i 0
      | _ => (i, 0, r)
      end in
    if ni + nf =? 0 then NaN
    else
      match r1 with
      | [] => of_decimal m (- nf)
      | c :: t =>
          if ((c =? 101) || (c =? 69))%N then
            let '(sgn, t1) :=
              match t with
              | 43%N :: u => (1, u)
              | 45%N :: u => (- 1, u)
              | _ => (1, t)
              end in
            match take_digits t1 0 0 with
            | (e, n, []) => if n =? 0 then NaN else of_decimal m (sgn * e - nf)
            | _ => NaN
            end
          else NaN
      end.

Definition StringToNumber (s : jsstring) : number :=
  match trim s with
  | [] => of_Z 0
  | 48%N :: 120%N :: t | 48%N :: 88%N :: t => radix_literal 16 t
  | 48%N :: 111%N :: t | 48%N :: 79%N :: t => radix_literal 8 t
  | 48%N :: 98%N :: t | 48%N :: 66%N :: t => radix_literal 2 t
  | 43%N :: t => unsigned_decimal t
  | 45%N :: t => neg (unsigned_decimal t)
  | t => unsigned_decimal t
  end.

(** The own member [k] exists. *)
Definition has_own (k : jsstring) (ms : list (jsstring * value)) : bool :=
  match get_own k ms with
  | Some _ => true
  | None => false
  end.

(** ToPrimitive faults on [v].  The members of a parsed object are data,
    never functions: an own [valueOf] or [toString] is skipped as not
    callable, the inherited [valueOf] returns the object itself, and only
    the inherited [toString] yields a primitive; so an object with an own
    [toString] member has no primitive value, whatever the hint, and the
    conversion throws a TypeError.  An array is converted through its
    [join(',')], which converts every element other than [null] to a
    string. *)
Fixpoint unconvertible (v : value) : bool :=
  match v with
  | VObj ms => has_own (lit "toString") ms
  | VArr l => existsb unconvertible l
  | _ => false
  end.

(** The number a parsed value converts to, when the conversion does not
    fault.  An array goes through its [join(',')]: empty it reads as [0],
    with one element as that element's string, with more it holds a
    comma and is no numeric literal.  A number printed and read back is
    itself. *)
Fixpoint ToNumber_value (v : value) : number :=
  match v with
  | VNull => of_Z 0
  | VBool b => of_Z (if b then 1 else 0)
  | VNum x => x
  | VStr s => StringToNumber s
  | VObj _ => NaN
  | VArr [] => of_Z 0
  | VArr [e] =>
      match e with
      | VNull => of_Z 0
      | VBool _ | VObj _ => NaN
      | VNum x => x
      | VStr s => StringToNumber s
      | VArr _ => ToNumber_value e
      end
  | VArr (_ :: _ :: _) => NaN
  end.

(** ToNumber; [undefined] converts to NaN. *)
Definition ToNumber (v : option value) : result number :=
  match v with
  | None => Ok NaN
  | Some w => if unconvertible w then Throw TypeError else Ok (ToNumber_value w)
  end.

(** ** [Array.prototype.sort]

    [cmp a b] is the sign of the comparator's result, [None] being NaN,
    which [sort] takes as [+0].  The sort is stable (ECMAScript 2019):
    with a consistent comparator the result is the one stable
    arrangement, which insertion from the right computes.  With an
    inconsistent comparator (one that yields NaN on some pairs only) the
    order is implementation-defined and an engine may return another
    one than this; the theorems that fix the order returned assume
    confidences on which the comparator is consistent (numbers other
    than NaN throughout, or NaN throughout). *)
Section Sort.
Context {A : Type} (cmp : A -> A -> option comparison).

(** [a] may stay before [b]. *)
Definition before (a b : A) : bool :=
  match cmp a b with
  | Some Gt => false
  | _ => true
  end.

Fixpoint insert (a : A) (l : list A) : list A :=
  match l with
  | [] => [a]
  | b :: t => if before a b then a :: l else b :: insert a t
  end.

Fixpoint sort (l : list A) : list A :=
  match l with
  | [] => []
  | a :: t => insert a (sort t)
  end.

End Sort.

(** The same with a comparator that can throw: the first fault ends the
    sort.  With two elements or more every element takes part in a
    comparison, here as in any comparison sort, so the sort faults
    exactly when the comparator faults on some element. *)
Section SortBy.
Context {A : Type} (cmp : A -> A -> result (option comparison)).

Fixpoint insert_by (a : A) (l : list A) : result (list A) :=
  match l with
  | [] => Ok [a]
  | b :: t =>
      match cmp a b with
      | Throw x => Throw x
      | Ok (Some Gt) =>
          match insert_by a t with
          | Ok r => Ok (b :: r)
          | Throw x => Throw x
          end
      | Ok _ => Ok (a :: l)
      end
  end.

Fixpoint sort_by (l : list A) : result (list A) :=
  match l with
  | [] => Ok []
  | a :: t =>
      match sort_by t with
      | Ok s => insert_by a s
      | Throw x => Throw x
      end
  end.

End SortBy.

End Runtime.
Export Runtime.

(* ================================================================== *)
(** * Printing numbers: [Number.prototype.toFixed] and [Number::toString] *)
(* ================================================================== *)

Module NumFormat.

(** How many decimal digits the positive integer [a] has. *)
Definition decimal_length (a : Z) : Z := Z.of_nat (length (of_Z_nonneg a)).

(** Number::toString looks for the least [k] such that some [s] of [k]
    digits has [s * 10^(n-k)] round to the number; of the candidates of
    that length the closest is printed.  [a] is the (integral) value,
    [n0] its decimal length; the result is [(s, n)]. *)
Definition shortest_candidate (a n0 k : Z) : option (Z * Z) :=
  let p := 10 ^ (n0 - k) in
  let lo := a / p in
  let hits (c : Z) : bool :=
    match round_frac (c * p) 1 with
    | Finite q => Qeq_bool q (inject_Z a)
    | _ => false
    end in
  let norm (c : Z) : Z * Z :=
    if c =? 10 ^ k then (10 ^ (k - 1), n0 + 1) else (c, n0) in
  match hits lo, hits (lo + 1) with
  | true, true =>
      if a - lo * p <=? (lo + 1) * p - a then Some (norm lo) else Some (norm (lo + 1))
  | true, false => Some (norm lo)
  | false, true => Some (norm (lo + 1))
  | false, false => None
  end.

Fixpoint shortest_from (fuel : nat) (a n0 k : Z) : Z * Z :=
  match fuel with
  | O => (a, n0)
  | S f =>
      match shortest_candidate a n0 k with
      | Some r => r
      | None => shortest_from f a n0 (k + 1)
      end
  end.

(** Number::toString of an integral value [a >= 10^21]: always the
    exponential form, [d.ddd e+x]. *)
Definition toString_large (a : Z) : jsstring :=
  let '(s, n) := shortest_from 17 a (decimal_length a) 1 in
  let ds := of_Z_nonneg s in
  let mantissa :=
    match ds with
    | d :: (_ :: _) as rest => d :: 46%N :: rest
    | _ => ds
    end in
  mantissa ++ lit "e+" ++ of_Z_nonneg (n - 1).

(** [floor (q + 1/2)] for [0 <= q]: the integer nearest to [q], the
    larger one of two. *)
Definition round_half_up (q : Q) : Z :=
  (2 * Qnum q + Zpos (Qden q)) / (2 * Zpos (Qden q)).

(** [x.toFixed(1)] *)
Definition toFixed1 (x : number) : jsstring :=
  match x with
  | NaN => lit "NaN"
  | Infinity s => if s then lit "-Infinity" else lit "Infinity"
  | Finite q =>
      let s := match Qcompare q 0 with Lt => lit "-" | _ => [] end in
      let a := Qabs q in
      if Qle_bool (inject_Z (10 ^ 21)) a then
        s ++ toString_large (Qnum a / Zpos (Qden a))
      else
        let n := round_half_up (Qmult a (inject_Z 10)) in
        s ++ of_Z_nonneg (n / 10) ++ 46%N :: of_Z_nonneg (n mod 10)
  end.

End NumFormat.
Export NumFormat.

(* ================================================================== *)
(** * The service: effects, data and the four functions *)
(* ================================================================== *)

Module Service.

(** ** Data *)

Record article : Type := {
  title : jsstring;
  content : option jsstring;
  likes : number;
  reads : number;
  url : jsstring }.

(** One element of the array the phase-1 prompt embeds. *)
Record article_row : Type := {
  row_index : Z;
  row_title : jsstring;
  row_content : jsstring;
  row_likes : number;
  row_reads : number;
  row_engagement : jsstring }.

Record stats : Type := {
  totalArticles : number;
  avgReads : number;
  avgLikes : number;
  avgEngagement : jsstring }.

(** The four message texts of the service.  Each is a fixed template
    around [JSON.stringify] of the data it carries; a message is kept as
    that data. *)
Inductive prompt : Type :=
| DeepAnalysisSystem
| DeepAnalysisUser (count : nat) (articlesJson : list article_row)
| InsightsSystem
| InsightsUser (count : nat) (summariesJson : list value) (st : stats).

Record message : Type := { role : jsstring; text : prompt }.

Record request : Type := {
  req_url : jsstring;
  req_key : jsstring;
  req_model : jsstring;
  req_messages : list message;
  req_temperature : number }.

(** [body] is the payload as text, a byte order mark at its head
    included. *)
Record http_response : Type := {
  ok : bool;
  statusText : jsstring;
  body : jsstring }.

(** The module-level configuration and the network: [fetch] answers a
    request or rejects ([None]). *)
Record env : Type := {
  OPENAI_API_KEY : jsstring;
  OPENAI_API_BASE : jsstring;
  OPENAI_MODEL : jsstring;
  fetch : request -> option http_response }.

(** ** Effects: the console and the requests sent *)

Inductive console_entry : Type :=
| WarnSummaryFields (index : nat)       (* warn(`文章${index + 1}缺少关键字段: ...`) *)
| ErrorParseFailed (response : value)   (* error('解析AI响应失败:', response) *)
| WarnNoInsights                        (* warn('AI未能生成任何洞察') *)
| LogTruncated (len : option value)     (* log(`AI生成了${insights.length}条选题洞察，截取前10条`) *)
| LogCount (len : option value)         (* log(`AI生成了${insights.length}条选题洞察`) *)
| WarnInsightKeywords (index : nat)     (* warn(`洞察${index + 1}缺少必需的关键词字段`) *)
| ErrorInsightsFailed (response : value). (* error('解析洞察失败:', response) *)

Record world : Type := {
  console : list console_entry;
  sent : list request }.

Definition M (A : Type) : Type := world -> world * result A.

Definition ret {A} (a : A) : M A := fun w => (w, Ok a).

Definition throw {A} (e : exn) : M A := fun w => (w, Throw e).

Definition bind {A B} (c : M A) (k : A -> M B) : M B :=
  fun w =>
    match c w with
    | (w', Ok a) => k a w'
    | (w', Throw e) => (w', Throw e)
    end.

Notation "x <- c ;; k" := (bind c (fun x => k))
  (at level 61, c at next level, right associativity).
Notation "c ;; k" := (bind c (fun _ => k))
  (at level 61, right associativity).

(** [try { c } catch (error) { h }]: what [c] wrote stays written. *)
Definition try_catch {A} (c : M A) (h : exn -> M A) : M A :=
  fun w =>
    match c w with
    | (w', Ok a) => (w', Ok a)
    | (w', Throw e) => h e w'
    end.

Definition lift {A} (r : result A) : M A := fun w => (w, r).

Definition write (entry : console_entry) : M unit :=
  fun w => ({| console := console w ++ [entry]; sent := sent w |}, Ok tt).

Definition do_fetch (e : env) (r : request) : M http_response :=
  fun w =>
    ({| console := console w; sent := sent w ++ [r] |},
     match fetch e r with
     | Some resp => Ok resp
     | None => Throw NetworkError
     end).

(** [a.forEach((x, index) => f x index)] *)
Fixpoint forEach_from {A} (f : A -> nat -> M unit) (l : list A) (index : nat) : M unit :=
  match l with
  | [] => ret tt
  | x :: t => f x index ;; forEach_from f t (S index)
  end.

(** [v.forEach(...)]: only an array has the method. *)
Definition forEach (v : value) (f : value -> nat -> M unit) : M unit :=
  match v with
  | VArr l => forEach_from f l 0
  | _ => throw TypeError
  end.

(** [JSON.parse] inside the monad. *)
Definition parse_json (s : jsstring) : M value :=
  match parse s with
  | Some v => ret v
  | None => throw SyntaxError
  end.

(** ** callOpenAI *)

(** What [response.json()] parses: the body is decoded first, which
    drops one byte order mark at its head. *)
Definition json (response : http_response) : option value :=
  parse (match body response with
         | c :: t => if (c =? 65279)%N then t else c :: t
         | [] => []
         end).

(** [response.json()] inside the monad. *)
Definition response_json (response : http_response) : M value :=
  match json response with
  | Some v => ret v
  | None => throw SyntaxError
  end.

(** [{ error: { message: 'Unknown error' } }] *)
Definition unknown_error : value :=
  VObj [(lit "error", VObj [(lit "message", VStr (lit "Unknown error"))])].

(** The request [fetch] is given. *)
Definition chat_request (e : env) (messages : list message) (temperature : number) : request :=
  {| req_url := OPENAI_API_BASE e ++ lit "/chat/completions";
     req_key := OPENAI_API_KEY e;
     req_model := OPENAI_MODEL e;
     req_messages := messages;
     req_temperature := temperature |}.

Definition callOpenAI (e : env) (messages : list message) (temperature : number) : M value :=
  match OPENAI_API_KEY e with
  | [] => throw ConfigurationError
  | _ :: _ =>
      response <- do_fetch e (chat_request e messages temperature) ;;
      if negb (ok response) then
        let error := match json response with
                     | Some v => v
                     | None => unknown_error
                     end in
        inner <- lift (getprop error (lit "error")) ;;
        let detail := or_else (getprop_opt inner (lit "message"))
                              (VStr (statusText response)) in
        (* the template literal converts [detail] to a string *)
        if unconvertible detail then throw TypeError
        else throw (UpstreamError detail)
      else
        data <- response_json response ;;
        choices <- lift (getprop data (lit "choices")) ;;
        first <- lift (index0 choices) ;;
        ret (or_else (getprop_opt (getprop_opt first (lit "message")) (lit "content"))
                     (VStr []))
  end.

(** ** Shared by both phases: cleaning the response *)

(** [response.trim()]: only a string has the method. *)
Definition call_trim (response : value) : M jsstring :=
  match response with
  | VStr s => ret (trim s)
  | _ => throw TypeError
  end.

(** The fence removal applied to the trimmed response. *)
Definition strip_fence (cleanResponse : jsstring) : jsstring :=
  if startsWith (lit "```json") cleanResponse
  then trim (remove_first (lit "```") (remove_first (lit "```json") cleanResponse))
  else cleanResponse.

(** ** deepAnalyzeArticles *)

(** [a.reads > 0 ? ((a.likes / a.reads) * 100).toFixed(1) : '0'] *)
Definition engagement (a : article) : jsstring :=
  if gt (reads a) (of_Z 0)
  then toFixed1 (mul (div (likes a) (reads a)) (of_Z 100))
  else lit "0".

Fixpoint rows_from (articles : list article) (i : Z) : list article_row :=
  match articles with
  | [] => []
  | a :: t =>
      {| row_index := i + 1;
         row_title := title a;
         row_content := substring0 3000 (match content a with
                                         | Some ((_ :: _) as c) => c
                                         | _ => []
                                         end);
         row_likes := likes a;
         row_reads := reads a;
         row_engagement := engagement a |} :: rows_from t (i + 1)
  end.

(** The callback of [summaries.forEach]. *)
Definition check_summary (summary : value) (index : nat) : M unit :=
  targetAudience <- lift (getprop summary (lit "targetAudience")) ;;
  scenario <- lift (getprop summary (lit "scenario")) ;;
  painPoint <- lift (getprop summary (lit "painPoint")) ;;
  if negb (truthy targetAudience) || negb (truthy scenario) || negb (truthy painPoint)
  then write (WarnSummaryFields index)
  else ret tt.

(** The body of the [try] block. *)
Definition deepAnalyze_try (response : value) : M value :=
  trimmed <- call_trim response ;;
  parsed <- parse_json (strip_fence trimmed) ;;
  field <- lift (getprop parsed (lit "summaries")) ;;
  let summaries := or_else field (VArr []) in
  forEach summaries check_summary ;;
  ret summaries.

(** What happens to the response of the model. *)
Definition deepAnalyze_response (response : value) : M value :=
  try_catch (deepAnalyze_try response)
            (fun _ => write (ErrorParseFailed response) ;; throw DeepAnalysisFailed).

Definition deepAnalysis_messages (articles : list article) : list message :=
  let articlesJson := rows_from articles 0 in
  [ {| role := lit "system"; text := DeepAnalysisSystem |};
    {| role := lit "user"; text := DeepAnalysisUser (length articles) articlesJson |} ].

Definition deepAnalyzeArticles (e : env) (articles : list article) : M value :=
  if (length articles =? 0)%nat then ret (VArr [])
  else
    response <- callOpenAI e (deepAnalysis_messages articles) (of_decimal 3 (- 1)) ;;
    deepAnalyze_response response.

(** ** generateSmartTopicInsights *)

(** [insights.length === 0] *)
Definition is_number_zero (v : option value) : bool :=
  match v with
  | Some (VNum x) => is_zero x
  | _ => false
  end.

(** [insights.slice(0, 10)]: arrays and strings have the method. *)
Definition slice_0_10 (v : value) : M value :=
  match v with
  | VArr l => ret (VArr (firstn 10 l))
  | VStr s => ret (VStr (firstn 10 s))
  | _ => throw TypeError
  end.

(** The callback of [insights.forEach]. *)
Definition check_insight (insight : value) (index : nat) : M unit :=
  keywords <- lift (getprop insight (lit "keywords")) ;;
  if negb (truthy (getprop_opt keywords (lit "scene")))
     || negb (truthy (getprop_opt keywords (lit "audience")))
     || negb (truthy (getprop_opt keywords (lit "need")))
  then write (WarnInsightKeywords index)
  else ret tt.

(** [v.confidence] as an operand of the subtraction. *)
Definition confidence_of (v : value) : result number :=
  match getprop v (lit "confidence") with
  | Ok c => ToNumber c
  | Throw x => Throw x
  end.

(** [(a, b) => b.confidence - a.confidence], as a sign. *)
Definition compare_confidence (a b : value) : result (option comparison) :=
  match confidence_of b with
  | Ok y =>
      match confidence_of a with
      | Ok x => Ok (sub_sign y x)
      | Throw e => Throw e
      end
  | Throw e => Throw e
  end.

(** The number the confidence of [v] converts to, NaN where there is
    none, and the comparator on records whose confidence converts. *)
Definition confidence (v : value) : number :=
  match confidence_of v with
  | Ok x => x
  | Throw _ => NaN
  end.

Definition by_confidence (a b : value) : option comparison :=
  sub_sign (confidence b) (confidence a).

(** [insights.sort(...)]: only an array has the method. *)
Definition call_sort (v : value) : M value :=
  match v with
  | VArr l => sorted <- lift (sort_by compare_confidence l) ;; ret (VArr sorted)
  | _ => throw TypeError
  end.

(** The cap: the three branches on [insights.length]. *)
Definition cap (insights : value) : M value :=
  let len := get_length insights in
  if is_number_zero len then write WarnNoInsights ;; ret insights
  else
    n <- lift (ToNumber len) ;;
    if gt n (of_Z 10) then write (LogTruncated len) ;; slice_0_10 insights
    else write (LogCount len) ;; ret insights.

Definition generateInsights_try (response : value) : M value :=
  trimmed <- call_trim response ;;
  parsed <- parse_json (strip_fence trimmed) ;;
  field <- lift (getprop parsed (lit "insights")) ;;
  insights <- cap (or_else field (VArr [])) ;;
  forEach insights check_insight ;;
  call_sort insights.

Definition generateInsights_response (response : value) : M value :=
  try_catch (generateInsights_try response)
            (fun _ => write (ErrorInsightsFailed response) ;; throw InsightGenerationFailed).

Definition insights_messages (summaries : list value) (st : stats) : list message :=
  [ {| role := lit "system"; text := InsightsSystem |};
    {| role := lit "user"; text := InsightsUser (length summaries) summaries st |} ].

Definition generateSmartTopicInsights (e : env) (summaries : list value) (st : stats) : M value :=
  if (length summaries =? 0)%nat then ret (VArr [])
  else
    response <- callOpenAI e (insights_messages summaries st) (of_decimal 4 (- 1)) ;;
    generateInsights_response response.

End Service.
Export Service.

(* ================================================================== *)
(** * generateWordCloud *)
(* ================================================================== *)

Module WordCloud.

(** Modelled from the spec: the [ArticleSummary] type of
    [@/types/ai-analysis], which the repository keeps outside
    [lib/ai-service.ts]; the fields are those of the data model, and
    [keywords] may be absent, as the [s.keywords || []] of the source
    allows. *)
Record ArticleSummary : Type := {
  index : Z;
  keyPoints : list jsstring;
  keywords : option (list jsstring);
  highlights : list jsstring;
  engagementAnalysis : jsstring;
  targetAudience : jsstring;
  scenario : jsstring;
  painPoint : jsstring;
  contentAngle : jsstring;
  emotionType : jsstring;
  writingStyle : jsstring }.

(** What a property of [wordCount] holds: a count, or, for a word that
    names a member of [Object.prototype], the string that member and the
    [+ 1]s concatenate to. *)
Inductive tally : Type :=
| Count (n : Z)
| NotANumber.

(** The members of [Object.prototype] other than the [__proto__]
    accessor: reading [wordCount[word]] finds the inherited function. *)
Definition inherited_names : list jsstring :=
  map lit [ "constructor"; "__defineGetter__"; "__defineSetter__";
            "hasOwnProperty"; "__lookupGetter__"; "__lookupSetter__";
            "isPrototypeOf"; "propertyIsEnumerable"; "toString"; "valueOf";
            "toLocaleString" ]%string.

Definition inherited (word : jsstring) : bool :=
  existsb (JsString.eqb word) inherited_names.

(** [wordCount[word] = (wordCount[word] || 0) + 1] on the own
    properties of [wordCount], kept in creation order. *)
Fixpoint update (word : jsstring) (own : list (jsstring * tally)) : list (jsstring * tally) :=
  match own with
  | [] => [(word, if inherited word then NotANumber else Count 1)]
  | (k, c) :: t =>
      if JsString.eqb word k
      then (k, match c with Count n => Count (n + 1) | NotANumber => NotANumber end) :: t
      else (k, c) :: update word t
  end.

(** Assigning a string to [__proto__] goes to the accessor, which
    ignores it: no own property appears. *)
Definition count_word (own : list (jsstring * tally)) (word : jsstring) : list (jsstring * tally) :=
  if JsString.eqb word (lit "__proto__") then own else update word own.

(** The array index a property name denotes, if any: a canonical
    decimal numeral up to [2^32 - 2]. *)
Definition array_index (k : jsstring) : option Z :=
  match k with
  | [] => None
  | c :: t =>
      if forallb is_digit k
         && (negb (c =? 48)%N || match t with [] => true | _ :: _ => false end)
      then let '(v, _, _) := take_digits k 0 0 in
           if v <=? 2 ^ 32 - 2 then Some v else None
      else None
  end.

Definition is_index (p : jsstring * tally) : bool :=
  match array_index (fst p) with Some _ => true | None => false end.

Definition index_value (p : jsstring * tally) : Z :=
  match array_index (fst p) with Some v => v | None => 0 end.

(** [Object.entries(wordCount)]: the array-index names in ascending
    numeric order, then the other names in creation order. *)
Definition entries (own : list (jsstring * tally)) : list (jsstring * tally) :=
  sort (fun a b => Some (Z.compare (index_value a) (index_value b))) (filter is_index own)
  ++ filter (fun p => negb (is_index p)) own.

(** [([, a], [, b]) => b - a] *)
Definition by_count (x y : jsstring * tally) : option comparison :=
  match snd x, snd y with
  | Count a, Count b => Some (Z.compare b a)
  | _, _ => None
  end.

Record cloud_entry : Type := { word : jsstring; count : tally; size : Z }.

Fixpoint with_size (l : list (jsstring * tally)) (i : Z) : list cloud_entry :=
  match l with
  | [] => []
  | (w, c) :: t =>
      {| word := w; count := c; size := Z.max 20 (48 - i * 2) |} :: with_size t (i + 1)
  end.

Definition allKeywords (summaries : list ArticleSummary) : list jsstring :=
  flat_map (fun s => match keywords s with Some ks => ks | None => [] end) summaries.

Definition generateWordCloud (summaries : list ArticleSummary) : list cloud_entry :=
  let wordCount := fold_left count_word (allKeywords summaries) [] in
  with_size (firstn 20 (sort by_count (entries wordCount))) 0.

End WordCloud.
Export WordCloud.

(* ================================================================== *)
(** * app/analysis/page.tsx: the statistics and the two rankings *)
(* ================================================================== *)

Module Page.

(** ** Arithmetic the page uses *)

(** [x + y] on numbers. *)
Definition add (x y : number) : number :=
  match x, y with
  | NaN, _ | _, NaN => NaN
  | Infinity s, Infinity t => if Bool.eqb s t then Infinity s else NaN
  | Infinity s, Finite _ | Finite _, Infinity s => Infinity s
  | Finite p, Finite q => round_Q (Qplus p q)
  end.

(** [Math.round(x)]: the nearest integer, the larger of two. *)
Definition Math_round (x : number) : number :=
  match x with
  | Finite q => Finite (inject_Z (Qfloor (Qplus q (1 # 2))))
  | _ => x
  end.

(** [x.toFixed(0)] *)
Definition toFixed0 (x : number) : jsstring :=
  match x with
  | NaN => lit "NaN"
  | Infinity s => if s then lit "-Infinity" else lit "Infinity"
  | Finite q =>
      let s := match Qcompare q 0 with Lt => lit "-" | _ => [] end in
      let a := Qabs q in
      if Qle_bool (inject_Z (10 ^ 21)) a then
        s ++ toString_large (Qnum a / Zpos (Qden a))
      else s ++ of_Z_nonneg (round_half_up a)
  end.

(** [x || 0] for a count that may be missing. *)
Definition or_zero (x : option number) : number :=
  match x with
  | Some (Finite q) => if Qeq_bool q 0 then of_Z 0 else Finite q
  | Some (Infinity s) => Infinity s
  | Some NaN | None => of_Z 0
  end.

(** A count used as a number: [undefined] reads as NaN. *)
Definition as_number (x : option number) : number :=
  match x with
  | Some n => n
  | None => NaN
  end.

(** [a || b || ''] on strings that may be missing. *)
Definition first_nonempty (a b : option jsstring) : jsstring :=
  match a with
  | Some ((_ :: _) as s) => s
  | _ => match b with
         | Some ((_ :: _) as s) => s
         | _ => []
         end
  end.

(** ** Data *)

Module WeChat.

(** Modelled from the uses in [page.tsx]: the [WeChatArticle] type of
    [@/types/wechat-api], which is not part of the two source files; the
    page reads these five members, and guards all but [title] against
    absence. *)
Record Article : Type := {
  title : jsstring;
  praise : option number;
  read : option number;
  url : option jsstring;
  short_link : option jsstring }.

End WeChat.

(** A row of one of the two rankings. *)
Record ranked : Type := {
  title : jsstring;
  likes : number;
  reads : number;
  engagement : jsstring;
  url : jsstring }.

Record overview : Type := {
  totalArticles : number;
  avgReads : number;
  avgLikes : number;
  avgEngagement : jsstring }.

(** [mockAnalysisResult.topLikesArticles]; [topEngagementArticles] has
    the same five rows. *)
Definition mock_rows : list ranked :=
  [
    {| title := [20844; 20247; 21495; 36816; 33829; 23454; 25112; 25216; 24039]%N;
       likes := of_Z 5200; reads := of_Z 15000; engagement := lit "34.7%"; url := lit "#" |};
    {| title := [20869; 23481; 21019; 20316; 30340; 49; 48; 20010; 35823; 21306]%N;
       likes := of_Z 4800; reads := of_Z 12000; engagement := lit "40.0%"; url := lit "#" |};
    {| title := [31169; 22495; 27969; 37327; 22686; 38271; 31574; 30053]%N;
       likes := of_Z 3500; reads := of_Z 9800; engagement := lit "35.7%"; url := lit "#" |};
    {| title := [30701; 35270; 39057; 20869; 23481; 33829; 38144; 25351; 21335]%N;
       likes := of_Z 3200; reads := of_Z 8900; engagement := lit "36.0%"; url := lit "#" |};
    {| title := [29992; 25143; 30011; 20687; 20998; 26512; 26041; 27861]%N;
       likes := of_Z 2800; reads := of_Z 7500; engagement := lit "37.3%"; url := lit "#" |} ].

(** ** calculateStats *)

Definition total (count : WeChat.Article -> option number) (articles : list WeChat.Article) : number :=
  fold_left (fun sum article => add sum (or_zero (count article))) articles (of_Z 0).

(** [None] is [undefined]: on an empty list the function returns
    [mockAnalysisResult.stats], and the mock object has no such member. *)
Definition calculateStats (articles : list WeChat.Article) : option overview :=
  if (length articles =? 0)%nat then None
  else
    let totalArticles := of_Z (Z.of_nat (length articles)) in
    let totalReads := total WeChat.read articles in
    let totalLikes := total WeChat.praise articles in
    Some {| totalArticles := totalArticles;
            avgReads := Math_round (div totalReads totalArticles);
            avgLikes := Math_round (div totalLikes totalArticles);
            avgEngagement :=
              if gt totalReads (of_Z 0)
              then toFixed1 (mul (div totalLikes totalReads) (of_Z 100)) ++ lit "%"
              else lit "0%" |}.

(** ** getTopLikesArticles *)

(** [(a, b) => (b.praise || 0) - (a.praise || 0)] *)
Definition by_praise (a b : WeChat.Article) : option comparison :=
  sub_sign (or_zero (WeChat.praise b)) (or_zero (WeChat.praise a)).

Definition likes_row (article : WeChat.Article) : ranked :=
  {| title := WeChat.title article;
     likes := or_zero (WeChat.praise article);
     reads := or_zero (WeChat.read article);
     engagement :=
       if gt (as_number (WeChat.read article)) (of_Z 0)
       then toFixed0 (mul (div (as_number (WeChat.praise article))
                               (as_number (WeChat.read article))) (of_Z 100))
            ++ lit "%"
       else lit "0%";
     url := first_nonempty (WeChat.url article) (WeChat.short_link article) |}.

(** [articleCount] is the state the page sets from its buttons (5, 10,
    20) and from the custom input, which it accepts from 1 to 100: a
    natural number. *)
Definition getTopLikesArticles (articles : list WeChat.Article) (articleCount : nat) : list ranked :=
  if (length articles =? 0)%nat then mock_rows
  else map likes_row (firstn articleCount (sort by_praise articles)).

(** ** getTopEngagementArticles *)

(** [article.read > 0] *)
Definition was_read (article : WeChat.Article) : bool :=
  gt (as_number (WeChat.read article)) (of_Z 0).

(** [(article.praise || 0) / article.read] *)
Definition ratio (article : WeChat.Article) : number :=
  div (or_zero (WeChat.praise article)) (as_number (WeChat.read article)).

(** [(a, b) => engagementB - engagementA] *)
Definition by_ratio (a b : WeChat.Article) : option comparison :=
  sub_sign (ratio b) (ratio a).

Definition engagement_row (article : WeChat.Article) : ranked :=
  {| title := WeChat.title article;
     likes := or_zero (WeChat.praise article);
     reads := or_zero (WeChat.read article);
     engagement := toFixed0 (mul (ratio article) (of_Z 100)) ++ lit "%";
     url := first_nonempty (WeChat.url article) (WeChat.short_link article) |}.

Definition getTopEngagementArticles (articles : list WeChat.Article) (articleCount : nat) : list ranked :=
  if (length articles =? 0)%nat then mock_rows
  else map engagement_row
           (firstn articleCount (sort by_ratio (filter was_read articles))).

End Page.

(* ================================================================== *)
(** * Vocabulary of the statements *)
(* ================================================================== *)

(** ** Numbers and lists *)

(** The order of Number values other than NaN. *)
Definition num_le (x y : number) : Prop :=
  match x, y with
  | NaN, _ | _, NaN => False
  | Infinity true, _ => True
  | _, Infinity false => True
  | Finite p, Finite q => (p <= q)%Q
  | _, _ => False
  end.

Definition num_eqb (x y : number) : bool :=
  match x, y with
  | Finite p, Finite q => Qeq_bool p q
  | Infinity s, Infinity t => Bool.eqb s t
  | _, _ => false
  end.

(** [a] stands somewhere before [b] in [l]. *)
Definition occurs_before {A} (a b : A) (l : list A) : Prop :=
  exists l1 l2 l3, l = l1 ++ a :: l2 ++ b :: l3.

(** Digits, a point, one digit. *)
Fixpoint fixed_point_1 (s : jsstring) : bool :=
  match s with
  | [] => false
  | d :: t =>
      is_digit d
      && match t with
         | [p; f] => (p =? 46)%N && is_digit f
         | _ => fixed_point_1 t
         end
  end.

(** A decimal numeral with exactly one decimal place, signed or not. *)
Definition one_decimal_place (s : jsstring) : bool :=
  match s with
  | 45%N :: t => fixed_point_1 t
  | _ => fixed_point_1 s
  end.

(** ** Records, warnings and the console *)

(** [v.k] read as data: [undefined] on anything but an object. *)
Definition field (v : value) (k : jsstring) : option value :=
  match v with
  | VObj ms => get_own k ms
  | _ => None
  end.

(** A phase-2 record the ranker can order: a value that is not [null]
    and whose [confidence] reads as a number (its ToNumber is not NaN,
    as for every record whose [confidence] is a JSON number). *)
Definition is_insight (v : value) : Prop :=
  v <> VNull /\ confidence v <> NaN.

(** The confidence of a record as the data model has it: the number its
    [confidence] member holds. *)
Definition rating (v : value) : option number :=
  match field v (lit "confidence") with
  | Some (VNum x) => Some x
  | _ => None
  end.

(** A record with a confidence, which is a number of JSON, not NaN. *)
Definition rated (v : value) : Prop := exists x, rating v = Some x /\ x <> NaN.

(** The comparator of the data model: descending by rating. *)
Definition by_rating (a b : value) : option comparison :=
  match rating b, rating a with
  | Some y, Some x => sub_sign y x
  | _, _ => None
  end.

(** A record whose [confidence], if it has one, can be converted to a
    number: it is no object with an own [toString] member and no array
    that holds one. *)
Definition convertible (v : value) : Prop :=
  match field v (lit "confidence") with
  | Some c => unconvertible c = false
  | None => True
  end.

(** Every insight left out ranks no higher than every insight kept. *)
Definition keeps_highest (out l : list value) : Prop :=
  forall x y, In x l -> ~ In x out -> In y out ->
              num_le (confidence x) (confidence y).

(** A phase-1 record with one of the three targeting fields absent or
    falsy. *)
Definition summary_incomplete (v : value) : bool :=
  negb (truthy (field v (lit "targetAudience")))
  || negb (truthy (field v (lit "scenario")))
  || negb (truthy (field v (lit "painPoint"))).

(** A phase-2 record with one of the three keyword fields absent or
    falsy. *)
Definition keywords_incomplete (v : value) : bool :=
  let keywords := field v (lit "keywords") in
  negb (truthy (getprop_opt keywords (lit "scene")))
  || negb (truthy (getprop_opt keywords (lit "audience")))
  || negb (truthy (getprop_opt keywords (lit "need"))).

(** The entries one pass over [l] warns about, [bad] being the test of
    the callback and [i] the index of the head of [l]. *)
Fixpoint warnings_from (bad : value -> bool) (mk : nat -> console_entry)
         (l : list value) (i : nat) : list console_entry :=
  match l with
  | [] => []
  | v :: t =>
      (if bad v then [mk i] else []) ++ warnings_from bad mk t (S i)
  end.

(** What the cap writes for an array of [n] insights. *)
Definition cap_entry (n : nat) : console_entry :=
  let len := Some (VNum (of_Z (Z.of_nat n))) in
  if (n =? 0)%nat then WarnNoInsights
  else if (10 <? n)%nat then LogTruncated len
  else LogCount len.

Definition logged (w : world) (entries : list console_entry) : world :=
  {| console := console w ++ entries; sent := sent w |}.

(** A computation that sends no request. *)
Definition silent {A} (c : M A) : Prop := forall w, sent (fst (c w)) = sent w.

(** ** The two phases as operations *)

(** A call of one of the two exported operations. *)
Inductive operation : Type :=
| DeepAnalyze (articles : list article)
| GenerateInsights (summaries : list value) (st : stats).

Definition run_operation (e : env) (op : operation) : M value :=
  match op with
  | DeepAnalyze articles => deepAnalyzeArticles e articles
  | GenerateInsights summaries st => generateSmartTopicInsights e summaries st
  end.

(** The call of the Completion Client the operation makes. *)
Definition completion (e : env) (op : operation) : M value :=
  match op with
  | DeepAnalyze articles =>
      callOpenAI e (deepAnalysis_messages articles) (of_decimal 3 (- 1))
  | GenerateInsights summaries st =>
      callOpenAI e (insights_messages summaries st) (of_decimal 4 (- 1))
  end.

Definition has_input (op : operation) : Prop :=
  match op with
  | DeepAnalyze articles => articles <> []
  | GenerateInsights summaries _ => summaries <> []
  end.

Definition without_input (op : operation) : operation :=
  match op with
  | DeepAnalyze _ => DeepAnalyze []
  | GenerateInsights _ st => GenerateInsights [] st
  end.

(** The top-level key the operation reads from the parsed response. *)
Definition expected_key (op : operation) : jsstring :=
  match op with
  | DeepAnalyze _ => lit "summaries"
  | GenerateInsights _ _ => lit "insights"
  end.

(** The error the [catch] block throws, and what it writes before. *)
Definition failure (op : operation) : exn :=
  match op with
  | DeepAnalyze _ => DeepAnalysisFailed
  | GenerateInsights _ _ => InsightGenerationFailed
  end.

Definition failure_entry (op : operation) (response : value) : console_entry :=
  match op with
  | DeepAnalyze _ => ErrorParseFailed response
  | GenerateInsights _ _ => ErrorInsightsFailed response
  end.

(** What the operation writes when it finds no record. *)
Definition nothing_found (op : operation) : list console_entry :=
  match op with
  | DeepAnalyze _ => []
  | GenerateInsights _ _ => [WarnNoInsights]
  end.

Definition respond (op : operation) : value -> M value :=
  match op with
  | DeepAnalyze _ => deepAnalyze_response
  | GenerateInsights _ _ => generateInsights_response
  end.

(** ** Keywords and their counts *)

(** How often [w] occurs in [ks]. *)
Fixpoint occurrences (w : jsstring) (ks : list jsstring) : Z :=
  match ks with
  | [] => 0
  | k :: t => (if JsString.eqb k w then 1 else 0) + occurrences w t
  end.

(** The distinct words of [ks], each where it is seen first. *)
Fixpoint distinct (ks : list jsstring) : list jsstring :=
  match ks with
  | [] => []
  | k :: t => k :: filter (fun x => negb (JsString.eqb x k)) (distinct t)
  end.

(** A word that names no member of [Object.prototype]. *)
Definition ordinary (w : jsstring) : Prop :=
  inherited w = false /\ JsString.eqb w (lit "__proto__") = false.


(** The words of [ks] with their counts, as first seen. *)
Definition tallied (ks : list jsstring) : list (jsstring * tally) :=
  map (fun w => (w, Count (occurrences w ks))) (distinct ks).


(* ================================================================== *)
(** * Sample inputs *)
(* ================================================================== *)

(** A world in which nothing was written or sent yet. *)
Definition quiet : world := {| console := []; sent := [] |}.

(** An environment whose endpoint answers every request with status 200
    and the given body. *)
Definition answering (body_text : jsstring) : env :=
  {| OPENAI_API_KEY := lit "sk-test";
     OPENAI_API_BASE := lit "https://api.openai.com/v1";
     OPENAI_MODEL := lit "gpt-4o";
     fetch := fun _ => Some {| ok := true; statusText := lit "OK"; body := body_text |} |}.

Definition one_article : article :=
  {| title := lit "title"; content := None; likes := of_Z 3; reads := of_Z 2000;
     url := lit "https://example.org/a" |}.

Definition article_with (l r : Z) : article :=
  {| title := lit "title"; content := None; likes := of_Z l; reads := of_Z r;
     url := lit "https://example.org/a" |}.

Definition no_stats : stats :=
  {| totalArticles := of_Z 1; avgReads := of_Z 2000; avgLikes := of_Z 3;
     avgEngagement := lit "0.1%" |}.

(** The summary whose only content is its keywords. *)
Definition summary_with (ks : list jsstring) : ArticleSummary :=
  {| index := 1; keyPoints := []; keywords := Some ks; highlights := [];
     engagementAnalysis := []; targetAudience := []; scenario := [];
     painPoint := []; contentAngle := []; emotionType := []; writingStyle := [] |}.

(** The record [{"confidence": c}]. *)
Definition scored (c : Z) : value := VObj [(lit "confidence", VNum (of_Z c))].

(** A response with eleven insights, the most confident emitted last. *)
Definition eleven_text : jsstring :=
  quoted "{'insights':[{'confidence':70},{'confidence':71},{'confidence':72},{'confidence':73},{'confidence':74},{'confidence':75},{'confidence':76},{'confidence':77},{'confidence':78},{'confidence':79},{'confidence':95}]}".

Definition eleven : list value :=
  map scored [70; 71; 72; 73; 74; 75; 76; 77; 78; 79; 95].

(** A response with three insights, two of them tied. *)
Definition tied_text : jsstring :=
  quoted "```json
{'insights':[{'confidence':80,'title':'first'},{'confidence':90},{'confidence':80,'title':'second'}]}
```".

Definition tied : list value :=
  [ VObj [(lit "confidence", VNum (of_Z 80)); (lit "title", VStr (lit "first"))];
    scored 90;
    VObj [(lit "confidence", VNum (of_Z 80)); (lit "title", VStr (lit "second"))] ].

(** An endpoint whose model answers [null], and one whose model answers
    with prose. *)
Definition null_body : jsstring :=
  quoted "{'choices':[{'message':{'role':'assistant','content':'null'}}]}".

Definition prose_body : jsstring :=
  quoted "{'choices':[{'message':{'role':'assistant','content':'not json'}}]}".

Definition array_body : jsstring :=
  quoted "{'choices':[{'message':{'role':'assistant','content':'[1, 2]'}}]}".

(** A response with three summaries: one complete, one without
    [targetAudience], one that is not an object. *)
Definition summaries_body : jsstring :=
  quoted "{'choices':[{'message':{'content':'{\'summaries\':[{\'targetAudience\':\'a\',\'scenario\':\'s\',\'painPoint\':\'p\'},{\'scenario\':\'s\',\'painPoint\':\'p\'},7]}'}}]}".

Definition summaries_text : jsstring :=
  quoted "{'summaries':[{'targetAudience':'a','scenario':'s','painPoint':'p'},{'scenario':'s','painPoint':'p'},7]}".

(** An answer whose second summary is [null]. *)
Definition lost_body : jsstring :=
  quoted "{'choices':[{'message':{'content':'{\'summaries\':[{\'scenario\':\'s\',\'painPoint\':\'p\'},null]}'}}]}".

Definition lost_text : jsstring :=
  quoted "{'summaries':[{'scenario':'s','painPoint':'p'},null]}".

Definition three_summaries : list value :=
  [ VObj [ (lit "targetAudience", VStr (lit "a")); (lit "scenario", VStr (lit "s"));
           (lit "painPoint", VStr (lit "p")) ];
    VObj [ (lit "scenario", VStr (lit "s")); (lit "painPoint", VStr (lit "p")) ];
    VNum (of_Z 7) ].

(** A response whose one insight has the three keyword fields, the
    first of them empty. *)
Definition empty_scene_text : jsstring :=
  quoted "{'insights':[{'confidence':85,'keywords':{'scene':'','audience':'a','need':'n'}}]}".

Definition empty_scene : value :=
  VObj [ (lit "confidence", VNum (of_Z 85));
         (lit "keywords", VObj [ (lit "scene", VStr []);
                                 (lit "audience", VStr (lit "a"));
                                 (lit "need", VStr (lit "n")) ]) ].

(** A response whose one insight follows the schema of the prompt. *)
Definition documented_text : jsstring :=
  quoted "{'insights':[{'title':'t','confidence':85,'decisionStage':{'stage':'s','reason':'r'},'audienceScene':{'audience':'a','scene':'s','reason':'r'},'demandPainPoint':{'emotionalPain':'e','realisticPain':'p','expectation':'x','reason':'r'}}]}".

(* ================================================================== *)
(** * Further vocabulary and samples *)
(* ================================================================== *)

(** A computation that writes nothing to the console. *)
Definition mute {A} (c : M A) : Prop := forall w, console (fst (c w)) = console w.

(** The messages and the temperature an operation calls the client
    with. *)
Definition messages_of (op : operation) : list message :=
  match op with
  | DeepAnalyze articles => deepAnalysis_messages articles
  | GenerateInsights summaries st => insights_messages summaries st
  end.

Definition temperature_of (op : operation) : number :=
  match op with
  | DeepAnalyze _ => of_decimal 3 (- 1)
  | GenerateInsights _ _ => of_decimal 4 (- 1)
  end.

(** An environment without a credential, one whose endpoint cannot be
    reached, and one whose endpoint answers every request with a status
    other than 2xx. *)
Definition keyless : env :=
  {| OPENAI_API_KEY := [];
     OPENAI_API_BASE := lit "https://api.openai.com/v1";
     OPENAI_MODEL := lit "gpt-4o";
     fetch := fun _ => Some {| ok := true; statusText := lit "OK"; body := prose_body |} |}.

Definition unreachable : env :=
  {| OPENAI_API_KEY := lit "sk-test";
     OPENAI_API_BASE := lit "https://api.openai.com/v1";
     OPENAI_MODEL := lit "gpt-4o";
     fetch := fun _ => None |}.

Definition refusing (status body_text : jsstring) : env :=
  {| OPENAI_API_KEY := lit "sk-test";
     OPENAI_API_BASE := lit "https://api.openai.com/v1";
     OPENAI_MODEL := lit "gpt-4o";
     fetch := fun _ => Some {| ok := false; statusText := status; body := body_text |} |}.

(** The body of a refusal, behind a byte order mark. *)
Definition marked_refusal : jsstring :=
  65279%N :: quoted "{'error':{'message':'slow down'}}".

(** A success body with two choices. *)
Definition two_choices_body : jsstring :=
  quoted "{'choices':[{'message':{'content':'one'}},{'message':{'content':'two'}}]}".

(** A success body without choices, the answer of a model that wraps
    its records in an object, and the answers with a [null] record. *)
Definition no_choices_body : jsstring := quoted "{'choices':[]}".


Definition null_record_text : jsstring :=
  quoted "{'summaries':[{'scenario':'s'},null,{}],'insights':[{'scenario':'s'},null,{}]}".

(** Twelve insights, the eleventh with a confidence that cannot be
    converted and the twelfth [null], and three insights that are graded
    in words. *)
Definition twelve_text : jsstring :=
  quoted "{'insights':[{'confidence':70},{'confidence':71},{'confidence':72},{'confidence':73},{'confidence':74},{'confidence':75},{'confidence':76},{'confidence':77},{'confidence':78},{'confidence':79},{'confidence':{'toString':0}},null]}".

Definition graded (grade : jsstring) : value := VObj [(lit "confidence", VStr grade)].

Definition graded_text : jsstring :=
  quoted "{'insights':[{'confidence':'low'},{'confidence':'high'},{'confidence':'medium'}]}".

(** ** Texts around a fence *)

(** White space only; no white space at either end; no backtick. *)
Definition blank (s : jsstring) : bool := forallb is_space s.

Definition tight (s : jsstring) : bool :=
  match s with
  | [] => true
  | c :: _ => negb (is_space c) && negb (is_space (last s c))
  end.

Definition unticked (s : jsstring) : bool := forallb (fun c => negb (c =? 96)%N) s.

(** ** Keywords in general *)

(** The words that become own properties of [wordCount]: every keyword
    but [__proto__], as first seen. *)
Definition own_words (ks : list jsstring) : list jsstring :=
  distinct (filter (fun w => negb (JsString.eqb w (lit "__proto__"))) ks).

(** What the property of [w] holds after all of [ks] were counted. *)
Definition tally_of (ks : list jsstring) (w : jsstring) : tally :=
  if inherited w then NotANumber else Count (occurrences w ks).

(** One more occurrence. *)
Definition bump (c : tally) : tally :=
  match c with
  | Count n => Count (n + 1)
  | NotANumber => NotANumber
  end.


(** Keywords among which two name members of [Object.prototype]. *)
Definition odd_keywords : list jsstring :=
  [lit "AI"; lit "__proto__"; lit "toString"; lit "AI"; lit "toString"].

(** ** The page *)

(** An article whose likes, when present, are not infinite. *)
Definition finite_praise (a : Page.WeChat.Article) : Prop :=
  match Page.WeChat.praise a with
  | Some (Infinity _) => False
  | _ => True
  end.

(** A count that is the integer [n], or is missing and reads as [0]. *)
Definition counts_as (x : option number) (n : Z) : Prop :=
  0 <= n /\ match x with
            | Some y => y = of_Z n
            | None => n = 0
            end.

Definition sum_Z (l : list Z) : Z := fold_right Z.add 0 l.

Definition post (t : string) (likes reads : option Z) : Page.WeChat.Article :=
  {| Page.WeChat.title := lit t;
     Page.WeChat.praise := option_map of_Z likes;
     Page.WeChat.read := option_map of_Z reads;
     Page.WeChat.url := None;
     Page.WeChat.short_link := Some (lit "https://mp.weixin.qq.com/s/x") |}.

Definition posts : list Page.WeChat.Article :=
  [ post "a" (Some 5) (Some 100); post "b" (Some 50) (Some 200);
    post "c" None (Some 10); post "d" (Some 5) None;
    post "e" (Some 7) (Some 0); post "f" (Some 50) (Some 3) ].

(** A computation that only adds entries to the console. *)
Definition appending {A} (c : M A) : Prop :=
  forall w, exists entries, fst (c w) = logged w entries.

(** An endpoint whose model answers with the eleven insights. *)
Definition eleven_body : jsstring :=
  quoted "{'choices':[{'message':{'content':'{\'insights\':[{\'confidence\':70},{\'confidence\':71},{\'confidence\':72},{\'confidence\':73},{\'confidence\':74},{\'confidence\':75},{\'confidence\':76},{\'confidence\':77},{\'confidence\':78},{\'confidence\':79},{\'confidence\':95}]}'}}]}".

(** The number a tally holds, if any. *)
Definition count_value (c : tally) : Z :=
  match c with
  | Count n => n
  | NotANumber => 0
  end.

(* ================================================================== *)
(** * Facts about [sort] *)
(* ================================================================== *)

Section SortFacts.
Context {A : Type} (cmp : A -> A -> option comparison).

Let R (a b : A) : Prop := before cmp a b = true.

Lemma insert_perm (a : A) (l : list A) : Permutation (insert cmp a l) (a :: l).
Proof.
  induction l as [|b t IH]; simpl.
  - apply Permutation_refl.
  - destruct (before cmp a b).
    + apply Permutation_refl.
    + apply perm_trans with (b :: a :: t).
      * apply perm_skip, IH.
      * apply perm_swap.
Qed.

Lemma sort_perm (l : list A) : Permutation (sort cmp l) l.
Proof.
  induction l as [|a t IH]; simpl.
  - apply perm_nil.
  - apply perm_trans with (a :: sort cmp t).
    + apply insert_perm.
    + apply perm_skip, IH.
Qed.

Lemma sort_length (l : list A) : length (sort cmp l) = length l.
Proof. apply Permutation_length, sort_perm. Qed.

Section Ordered.
Variable good : A -> Prop.
Hypothesis total : forall a b, good a -> good b -> R a b \/ R b a.
Hypothesis trans : forall a b c, good a -> good b -> good c -> R a b -> R b c -> R a c.

Lemma insert_sorted (a : A) (l : list A) :
  good a -> Forall good l -> StronglySorted R l -> StronglySorted R (insert cmp a l).
Proof.
  intros Ha Hl Hs. induction Hs as [|b t Hs IH Hb]; simpl.
  - constructor; constructor.
  - inversion Hl as [|? ? Hgb Hgt]; subst.
    destruct (before cmp a b) eqn:E.
    + constructor.
      * constructor; assumption.
      * constructor; [exact E|].
        rewrite Forall_forall in *. intros x Hx.
        apply trans with b; auto.
    + constructor.
      * apply IH; assumption.
      * rewrite Forall_forall in *. intros x Hx.
        apply (Permutation_in _ (insert_perm a t)) in Hx.
        destruct Hx as [<-|Hx]; [|auto].
        destruct (total a b Ha Hgb) as [H|H]; [|exact H].
        unfold R in H. congruence.
Qed.

Lemma sort_sorted (l : list A) : Forall good l -> StronglySorted R (sort cmp l).
Proof.
  induction l as [|a t IH]; simpl; intros Hl.
  - constructor.
  - inversion Hl; subst. apply insert_sorted; auto.
    rewrite Forall_forall in *. intros x Hx.
    apply (Permutation_in _ (sort_perm t)) in Hx. auto.
Qed.

End Ordered.

(** Stability: a class of elements the comparator does not tell apart
    keeps its order. *)
Section Stable.
Variable p : A -> bool.
Hypothesis tied : forall x y, p x = true -> p y = true -> R x y.

Lemma insert_filter (a : A) (l : list A) :
  filter p (insert cmp a l) = filter p (a :: l).
Proof.
  induction l as [|b t IH]; simpl; [reflexivity|].
  destruct (before cmp a b) eqn:E; simpl; [reflexivity|].
  rewrite IH. simpl.
  destruct (p a) eqn:Pa, (p b) eqn:Pb; try reflexivity.
  pose proof (tied a b Pa Pb) as H. unfold R in H. congruence.
Qed.

Lemma sort_filter (l : list A) : filter p (sort cmp l) = filter p l.
Proof.
  induction l as [|a t IH]; simpl; [reflexivity|].
  rewrite insert_filter. simpl. rewrite IH. reflexivity.
Qed.

End Stable.

End SortFacts.

(** Two elements that survive a filter in some order stand in that
    order in the list. *)
Lemma occurs_before_filter {A} (p : A -> bool) (a b : A) (l : list A) :
  occurs_before a b (filter p l) -> occurs_before a b l.
Proof.
  unfold occurs_before. revert a b.
  induction l as [|x t IH]; intros a b (l1 & l2 & l3 & H); simpl in H.
  - destruct l1; discriminate.
  - destruct (p x) eqn:Px.
    + destruct l1 as [|y l1]; simpl in H.
      * injection H as <- H.
        assert (In b (filter p t)) as Hb
          by (rewrite H; apply in_or_app; right; left; reflexivity).
        apply filter_In in Hb. destruct Hb as [Hb _].
        apply in_split in Hb. destruct Hb as (m1 & m2 & ->).
        exists [], m1, m2. reflexivity.
      * injection H as <- H.
        destruct (IH a b) as (m1 & m2 & m3 & ->).
        { exists l1, l2, l3. exact H. }
        exists (x :: m1), m2, m3. reflexivity.
    + destruct (IH a b) as (m1 & m2 & m3 & ->).
      { exists l1, l2, l3. exact H. }
      exists (x :: m1), m2, m3. reflexivity.
Qed.

Lemma occurs_before_in_filter {A} (p : A -> bool) (a b : A) (l : list A) :
  p a = true -> p b = true -> occurs_before a b l -> occurs_before a b (filter p l).
Proof.
  intros Pa Pb (l1 & l2 & l3 & ->).
  exists (filter p l1), (filter p l2), (filter p l3).
  rewrite filter_app. simpl. rewrite Pa, filter_app. simpl. rewrite Pb.
  reflexivity.
Qed.

Lemma occurs_before_firstn {A} (a b : A) (n : nat) (l : list A) :
  occurs_before a b (firstn n l) -> occurs_before a b l.
Proof.
  intros (l1 & l2 & l3 & H).
  exists l1, l2, (l3 ++ skipn n l).
  rewrite <- (firstn_skipn n l) at 1. rewrite H.
  repeat (rewrite <- app_assoc; simpl). reflexivity.
Qed.

Lemma sorted_occurs_before {A} (R : A -> A -> Prop) (a b : A) (l : list A) :
  StronglySorted R l -> occurs_before a b l -> R a b.
Proof.
  intros Hs (l1 & l2 & l3 & ->).
  induction l1 as [|c l1 IH]; simpl in Hs; inversion Hs as [|? ? Ht Hf]; subst.
  - rewrite Forall_forall in Hf. apply Hf. apply in_or_app. right. left. reflexivity.
  - apply IH. exact Ht.
Qed.

(* ================================================================== *)
(** * Facts about [sort_by] *)
(* ================================================================== *)

Section SortByFacts.
Context {A : Type} (cmp : A -> A -> result (option comparison)).

Lemma insert_by_perm (a : A) (l r : list A) :
  insert_by cmp a l = Ok r -> Permutation r (a :: l).
Proof.
  revert r. induction l as [|b t IH]; intros r H; simpl in H.
  - injection H as <-. apply Permutation_refl.
  - destruct (cmp a b) as [[[]|]|x]; try discriminate H;
      try (injection H as <-; apply Permutation_refl).
    destruct (insert_by cmp a t) as [r'|x]; [|discriminate H].
    injection H as <-.
    apply perm_trans with (b :: a :: t); [apply perm_skip, IH; reflexivity|apply perm_swap].
Qed.

Lemma sort_by_perm (l s : list A) : sort_by cmp l = Ok s -> Permutation s l.
Proof.
  revert s. induction l as [|a t IH]; intros s H; simpl in H.
  - injection H as <-. apply perm_nil.
  - destruct (sort_by cmp t) as [s'|x]; [|discriminate H].
    apply perm_trans with (a :: s'); [apply insert_by_perm, H|apply perm_skip, IH; reflexivity].
Qed.

(** Where the comparator does not fault, [sort_by] is [sort]. *)
Section Pure.
Variable pure : A -> A -> option comparison.

Lemma insert_by_pure (a : A) (l : list A) :
  (forall b, In b l -> cmp a b = Ok (pure a b)) ->
  insert_by cmp a l = Ok (insert pure a l).
Proof.
  induction l as [|b t IH]; intros H; [reflexivity|].
  simpl. rewrite (H b) by (left; reflexivity). unfold before.
  destruct (pure a b) as [[]|]; try reflexivity.
  rewrite IH by (intros c Hc; apply H; right; exact Hc). reflexivity.
Qed.

Lemma sort_by_pure (l : list A) :
  (forall a b, In a l -> In b l -> cmp a b = Ok (pure a b)) ->
  sort_by cmp l = Ok (sort pure l).
Proof.
  induction l as [|a t IH]; intros H; [reflexivity|].
  simpl. rewrite IH by (intros x y Hx Hy; apply H; right; assumption).
  apply insert_by_pure. intros b Hb. apply H; [left; reflexivity|].
  right. apply (Permutation_in _ (sort_perm pure t)). exact Hb.
Qed.

End Pure.

End SortByFacts.

(** A list sorted twice over by comparators that agree on it. *)
Lemma sort_agree {A} (c1 c2 : A -> A -> option comparison) (l : list A) :
  (forall a b, In a l -> In b l -> c1 a b = c2 a b) -> sort c1 l = sort c2 l.
Proof.
  induction l as [|a t IH]; intros H; [reflexivity|].
  simpl. rewrite <- IH by (intros x y Hx Hy; apply H; right; assumption).
  assert (forall s, (forall b, In b s -> In b t) -> insert c1 a s = insert c2 a s) as G.
  { induction s as [|b u IHu]; intros Hs; [reflexivity|].
    simpl. unfold before. rewrite (H a b) by (try (left; reflexivity); right; apply Hs; left; reflexivity).
    rewrite IHu by (intros c Hc; apply Hs; right; exact Hc). reflexivity. }
  apply G. intros b Hb. apply (Permutation_in _ (sort_perm c1 t)). exact Hb.
Qed.

(* ================================================================== *)
(** * Facts about numbers and the confidence comparator *)
(* ================================================================== *)

Lemma Qcompare_inject_Z (a b : Z) : Qcompare (inject_Z a) (inject_Z b) = Z.compare a b.
Proof. unfold Qcompare, inject_Z. simpl. rewrite !Z.mul_1_r. reflexivity. Qed.

Lemma sub_sign_num_le (x y : number) :
  x <> NaN -> y <> NaN ->
  (match sub_sign x y with Some Gt => false | _ => true end = true <-> num_le x y).
Proof.
  intros Hx Hy.
  destruct x as [p|s|], y as [q|t|]; try congruence; simpl.
  - rewrite Qle_alt. destruct (p ?= q)%Q; split; congruence.
  - destruct t; split; intros H; try easy.
  - destruct s; split; intros H; try easy.
  - destruct s, t; simpl; split; intros H; try easy.
Qed.

Lemma num_le_total (x y : number) : x <> NaN -> y <> NaN -> num_le x y \/ num_le y x.
Proof.
  intros Hx Hy.
  destruct x as [p|s|], y as [q|t|]; try congruence; simpl.
  - destruct (Qlt_le_dec p q) as [H|H]; [left; apply Qlt_le_weak, H | right; exact H].
  - destruct t; auto.
  - destruct s; auto.
  - destruct s, t; auto.
Qed.

Lemma num_le_trans (x y z : number) : num_le x y -> num_le y z -> num_le x z.
Proof.
  destruct x as [p|[]|], y as [q|[]|], z as [r|[]|]; simpl; try easy.
  apply Qle_trans.
Qed.

Lemma before_confidence (a b : value) :
  is_insight a -> is_insight b ->
  (before by_confidence a b = true <-> num_le (confidence b) (confidence a)).
Proof.
  intros [_ Ha] [_ Hb]. unfold before, by_confidence.
  apply sub_sign_num_le; assumption.
Qed.

Lemma num_eqb_tied (x y : number) :
  num_eqb x y = true -> match sub_sign y x with Some Gt => false | _ => true end = true.
Proof.
  destruct x as [p|s|], y as [q|t|]; simpl; try discriminate.
  - intros H. apply Qeq_bool_iff in H.
    assert ((q ?= p)%Q = Eq) as -> by (apply Qeq_alt; symmetry; exact H).
    reflexivity.
  - intros H. apply Bool.eqb_prop in H. subst t.
    rewrite Bool.eqb_reflx. reflexivity.
Qed.

(* ================================================================== *)
(** * Facts about the two response handlers *)
(* ================================================================== *)

#[local] Arguments firstn : simpl never.

Lemma logged_nil (w : world) : logged w [] = w.
Proof. destruct w. unfold logged. simpl. rewrite app_nil_r. reflexivity. Qed.

Lemma logged_app (w : world) (a b : list console_entry) :
  logged (logged w a) b = logged w (a ++ b).
Proof. unfold logged. simpl. rewrite app_assoc. reflexivity. Qed.

Lemma write_logged (entry : console_entry) (w : world) :
  write entry w = (logged w [entry], Ok tt).
Proof. reflexivity. Qed.

Lemma getprop_field (v : value) (k : jsstring) :
  v <> VNull -> getprop v k = Ok (field v k).
Proof. destruct v; simpl; congruence. Qed.

Lemma insight_converts (v : value) :
  is_insight v -> confidence_of v = Ok (confidence v).
Proof.
  intros [_ H]. unfold confidence in *.
  destruct (confidence_of v) as [x|e]; [reflexivity|congruence].
Qed.

Lemma rated_converts (v : value) (x : number) :
  rating v = Some x -> confidence_of v = Ok x /\ confidence v = x /\ v <> VNull.
Proof.
  unfold rating, confidence, confidence_of. intros H.
  assert (v <> VNull) as Hv by (intros ->; discriminate H).
  rewrite (getprop_field v _ Hv).
  destruct (field v (lit "confidence")) as [[]|]; try discriminate H.
  injection H as ->. repeat split. exact Hv.
Qed.

Lemma compare_confidence_pure (a b : value) (x y : number) :
  confidence_of a = Ok x -> confidence_of b = Ok y ->
  compare_confidence a b = Ok (by_confidence a b).
Proof.
  intros Ha Hb. unfold compare_confidence, by_confidence, confidence.
  rewrite Ha, Hb. reflexivity.
Qed.

Lemma check_insight_run (v : value) (i : nat) (w : world) :
  v <> VNull ->
  check_insight v i w =
    (logged w (if keywords_incomplete v then [WarnInsightKeywords i] else []), Ok tt).
Proof.
  intros Hv. unfold check_insight, bind, lift.
  rewrite (getprop_field v _ Hv). unfold keywords_incomplete.
  destruct (_ || _ || _); [reflexivity|].
  rewrite logged_nil. reflexivity.
Qed.

Lemma check_summary_run (v : value) (i : nat) (w : world) :
  v <> VNull ->
  check_summary v i w =
    (logged w (if summary_incomplete v then [WarnSummaryFields i] else []), Ok tt).
Proof.
  intros Hv. unfold check_summary, bind, lift.
  rewrite !(getprop_field v _ Hv). unfold summary_incomplete.
  destruct (_ || _ || _); [reflexivity|].
  rewrite logged_nil. reflexivity.
Qed.

Lemma forEach_from_run (f : value -> nat -> M unit) (bad : value -> bool)
      (mk : nat -> console_entry) :
  (forall v i w, v <> VNull ->
                 f v i w = (logged w (if bad v then [mk i] else []), Ok tt)) ->
  forall l i w, Forall (fun v => v <> VNull) l ->
    forEach_from f l i w = (logged w (warnings_from bad mk l i), Ok tt).
Proof.
  intros Hf l. induction l as [|v t IH]; intros i w Hl; simpl.
  - unfold ret. rewrite logged_nil. reflexivity.
  - inversion Hl; subst. unfold bind.
    rewrite Hf by assumption. rewrite IH by assumption.
    rewrite logged_app. reflexivity.
Qed.

Lemma is_zero_of_Z (z : Z) : is_zero (of_Z z) = (z =? 0).
Proof.
  unfold is_zero, of_Z. change 0%Q with (inject_Z 0).
  destruct (z =? 0) eqn:E.
  - apply Z.eqb_eq in E. subst z. reflexivity.
  - apply not_true_is_false. intros H. apply Qeq_bool_iff in H.
    apply Z.eqb_neq in E. apply E. unfold Qeq in H. simpl in H. lia.
Qed.

Lemma gt_of_Z (a b : Z) : gt (of_Z a) (of_Z b) = (b <? a).
Proof.
  unfold gt, sub_sign, of_Z. rewrite Qcompare_inject_Z.
  rewrite Z.ltb_antisym, Z.leb_compare.
  destruct (a ?= b); reflexivity.
Qed.

Lemma cap_array (l : list value) (w : world) :
  cap (VArr l) w = (logged w [cap_entry (length l)], Ok (VArr (firstn 10 l))).
Proof.
  unfold cap, cap_entry.
  change (get_length (VArr l)) with (Some (VNum (of_Z (Z.of_nat (length l))))).
  change (is_number_zero (Some (VNum ?x))) with (is_zero x).
  change (ToNumber (Some (VNum ?x))) with (Ok (A := number) x).
  rewrite is_zero_of_Z.
  destruct (length l) as [|n] eqn:E.
  - apply length_zero_iff_nil in E. subst l. reflexivity.
  - change (S n =? 0)%nat with false.
    assert ((Z.of_nat (S n) =? 0) = false) as -> by (apply Z.eqb_neq; lia).
    unfold bind at 1. unfold lift. cbv beta iota. rewrite gt_of_Z.
    destruct (10 <? S n)%nat eqn:L.
    + apply Nat.ltb_lt in L.
      assert ((10 <? Z.of_nat (S n)) = true) as -> by (apply Z.ltb_lt; lia).
      reflexivity.
    + apply Nat.ltb_ge in L.
      assert ((10 <? Z.of_nat (S n)) = false) as -> by (apply Z.ltb_ge; lia).
      rewrite firstn_all2 by lia. reflexivity.
Qed.

Lemma Forall_firstn {A} (P : A -> Prop) (n : nat) (l : list A) :
  Forall P l -> Forall P (firstn n l).
Proof.
  intros H. rewrite Forall_forall in *. intros x Hx.
  apply H. rewrite <- (firstn_skipn n l). apply in_or_app. left. exact Hx.
Qed.

(** The sort of records whose confidence converts. *)
Lemma call_sort_run (l : list value) (w : world) :
  Forall (fun v => exists x, confidence_of v = Ok x) l ->
  call_sort (VArr l) w = (w, Ok (VArr (sort by_confidence l))).
Proof.
  intros Hl. unfold call_sort, bind, lift.
  rewrite (sort_by_pure compare_confidence by_confidence); [reflexivity|].
  intros a b Ha Hb. rewrite Forall_forall in Hl.
  destruct (Hl a Ha) as (x & Hx). destruct (Hl b Hb) as (y & Hy).
  apply compare_confidence_pure with x y; assumption.
Qed.

(** What phase 2 does with a response that holds an array of records,
    up to the sort. *)
Lemma insights_array_checked (r : jsstring) (w : world) (parsed : value) (l : list value) :
  parse (strip_fence (trim r)) = Some parsed ->
  getprop parsed (lit "insights") = Ok (Some (VArr l)) ->
  Forall (fun v => v <> VNull) (firstn 10 l) ->
  generateInsights_try (VStr r) w =
    call_sort (VArr (firstn 10 l))
      (logged w (cap_entry (length l)
                 :: warnings_from keywords_incomplete WarnInsightKeywords (firstn 10 l) 0)).
Proof.
  intros Hp Hg Hl.
  unfold generateInsights_try, bind.
  simpl call_trim. unfold ret at 1. unfold parse_json. rewrite Hp.
  unfold ret at 1. unfold lift. rewrite Hg. simpl or_else.
  rewrite cap_array. simpl forEach.
  rewrite (forEach_from_run check_insight keywords_incomplete WarnInsightKeywords
             check_insight_run) by exact Hl.
  rewrite logged_app. reflexivity.
Qed.

(** What phase 2 does with a response that holds an array of records
    whose confidence converts. *)
Lemma insights_array_run (r : jsstring) (w : world) (parsed : value) (l : list value) :
  parse (strip_fence (trim r)) = Some parsed ->
  getprop parsed (lit "insights") = Ok (Some (VArr l)) ->
  Forall (fun v => v <> VNull) (firstn 10 l) ->
  Forall (fun v => exists x, confidence_of v = Ok x) (firstn 10 l) ->
  generateInsights_response (VStr r) w =
    (logged w (cap_entry (length l)
               :: warnings_from keywords_incomplete WarnInsightKeywords (firstn 10 l) 0),
     Ok (VArr (sort by_confidence (firstn 10 l)))).
Proof.
  intros Hp Hg Hl Hc.
  unfold generateInsights_response, try_catch.
  rewrite (insights_array_checked r w parsed l Hp Hg Hl).
  rewrite (call_sort_run _ _ Hc). reflexivity.
Qed.

(** The sort writes nothing; when it faults the [catch] block adds its
    entry to what the validation wrote. *)
Lemma call_sort_world (v : value) (w : world) : fst (call_sort v w) = w.
Proof.
  unfold call_sort, bind, lift. destruct v; try reflexivity.
  destruct (sort_by compare_confidence elems); reflexivity.
Qed.

Lemma insights_array_console (r : jsstring) (w : world) (parsed : value) (l : list value) :
  parse (strip_fence (trim r)) = Some parsed ->
  getprop parsed (lit "insights") = Ok (Some (VArr l)) ->
  Forall (fun v => v <> VNull) (firstn 10 l) ->
  exists tail,
    fst (generateInsights_response (VStr r) w)
    = logged w (cap_entry (length l)
                :: warnings_from keywords_incomplete WarnInsightKeywords (firstn 10 l) 0
                ++ tail)
    /\ (tail = [] \/ tail = [ErrorInsightsFailed (VStr r)]).
Proof.
  intros Hp Hg Hl.
  unfold generateInsights_response, try_catch.
  rewrite (insights_array_checked r w parsed l Hp Hg Hl).
  set (w1 := logged w _).
  pose proof (call_sort_world (VArr (firstn 10 l)) w1) as Hw.
  destruct (call_sort (VArr (firstn 10 l)) w1) as [w2 [out|x]]; cbn [fst] in *; subst w2.
  - exists []. split; [|left; reflexivity]. rewrite app_nil_r. reflexivity.
  - exists [ErrorInsightsFailed (VStr r)]. split; [|right; reflexivity].
    unfold bind. rewrite write_logged. cbn [fst]. unfold w1.
    rewrite logged_app. reflexivity.
Qed.

Lemma insights_convert (l : list value) :
  Forall is_insight l ->
  Forall (fun v => v <> VNull) l /\ Forall (fun v => exists x, confidence_of v = Ok x) l.
Proof.
  intros H. split; (eapply Forall_impl; [|exact H]); intros v Hv.
  - apply Hv.
  - exists (confidence v). apply insight_converts, Hv.
Qed.

(** What phase 1 does with a response that holds an array of records. *)
Lemma summaries_array_run (r : jsstring) (w : world) (parsed : value) (l : list value) :
  parse (strip_fence (trim r)) = Some parsed ->
  getprop parsed (lit "summaries") = Ok (Some (VArr l)) ->
  Forall (fun v => v <> VNull) l ->
  deepAnalyze_response (VStr r) w =
    (logged w (warnings_from summary_incomplete WarnSummaryFields l 0), Ok (VArr l)).
Proof.
  intros Hp Hg Hl.
  unfold deepAnalyze_response, try_catch, deepAnalyze_try, bind.
  simpl call_trim. unfold ret at 1. unfold parse_json. rewrite Hp.
  unfold ret at 1. unfold lift. rewrite Hg. simpl or_else. simpl forEach.
  rewrite (forEach_from_run check_summary summary_incomplete WarnSummaryFields
             check_summary_run) by exact Hl.
  reflexivity.
Qed.

(* ================================================================== *)
(** * The Insight Ranker and Capper *)
(* ================================================================== *)

Lemma descending_sorted (l : list value) :
  Forall is_insight l ->
  StronglySorted (fun a b => num_le (confidence b) (confidence a)) (sort by_confidence l).
Proof.
  intros Hl.
  assert (Forall is_insight (sort by_confidence l)) as Hs.
  { rewrite Forall_forall in *. intros x Hx.
    apply Hl. apply (Permutation_in _ (sort_perm by_confidence l)). exact Hx. }
  pose proof (sort_sorted by_confidence is_insight) as S.
  assert (StronglySorted (fun a b => before by_confidence a b = true)
                         (sort by_confidence l)) as H.
  { apply S; [| |exact Hl].
    - intros a b Ha Hb.
      destruct (num_le_total (confidence b) (confidence a)) as [H|H];
        [apply Hb|apply Ha|left|right]; apply before_confidence; assumption.
    - intros a b c Ha Hb Hc Hab Hbc.
      apply before_confidence in Hab; try assumption.
      apply before_confidence in Hbc; try assumption.
      apply before_confidence; try assumption.
      apply num_le_trans with (confidence b); assumption. }
  clear S. induction H as [|a t Ht IH Ha]; constructor.
  - apply IH. inversion Hs; assumption.
  - inversion Hs as [|? ? Hia Hit]; subst.
    rewrite Forall_forall in *. intros x Hx.
    apply before_confidence; auto.
Qed.

Lemma tied_keep_order (c : number) (l : list value) :
  let tied v := num_eqb (confidence v) c in
  filter tied (sort by_confidence l) = filter tied l.
Proof.
  intros tied. apply sort_filter. intros x y Hx Hy.
  unfold before, by_confidence, tied in *.
  apply num_eqb_tied.
  destruct (confidence x) as [p|s|], (confidence y) as [q|t|], c as [u|v|];
    simpl in *; try discriminate.
  - apply Qeq_bool_iff in Hx, Hy. apply Qeq_bool_iff.
    rewrite Hx, Hy. reflexivity.
  - apply Bool.eqb_prop in Hx, Hy. subst. apply Bool.eqb_reflx.
Qed.

(** C1, as the code has it: of more than ten insights the first ten the
    model emitted are kept, and those ten are returned in descending
    order of confidence. *)
Theorem cap_then_rank :
  forall (r : jsstring) (w : world) (parsed : value) (l : list value),
    parse (strip_fence (trim r)) = Some parsed ->
    getprop parsed (lit "insights") = Ok (Some (VArr l)) ->
    Forall is_insight l ->
    (10 < length l)%nat ->
    exists out,
      snd (generateInsights_response (VStr r) w) = Ok (VArr out)
      /\ length out = 10%nat
      /\ StronglySorted (fun a b => num_le (confidence b) (confidence a)) out
      /\ Permutation out (firstn 10 l).
Proof.
  intros r w parsed l Hp Hg Hl Hn.
  exists (sort by_confidence (firstn 10 l)).
  destruct (insights_convert _ (Forall_firstn _ 10 _ Hl)) as [Hv Hc].
  rewrite (insights_array_run r w parsed l Hp Hg Hv Hc).
  repeat split.
  - rewrite sort_length. apply firstn_length_le. lia.
  - apply descending_sorted, Forall_firstn, Hl.
  - apply sort_perm.
Qed.

Lemma cap_then_rank_witness :
  exists out,
    snd (generateInsights_response (VStr eleven_text) quiet) = Ok (VArr out)
    /\ length out = 10%nat
    /\ StronglySorted (fun a b => num_le (confidence b) (confidence a)) out
    /\ Permutation out (firstn 10 eleven).
Proof.
  apply (cap_then_rank eleven_text quiet (VObj [(lit "insights", VArr eleven)]) eleven).
  - vm_compute. reflexivity.
  - vm_compute. reflexivity.
  - repeat constructor; vm_compute; congruence.
  - vm_compute. reflexivity.
Defined.

(** C1, as stated, fails: the insight of confidence 95, emitted
    eleventh, is dropped although every insight kept ranks lower. *)
Lemma cap_drops_highest :
  parse (strip_fence (trim eleven_text)) = Some (VObj [(lit "insights", VArr eleven)])
  /\ length eleven = 11%nat
  /\ snd (generateInsights_response (VStr eleven_text) quiet)
     = Ok (VArr (map scored [79; 78; 77; 76; 75; 74; 73; 72; 71; 70]))
  /\ ~ keeps_highest (map scored [79; 78; 77; 76; 75; 74; 73; 72; 71; 70]) eleven.
Proof.
  split; [vm_compute; reflexivity|].
  split; [reflexivity|].
  split; [vm_compute; reflexivity|].
  intros H.
  specialize (H (scored 95) (scored 70)).
  assert (num_le (confidence (scored 95)) (confidence (scored 70))) as C.
  { apply H.
    - unfold eleven. simpl. tauto.
    - simpl. unfold scored, of_Z, inject_Z.
      intros K. repeat (destruct K as [K|K]; [discriminate K|]). exact K.
    - simpl. tauto. }
  vm_compute in C. apply C. reflexivity.
Qed.

(** C2: the returned sequence is non-increasing in confidence, has at
    most ten elements, and two returned insights of equal confidence
    stand in the order they had in the input.  The confidence is the
    number the [confidence] member of the record holds; the same is
    true of what a member of another type converts to. *)
Theorem ranked_sorted_capped_stable :
  forall (r : jsstring) (w : world) (parsed : value) (l : list value),
    parse (strip_fence (trim r)) = Some parsed ->
    getprop parsed (lit "insights") = Ok (Some (VArr l)) ->
    Forall is_insight l ->
    exists out,
      snd (generateInsights_response (VStr r) w) = Ok (VArr out)
      /\ (length out <= 10)%nat
      /\ Permutation out (firstn 10 l)
      /\ (forall a b x y,
            occurs_before a b out ->
            field a (lit "confidence") = Some (VNum x) ->
            field b (lit "confidence") = Some (VNum y) ->
            num_le y x)
      /\ (forall a b x y,
            field a (lit "confidence") = Some (VNum x) ->
            field b (lit "confidence") = Some (VNum y) ->
            num_eqb x y = true ->
            occurs_before a b out -> occurs_before a b l)
      /\ StronglySorted (fun a b => num_le (confidence b) (confidence a)) out
      /\ (forall a b, num_eqb (confidence a) (confidence b) = true ->
                      occurs_before a b out -> occurs_before a b l)
      /\ (forall c, filter (fun v => num_eqb (confidence v) c) out
                    = filter (fun v => num_eqb (confidence v) c) (firstn 10 l)).
Proof.
  intros r w parsed l Hp Hg Hl.
  exists (sort by_confidence (firstn 10 l)).
  destruct (insights_convert _ (Forall_firstn _ 10 _ Hl)) as [Hv Hc].
  rewrite (insights_array_run r w parsed l Hp Hg Hv Hc).
  assert (StronglySorted (fun a b => num_le (confidence b) (confidence a))
                         (sort by_confidence (firstn 10 l))) as Hs
    by (apply descending_sorted, Forall_firstn, Hl).
  assert (forall a b, num_eqb (confidence a) (confidence b) = true ->
                      occurs_before a b (sort by_confidence (firstn 10 l)) ->
                      occurs_before a b l) as Ht.
  { intros a b Hab Hout.
    apply occurs_before_firstn with 10%nat.
    apply occurs_before_filter with (fun v => num_eqb (confidence v) (confidence b)).
    rewrite <- tied_keep_order.
    apply occurs_before_in_filter; [exact Hab| |exact Hout].
    destruct (confidence b) as [q|s|]; simpl.
    - apply Qeq_bool_iff. reflexivity.
    - apply Bool.eqb_reflx.
    - destruct (confidence a); discriminate Hab. }
  assert (forall v x, field v (lit "confidence") = Some (VNum x) -> confidence v = x) as Hr.
  { intros v x Hx. apply (rated_converts v x). unfold rating. rewrite Hx. reflexivity. }
  split; [reflexivity|].
  split; [rewrite sort_length, length_firstn; lia|].
  split; [apply sort_perm|].
  split.
  { intros a b x y Hab Ha Hb.
    rewrite <- (Hr a x Ha), <- (Hr b y Hb).
    apply (sorted_occurs_before _ a b _ Hs Hab). }
  split.
  { intros a b x y Ha Hb Hxy. apply Ht. rewrite (Hr a x Ha), (Hr b y Hb). exact Hxy. }
  split; [exact Hs|].
  split; [exact Ht|intros c; apply tied_keep_order].
Qed.

Lemma ranked_sorted_capped_stable_witness :
  exists out,
    snd (generateInsights_response (VStr tied_text) quiet) = Ok (VArr out)
    /\ (length out <= 10)%nat
    /\ Permutation out (firstn 10 tied)
    /\ (forall a b x y,
          occurs_before a b out ->
          field a (lit "confidence") = Some (VNum x) ->
          field b (lit "confidence") = Some (VNum y) ->
          num_le y x)
    /\ (forall a b x y,
          field a (lit "confidence") = Some (VNum x) ->
          field b (lit "confidence") = Some (VNum y) ->
          num_eqb x y = true ->
          occurs_before a b out -> occurs_before a b tied)
    /\ StronglySorted (fun a b => num_le (confidence b) (confidence a)) out
    /\ (forall a b, num_eqb (confidence a) (confidence b) = true ->
                    occurs_before a b out -> occurs_before a b tied)
    /\ (forall c, filter (fun v => num_eqb (confidence v) c) out
                  = filter (fun v => num_eqb (confidence v) c) (firstn 10 tied)).
Proof.
  apply (ranked_sorted_capped_stable tied_text quiet (VObj [(lit "insights", VArr tied)])).
  - vm_compute. reflexivity.
  - vm_compute. reflexivity.
  - repeat constructor; vm_compute; congruence.
Defined.

(* ================================================================== *)
(** * Empty input, and the operation around the response handler *)
(* ================================================================== *)

(** C4: on an empty article set and on an empty summary set the two
    operations return the empty array and leave the world as it was:
    no request is sent, nothing is written, nothing is thrown.  (On any
    other input exactly one request is sent: [run_operation_sends_one].) *)
Theorem empty_input_short_circuit :
  forall (e : env) (st : stats) (w : world),
    deepAnalyzeArticles e [] w = (w, Ok (VArr []))
    /\ generateSmartTopicInsights e [] st w = (w, Ok (VArr [])).
Proof. intros e st w. split; reflexivity. Qed.

Lemma deepAnalyzeArticles_call (e : env) (articles : list article) (w w' : world)
      (response : value) :
  articles <> [] ->
  callOpenAI e (deepAnalysis_messages articles) (of_decimal 3 (- 1)) w = (w', Ok response) ->
  deepAnalyzeArticles e articles w = deepAnalyze_response response w'.
Proof.
  intros Hne Hc. destruct articles as [|a t]; [congruence|].
  unfold deepAnalyzeArticles. cbn [length Nat.eqb]. unfold bind.
  rewrite Hc. reflexivity.
Qed.

Lemma generateSmartTopicInsights_call (e : env) (summaries : list value) (st : stats)
      (w w' : world) (response : value) :
  summaries <> [] ->
  callOpenAI e (insights_messages summaries st) (of_decimal 4 (- 1)) w = (w', Ok response) ->
  generateSmartTopicInsights e summaries st w = generateInsights_response response w'.
Proof.
  intros Hne Hc. destruct summaries as [|a t]; [congruence|].
  unfold generateSmartTopicInsights. cbn [length Nat.eqb]. unfold bind.
  rewrite Hc. reflexivity.
Qed.

Lemma or_else_falsy (f : option value) (d : value) : truthy f = false -> or_else f d = d.
Proof. intros H. destruct f as [v|]; [|reflexivity]. unfold or_else. rewrite H. reflexivity. Qed.

Lemma deepAnalyze_unparsable (r : jsstring) (w : world) :
  parse (strip_fence (trim r)) = None ->
  deepAnalyze_response (VStr r) w
  = (logged w [ErrorParseFailed (VStr r)], Throw DeepAnalysisFailed).
Proof.
  intros Hp.
  unfold deepAnalyze_response, try_catch, deepAnalyze_try, bind.
  simpl call_trim. unfold ret at 1. unfold parse_json. rewrite Hp. reflexivity.
Qed.

Lemma generateInsights_unparsable (r : jsstring) (w : world) :
  parse (strip_fence (trim r)) = None ->
  generateInsights_response (VStr r) w
  = (logged w [ErrorInsightsFailed (VStr r)], Throw InsightGenerationFailed).
Proof.
  intros Hp.
  unfold generateInsights_response, try_catch, generateInsights_try, bind.
  simpl call_trim. unfold ret at 1. unfold parse_json. rewrite Hp. reflexivity.
Qed.

Lemma deepAnalyze_falsy (r : jsstring) (w : world) (v : value) :
  parse (strip_fence (trim r)) = Some v ->
  v <> VNull ->
  truthy (field v (lit "summaries")) = false ->
  deepAnalyze_response (VStr r) w = (w, Ok (VArr [])).
Proof.
  intros Hp Hv Hf.
  unfold deepAnalyze_response, try_catch, deepAnalyze_try, bind.
  simpl call_trim. unfold ret at 1. unfold parse_json. rewrite Hp.
  unfold ret at 1. unfold lift. rewrite (getprop_field v _ Hv).
  rewrite (or_else_falsy _ _ Hf). reflexivity.
Qed.

Lemma generateInsights_falsy (r : jsstring) (w : world) (v : value) :
  parse (strip_fence (trim r)) = Some v ->
  v <> VNull ->
  truthy (field v (lit "insights")) = false ->
  generateInsights_response (VStr r) w = (logged w [WarnNoInsights], Ok (VArr [])).
Proof.
  intros Hp Hv Hf.
  unfold generateInsights_response, try_catch, generateInsights_try, bind.
  simpl call_trim. unfold ret at 1. unfold parse_json. rewrite Hp.
  unfold ret at 1. unfold lift. rewrite (getprop_field v _ Hv).
  rewrite (or_else_falsy _ _ Hf). reflexivity.
Qed.

(* ================================================================== *)
(** * The Completion Client *)
(* ================================================================== *)

(** A byte order mark is no JSON text: a body that parses as it is has
    none, and [response.json()] gives what it parses to. *)
Lemma parse_mark (t : jsstring) : parse (65279%N :: t) = None.
Proof. reflexivity. Qed.

Lemma json_parsed (response : http_response) (data : value) :
  parse (body response) = Some data -> json response = Some data.
Proof.
  unfold json. destruct (body response) as [|c t]; [auto|].
  destruct (N.eqb_spec c 65279) as [->|_]; [|auto].
  rewrite parse_mark. discriminate.
Qed.

(** C9, as the code has it: on a success response the client throws
    when the body has no [choices] (or a [null] one), returns the empty
    string when [choices] is the empty array, and returns at all only
    when [choices] is present and not [null]. *)
Theorem missing_choices_faults :
  forall (e : env) (messages : list message) (temperature : number) (w : world)
         (response : http_response) (data : value),
    OPENAI_API_KEY e <> [] ->
    fetch e (chat_request e messages temperature) = Some response ->
    ok response = true ->
    parse (body response) = Some data ->
    let outcome := snd (callOpenAI e messages temperature w) in
    (field data (lit "choices") = None -> outcome = Throw TypeError)
    /\ (field data (lit "choices") = Some VNull -> outcome = Throw TypeError)
    /\ (field data (lit "choices") = Some (VArr []) -> outcome = Ok (VStr []))
    /\ (forall content, outcome = Ok content ->
          exists c, field data (lit "choices") = Some c /\ c <> VNull).
Proof.
  intros e messages temperature w response data Hk Hf Hok Hp outcome.
  assert (outcome =
          match getprop data (lit "choices") with
          | Ok choices =>
              match index0 choices with
              | Ok first =>
                  Ok (or_else (getprop_opt (getprop_opt first (lit "message"))
                                           (lit "content")) (VStr []))
              | Throw x => Throw x
              end
          | Throw x => Throw x
          end) as Ho.
  { unfold outcome, callOpenAI.
    destruct (OPENAI_API_KEY e) as [|c k] eqn:Ek; [congruence|].
    unfold bind, do_fetch. rewrite Hf, Hok. simpl negb. cbv iota.
    unfold response_json. rewrite (json_parsed _ _ Hp). unfold ret at 1. unfold lift.
    destruct (getprop data (lit "choices")) as [choices|x]; [|reflexivity].
    destruct (index0 choices); reflexivity. }
  rewrite Ho. clear Ho outcome.
  repeat split.
  - intros H. destruct data; simpl in *; try reflexivity. rewrite H. reflexivity.
  - intros H. destruct data; simpl in *; try discriminate. rewrite H. reflexivity.
  - intros H. destruct data; simpl in *; try discriminate. rewrite H. reflexivity.
  - intros content H.
    destruct data; simpl in *; try discriminate.
    destruct (get_own (lit "choices") members) as [c|]; [|discriminate].
    exists c. split; [reflexivity|].
    intros ->. discriminate.
Qed.

Lemma missing_choices_faults_witness :
  let outcome :=
    snd (callOpenAI (answering (quoted "{'id':'x'}")) [] (of_decimal 7 (- 1)) quiet) in
  (field (VObj [(lit "id", VStr (lit "x"))]) (lit "choices") = None ->
   outcome = Throw TypeError)
  /\ (field (VObj [(lit "id", VStr (lit "x"))]) (lit "choices") = Some VNull ->
      outcome = Throw TypeError)
  /\ (field (VObj [(lit "id", VStr (lit "x"))]) (lit "choices") = Some (VArr []) ->
      outcome = Ok (VStr []))
  /\ (forall content, outcome = Ok content ->
        exists c, field (VObj [(lit "id", VStr (lit "x"))]) (lit "choices") = Some c
                  /\ c <> VNull).
Proof.
  apply (missing_choices_faults (answering (quoted "{'id':'x'}")) [] (of_decimal 7 (- 1)) quiet
           {| ok := true; statusText := lit "OK"; body := quoted "{'id':'x'}" |}).
  - vm_compute. discriminate.
  - reflexivity.
  - reflexivity.
  - vm_compute. reflexivity.
Defined.

(** C9, as stated, fails: with [choices] holding one empty object the
    client returns the empty string, though [choices] is not the empty
    array. *)
Lemma fallback_on_nonempty_choices :
  parse (quoted "{'choices':[{}]}") = Some (VObj [(lit "choices", VArr [VObj []])])
  /\ snd (callOpenAI (answering (quoted "{'choices':[{}]}")) [] (of_decimal 7 (- 1)) quiet)
     = Ok (VStr [])
  /\ field (VObj [(lit "choices", VArr [VObj []])]) (lit "choices") <> Some (VArr []).
Proof.
  split; [vm_compute; reflexivity|].
  split; [vm_compute; reflexivity|].
  vm_compute. discriminate.
Qed.

(* ================================================================== *)
(** * The two phases as operations *)
(* ================================================================== *)

Lemma run_operation_call (e : env) (op : operation) (w w' : world) (response : value) :
  has_input op ->
  completion e op w = (w', Ok response) ->
  run_operation e op w = respond op response w'.
Proof.
  destruct op; simpl; intros Hi Hc.
  - apply deepAnalyzeArticles_call; assumption.
  - apply generateSmartTopicInsights_call; assumption.
Qed.

Lemma respond_unparsable (op : operation) (r : jsstring) (w : world) :
  parse (strip_fence (trim r)) = None ->
  respond op (VStr r) w = (logged w [failure_entry op (VStr r)], Throw (failure op)).
Proof.
  destruct op; simpl; intros Hp.
  - apply deepAnalyze_unparsable, Hp.
  - apply generateInsights_unparsable, Hp.
Qed.

Lemma respond_falsy (op : operation) (r : jsstring) (w : world) (v : value) :
  parse (strip_fence (trim r)) = Some v ->
  v <> VNull ->
  truthy (field v (expected_key op)) = false ->
  respond op (VStr r) w = (logged w (nothing_found op), Ok (VArr [])).
Proof.
  destruct op; simpl; intros Hp Hv Hf.
  - rewrite logged_nil. apply deepAnalyze_falsy with v; assumption.
  - apply generateInsights_falsy with v; assumption.
Qed.

Lemma convertible_converts (x : value) :
  x <> VNull -> convertible x -> exists n, confidence_of x = Ok n.
Proof.
  intros Hx Hc. unfold confidence_of, convertible in *.
  rewrite (getprop_field x _ Hx).
  destruct (field x (lit "confidence")) as [c|]; [|exists NaN; reflexivity].
  simpl. rewrite Hc. eexists. reflexivity.
Qed.

Lemma respond_array (op : operation) (r : jsstring) (w : world) (v : value) (l : list value) :
  parse (strip_fence (trim r)) = Some v ->
  field v (expected_key op) = Some (VArr l) ->
  Forall (fun x => x <> VNull /\ convertible x) l ->
  exists w' out, respond op (VStr r) w = (w', Ok out).
Proof.
  intros Hp Hf Hl.
  assert (v <> VNull) as Hv by (intros ->; discriminate Hf).
  assert (Forall (fun x => x <> VNull) l) as Hn
    by (eapply Forall_impl; [|exact Hl]; intros x [H _]; exact H).
  destruct op; unfold respond, expected_key in *.
  - eexists; eexists. apply (summaries_array_run r w v l Hp); [|exact Hn].
    rewrite (getprop_field v _ Hv). f_equal. exact Hf.
  - eexists; eexists. apply (insights_array_run r w v l Hp).
    + rewrite (getprop_field v _ Hv). f_equal. exact Hf.
    + apply Forall_firstn, Hn.
    + apply Forall_firstn. eapply Forall_impl; [|exact Hl].
      intros x [H1 H2]. apply convertible_converts; assumption.
Qed.

(* ================================================================== *)
(** * Requests: only [callOpenAI] sends one *)
(* ================================================================== *)

Lemma silent_ret {A} (a : A) : silent (ret a).
Proof. intros w. reflexivity. Qed.

Lemma silent_throw {A} (x : exn) : silent (@throw A x).
Proof. intros w. reflexivity. Qed.

Lemma silent_lift {A} (r : result A) : silent (lift r).
Proof. intros w. reflexivity. Qed.

Lemma silent_write (entry : console_entry) : silent (write entry).
Proof. intros w. reflexivity. Qed.

Lemma silent_bind {A B} (c : M A) (k : A -> M B) :
  silent c -> (forall a, silent (k a)) -> silent (bind c k).
Proof.
  intros Hc Hk w. unfold bind. specialize (Hc w).
  destruct (c w) as [w' [a|x]]; simpl in *; [|exact Hc].
  rewrite Hk. exact Hc.
Qed.

Lemma silent_try_catch {A} (c : M A) (h : exn -> M A) :
  silent c -> (forall x, silent (h x)) -> silent (try_catch c h).
Proof.
  intros Hc Hh w. unfold try_catch. specialize (Hc w).
  destruct (c w) as [w' [a|x]]; simpl in *; [exact Hc|].
  rewrite Hh. exact Hc.
Qed.

Lemma silent_forEach (f : value -> nat -> M unit) (v : value) :
  (forall x i, silent (f x i)) -> silent (forEach v f).
Proof.
  intros Hf. destruct v; try apply silent_throw. simpl.
  generalize 0%nat. induction elems as [|x t IH]; intros i; simpl.
  - apply silent_ret.
  - apply silent_bind; [apply Hf|intros _; apply IH].
Qed.

Lemma silent_deepAnalyze_response (response : value) :
  silent (deepAnalyze_response response).
Proof.
  apply silent_try_catch.
  - unfold deepAnalyze_try.
    apply silent_bind; [destruct response; try apply silent_throw; apply silent_ret|].
    intros trimmed. apply silent_bind.
    { unfold parse_json. destruct (parse _); [apply silent_ret|apply silent_throw]. }
    intros parsed. apply silent_bind; [apply silent_lift|]. intros fld.
    apply silent_bind; [|intros _; apply silent_ret].
    apply silent_forEach. intros x i. unfold check_summary.
    repeat (apply silent_bind; [apply silent_lift|intros ?]).
    destruct (_ || _ || _); [apply silent_write|apply silent_ret].
  - intros x. apply silent_bind; [apply silent_write|intros _; apply silent_throw].
Qed.

Lemma silent_generateInsights_response (response : value) :
  silent (generateInsights_response response).
Proof.
  apply silent_try_catch.
  - unfold generateInsights_try.
    apply silent_bind; [destruct response; try apply silent_throw; apply silent_ret|].
    intros trimmed. apply silent_bind.
    { unfold parse_json. destruct (parse _); [apply silent_ret|apply silent_throw]. }
    intros parsed. apply silent_bind; [apply silent_lift|]. intros fld.
    apply silent_bind.
    { unfold cap. destruct (is_number_zero _).
      - apply silent_bind; [apply silent_write|intros _; apply silent_ret].
      - apply silent_bind; [apply silent_lift|intros n].
        destruct (gt _ _).
        + apply silent_bind; [apply silent_write|intros _].
          unfold slice_0_10. destruct (or_else fld (VArr []));
            try apply silent_throw; apply silent_ret.
        + apply silent_bind; [apply silent_write|intros _; apply silent_ret]. }
    intros insights. apply silent_bind.
    { apply silent_forEach. intros x i. unfold check_insight.
      apply silent_bind; [apply silent_lift|intros ?].
      destruct (_ || _ || _); [apply silent_write|apply silent_ret]. }
    intros _. unfold call_sort. destruct insights; try apply silent_throw.
    apply silent_bind; [apply silent_lift|intros ?; apply silent_ret].
  - intros x. apply silent_bind; [apply silent_write|intros _; apply silent_throw].
Qed.

(** With a credential configured, [callOpenAI] sends exactly the one
    request, whatever the answer. *)
Lemma callOpenAI_sends_one (e : env) (messages : list message) (temperature : number)
      (w : world) :
  OPENAI_API_KEY e <> [] ->
  sent (fst (callOpenAI e messages temperature w))
  = sent w ++ [chat_request e messages temperature].
Proof.
  intros Hk. unfold callOpenAI.
  destruct (OPENAI_API_KEY e) as [|c k]; [congruence|].
  unfold bind at 1. unfold do_fetch.
  destruct (fetch e (chat_request e messages temperature)) as [resp|]; [|reflexivity].
  set (w1 := {| console := console w;
                sent := sent w ++ [chat_request e messages temperature] |}).
  change (sent w ++ [chat_request e messages temperature]) with (sent w1).
  destruct (negb (ok resp)).
  - apply (silent_bind (lift _)); [apply silent_lift|intros ?].
    destruct (unconvertible _); apply silent_throw.
  - apply (silent_bind (response_json _)).
    { unfold response_json. destruct (json _); [apply silent_ret|apply silent_throw]. }
    intros data.
    repeat (apply silent_bind; [apply silent_lift|intros ?]).
    apply silent_ret.
Qed.

(** The contrast to the short-circuit: on an input that is not empty
    each operation sends exactly one request. *)
Lemma run_operation_sends_one (e : env) (op : operation) (w : world) :
  OPENAI_API_KEY e <> [] ->
  has_input op ->
  exists r, sent (fst (run_operation e op w)) = sent w ++ [r].
Proof.
  intros Hk Hi.
  destruct op as [articles|summaries st]; simpl in *.
  - exists (chat_request e (deepAnalysis_messages articles) (of_decimal 3 (- 1))).
    destruct articles as [|a t]; [congruence|].
    unfold deepAnalyzeArticles. cbn [length Nat.eqb]. unfold bind.
    pose proof (callOpenAI_sends_one e (deepAnalysis_messages (a :: t))
                  (of_decimal 3 (- 1)) w Hk) as Hs.
    destruct (callOpenAI _ _ _ w) as [w' [resp|x]]; simpl in *; [|exact Hs].
    rewrite silent_deepAnalyze_response. exact Hs.
  - exists (chat_request e (insights_messages summaries st) (of_decimal 4 (- 1))).
    destruct summaries as [|a t]; [congruence|].
    unfold generateSmartTopicInsights. cbn [length Nat.eqb]. unfold bind.
    pose proof (callOpenAI_sends_one e (insights_messages (a :: t) st)
                  (of_decimal 4 (- 1)) w Hk) as Hs.
    destruct (callOpenAI _ _ _ w) as [w' [resp|x]]; simpl in *; [|exact Hs].
    rewrite silent_generateInsights_response. exact Hs.
Qed.

(* ================================================================== *)
(** * Malformed and schema-less responses *)
(* ================================================================== *)

(** C3, as the code has it: when the cleaned text does not parse, the
    operation writes the raw response to the error console and throws
    the fixed error of its phase, which carries no text; when the
    cleaned text parses to a value other than [null] whose expected key
    is absent, falsy or an array of records other than [null] whose
    confidence, where they have one, can be converted to a number, the
    operation returns. *)
Theorem unparsable_response_fails :
  forall (e : env) (op : operation) (w w' : world) (r : jsstring),
    has_input op ->
    completion e op w = (w', Ok (VStr r)) ->
    (parse (strip_fence (trim r)) = None ->
     run_operation e op w
     = (logged w' [failure_entry op (VStr r)], Throw (failure op)))
    /\ (forall v,
          parse (strip_fence (trim r)) = Some v ->
          v <> VNull ->
          truthy (field v (expected_key op)) = false
          \/ (exists l, field v (expected_key op) = Some (VArr l)
                        /\ Forall (fun x => x <> VNull /\ convertible x) l) ->
          exists w'' out, run_operation e op w = (w'', Ok out)).
Proof.
  intros e op w w' r Hi Hc.
  rewrite (run_operation_call e op w w' (VStr r) Hi Hc).
  split.
  - apply respond_unparsable.
  - intros v Hp Hv [Hf|(l & Hf & Hl)].
    + eexists; eexists. apply respond_falsy with v; assumption.
    + apply respond_array with v l; assumption.
Qed.

Lemma unparsable_response_fails_witness :
  (parse (strip_fence (trim (lit "not json"))) = None ->
   run_operation (answering prose_body) (DeepAnalyze [one_article]) quiet
   = (logged {| console := [];
                sent := [chat_request (answering prose_body)
                           (deepAnalysis_messages [one_article]) (of_decimal 3 (- 1))] |}
             [failure_entry (DeepAnalyze [one_article]) (VStr (lit "not json"))],
      Throw (failure (DeepAnalyze [one_article]))))
  /\ (forall v,
        parse (strip_fence (trim (lit "not json"))) = Some v ->
        v <> VNull ->
        truthy (field v (expected_key (DeepAnalyze [one_article]))) = false
        \/ (exists l, field v (expected_key (DeepAnalyze [one_article])) = Some (VArr l)
                      /\ Forall (fun x => x <> VNull /\ convertible x) l) ->
        exists w'' out,
          run_operation (answering prose_body) (DeepAnalyze [one_article]) quiet
          = (w'', Ok out)).
Proof.
  apply (unparsable_response_fails (answering prose_body) (DeepAnalyze [one_article]) quiet).
  - simpl. discriminate.
  - vm_compute. reflexivity.
Defined.

(** C3, as stated, fails: the answer [null] parses after cleaning, and
    the operation still throws the error of a malformed response. *)
Lemma parsed_response_still_fails :
  completion (answering null_body) (DeepAnalyze [one_article]) quiet
  = ({| console := [];
        sent := [chat_request (answering null_body)
                   (deepAnalysis_messages [one_article]) (of_decimal 3 (- 1))] |},
     Ok (VStr (lit "null")))
  /\ parse (strip_fence (trim (lit "null"))) = Some VNull
  /\ snd (run_operation (answering null_body) (DeepAnalyze [one_article]) quiet)
     = Throw DeepAnalysisFailed.
Proof. repeat split; vm_compute; reflexivity. Qed.

(** C10, as the code has it: when the cleaned text parses to a value
    other than [null] that lacks the expected key, the operation returns
    the empty array, which is what it returns on empty input. *)
Theorem schemaless_response_is_empty :
  forall (e : env) (op : operation) (w w' : world) (r : jsstring) (v : value),
    has_input op ->
    completion e op w = (w', Ok (VStr r)) ->
    parse (strip_fence (trim r)) = Some v ->
    v <> VNull ->
    field v (expected_key op) = None ->
    run_operation e op w = (logged w' (nothing_found op), Ok (VArr []))
    /\ snd (run_operation e op w) = snd (run_operation e (without_input op) w).
Proof.
  intros e op w w' r v Hi Hc Hp Hv Hf.
  rewrite (run_operation_call e op w w' (VStr r) Hi Hc).
  rewrite (respond_falsy op r w' v Hp Hv) by (rewrite Hf; reflexivity).
  split; [reflexivity|].
  destruct op; reflexivity.
Qed.

Lemma schemaless_response_is_empty_witness :
  run_operation (answering array_body) (GenerateInsights [VObj []] no_stats) quiet
  = (logged {| console := [];
               sent := [chat_request (answering array_body)
                          (insights_messages [VObj []] no_stats) (of_decimal 4 (- 1))] |}
            (nothing_found (GenerateInsights [VObj []] no_stats)),
     Ok (VArr []))
  /\ snd (run_operation (answering array_body) (GenerateInsights [VObj []] no_stats) quiet)
     = snd (run_operation (answering array_body)
              (without_input (GenerateInsights [VObj []] no_stats)) quiet).
Proof.
  apply (schemaless_response_is_empty (answering array_body)
           (GenerateInsights [VObj []] no_stats) quiet _ (lit "[1, 2]")
           (VArr [VNum (of_Z 1); VNum (of_Z 2)])).
  - simpl. discriminate.
  - vm_compute. reflexivity.
  - vm_compute. reflexivity.
  - discriminate.
  - reflexivity.
Defined.

(** C10, as stated, fails: [null] is a JSON value without the expected
    key, and on it the operation throws instead of returning the empty
    array. *)
Lemma null_response_is_not_empty :
  completion (answering null_body) (GenerateInsights [VObj []] no_stats) quiet
  = ({| console := [];
        sent := [chat_request (answering null_body)
                   (insights_messages [VObj []] no_stats) (of_decimal 4 (- 1))] |},
     Ok (VStr (lit "null")))
  /\ parse (strip_fence (trim (lit "null"))) = Some VNull
  /\ field VNull (lit "insights") = None
  /\ snd (run_operation (answering null_body) (GenerateInsights [VObj []] no_stats) quiet)
     = Throw InsightGenerationFailed.
Proof. repeat split; vm_compute; reflexivity. Qed.

(* ================================================================== *)
(** * The Schema Validator *)
(* ================================================================== *)

Lemma warnings_from_In (bad : value -> bool) (mk : nat -> console_entry) :
  (forall a b, mk a = mk b -> a = b) ->
  forall (l : list value) (k i : nat),
    In (mk i) (warnings_from bad mk l k)
    <-> (k <= i)%nat /\ exists v, nth_error l (i - k) = Some v /\ bad v = true.
Proof.
  intros Hmk l. induction l as [|v t IH]; intros k i; simpl.
  - split; [tauto|]. intros [_ (v & H & _)]. destruct (i - k)%nat; discriminate.
  - rewrite in_app_iff, IH. split.
    + intros [H|[Hk (v' & Hn & Hb)]].
      * destruct (bad v) eqn:Bv; [|destruct H].
        destruct H as [H|[]]. apply Hmk in H. subst i.
        split; [lia|]. exists v. rewrite Nat.sub_diag. split; [reflexivity|exact Bv].
      * split; [lia|]. exists v'.
        replace (i - k)%nat with (S (i - S k)) by lia. split; assumption.
    + intros [Hk (v' & Hn & Hb)].
      destruct (i - k)%nat as [|m] eqn:E.
      * left. injection Hn as <-. rewrite Hb.
        replace i with k by lia. left. reflexivity.
      * right. split; [lia|]. exists v'.
        replace (i - S k)%nat with m by lia. split; assumption.
Qed.

Lemma warnings_from_shape (bad : value -> bool) (mk : nat -> console_entry)
      (l : list value) (k : nat) (entry : console_entry) :
  In entry (warnings_from bad mk l k) -> exists i, entry = mk i.
Proof.
  revert k. induction l as [|v t IH]; simpl; intros k Hin; [destruct Hin|].
  apply in_app_or in Hin. destruct Hin as [Hin|Hin].
  - destruct (bad v); [|destruct Hin].
    destruct Hin as [<-|[]]. exists k. reflexivity.
  - apply (IH (S k)). exact Hin.
Qed.

(** C5, as the code has it: when no element of the parsed array is
    [null], phase 1 returns the parsed records as they are, in full, and
    what it adds to the console is one warning for each record with one
    of the three targeting fields absent or falsy, and nothing else; in
    particular a record without one of the fields is warned about and
    retained. *)
Theorem validation_keeps_records :
  forall (e : env) (articles : list article) (w w' : world) (r : jsstring)
         (parsed : value) (records : list value),
    articles <> [] ->
    callOpenAI e (deepAnalysis_messages articles) (of_decimal 3 (- 1)) w
    = (w', Ok (VStr r)) ->
    parse (strip_fence (trim r)) = Some parsed ->
    getprop parsed (lit "summaries") = Ok (Some (VArr records)) ->
    Forall (fun v => v <> VNull) records ->
    exists warnings,
      deepAnalyzeArticles e articles w = (logged w' warnings, Ok (VArr records))
      /\ (forall i,
            In (WarnSummaryFields i) warnings
            <-> exists v, nth_error records i = Some v
                          /\ (truthy (field v (lit "targetAudience")) = false
                              \/ truthy (field v (lit "scenario")) = false
                              \/ truthy (field v (lit "painPoint")) = false))
      /\ (forall i v,
            nth_error records i = Some v ->
            field v (lit "targetAudience") = None
            \/ field v (lit "scenario") = None
            \/ field v (lit "painPoint") = None ->
            In (WarnSummaryFields i) warnings /\ In v records)
      /\ (forall entry, In entry warnings -> exists i, entry = WarnSummaryFields i).
Proof.
  intros e articles w w' r parsed records Hne Hc Hp Hg Hl.
  exists (warnings_from summary_incomplete WarnSummaryFields records 0).
  rewrite (deepAnalyzeArticles_call e articles w w' (VStr r) Hne Hc).
  rewrite (summaries_array_run r w' parsed records Hp Hg Hl).
  assert (forall i,
            In (WarnSummaryFields i)
               (warnings_from summary_incomplete WarnSummaryFields records 0)
            <-> exists v, nth_error records i = Some v
                          /\ (truthy (field v (lit "targetAudience")) = false
                              \/ truthy (field v (lit "scenario")) = false
                              \/ truthy (field v (lit "painPoint")) = false)) as Hiff.
  { intros i. rewrite warnings_from_In by (intros a b H; congruence).
    rewrite Nat.sub_0_r. unfold summary_incomplete.
    split.
    - intros [_ (v & Hn & Hb)]. exists v. split; [exact Hn|].
      apply orb_true_iff in Hb. destruct Hb as [Hb|Hb].
      + apply orb_true_iff in Hb. destruct Hb as [Hb|Hb];
          apply negb_true_iff in Hb; auto.
      + apply negb_true_iff in Hb; auto.
    - intros (v & Hn & Hb). split; [lia|]. exists v. split; [exact Hn|].
      destruct Hb as [Hb|[Hb|Hb]]; rewrite Hb; simpl;
        rewrite ?orb_true_r; reflexivity. }
  split; [reflexivity|].
  split; [exact Hiff|].
  split.
  - intros i v Hn Hm. split.
    + apply Hiff. exists v. split; [exact Hn|].
      destruct Hm as [Hm|[Hm|Hm]]; rewrite Hm; auto.
    + apply nth_error_In with i. exact Hn.
  - intros entry. apply warnings_from_shape.
Qed.

Lemma validation_keeps_records_witness :
  exists warnings,
    deepAnalyzeArticles (answering summaries_body) [one_article] quiet
    = (logged {| console := [];
                 sent := [chat_request (answering summaries_body)
                            (deepAnalysis_messages [one_article]) (of_decimal 3 (- 1))] |}
              warnings,
       Ok (VArr three_summaries))
    /\ (forall i,
          In (WarnSummaryFields i) warnings
          <-> exists v, nth_error three_summaries i = Some v
                        /\ (truthy (field v (lit "targetAudience")) = false
                            \/ truthy (field v (lit "scenario")) = false
                            \/ truthy (field v (lit "painPoint")) = false))
    /\ (forall i v,
          nth_error three_summaries i = Some v ->
          field v (lit "targetAudience") = None
          \/ field v (lit "scenario") = None
          \/ field v (lit "painPoint") = None ->
          In (WarnSummaryFields i) warnings /\ In v three_summaries)
    /\ (forall entry, In entry warnings -> exists i, entry = WarnSummaryFields i).
Proof.
  apply (validation_keeps_records (answering summaries_body) [one_article] quiet _
           summaries_text (VObj [(lit "summaries", VArr three_summaries)])).
  - discriminate.
  - vm_compute. reflexivity.
  - vm_compute. reflexivity.
  - vm_compute. reflexivity.
  - repeat constructor; discriminate.
Defined.

(** C5, as stated, fails: the answer below parses to an array of a
    record without [targetAudience] and of [null].  The record is
    warned about; reading a member of [null] then faults inside the try
    block, and the operation throws the error of its phase: no record
    is returned. *)
Lemma null_summary_loses_records :
  snd (callOpenAI (answering lost_body) (deepAnalysis_messages [one_article])
                  (of_decimal 3 (- 1)) quiet)
  = Ok (VStr lost_text)
  /\ parse (strip_fence (trim lost_text))
     = Some (VObj [(lit "summaries",
                    VArr [VObj [(lit "scenario", VStr (lit "s"));
                                (lit "painPoint", VStr (lit "p"))];
                          VNull])])
  /\ deepAnalyzeArticles (answering lost_body) [one_article] quiet
     = ({| console := [WarnSummaryFields 0; ErrorParseFailed (VStr lost_text)];
           sent := [chat_request (answering lost_body)
                      (deepAnalysis_messages [one_article]) (of_decimal 3 (- 1))] |},
        Throw DeepAnalysisFailed).
Proof. repeat split; vm_compute; reflexivity. Qed.

(** C7, as the code has it: for the records phase 2 keeps, the
    missing-keyword warning is written exactly for those with one of
    [keywords.scene], [keywords.audience], [keywords.need] absent or
    falsy; a record without a [keywords] member, however complete, is
    always warned about. *)
Theorem keyword_warning_iff :
  forall (r : jsstring) (w : world) (parsed : value) (l : list value),
    parse (strip_fence (trim r)) = Some parsed ->
    getprop parsed (lit "insights") = Ok (Some (VArr l)) ->
    Forall (fun v => v <> VNull) l ->
    exists warnings,
      fst (generateInsights_response (VStr r) w)
      = logged w (cap_entry (length l) :: warnings)
      /\ (forall i,
            In (WarnInsightKeywords i) warnings
            <-> exists v, nth_error (firstn 10 l) i = Some v
                 /\ (truthy (getprop_opt (field v (lit "keywords")) (lit "scene")) = false
                     \/ truthy (getprop_opt (field v (lit "keywords")) (lit "audience")) = false
                     \/ truthy (getprop_opt (field v (lit "keywords")) (lit "need")) = false))
      /\ (forall i v,
            nth_error (firstn 10 l) i = Some v ->
            field v (lit "keywords") = None ->
            In (WarnInsightKeywords i) warnings).
Proof.
  intros r w parsed l Hp Hg Hl.
  destruct (insights_array_console r w parsed l Hp Hg (Forall_firstn _ 10 _ Hl))
    as (tail & Hrun & Htail).
  exists (warnings_from keywords_incomplete WarnInsightKeywords (firstn 10 l) 0 ++ tail).
  rewrite Hrun.
  assert (forall i,
            In (WarnInsightKeywords i)
               (warnings_from keywords_incomplete WarnInsightKeywords (firstn 10 l) 0 ++ tail)
            <-> exists v, nth_error (firstn 10 l) i = Some v
                 /\ (truthy (getprop_opt (field v (lit "keywords")) (lit "scene")) = false
                     \/ truthy (getprop_opt (field v (lit "keywords")) (lit "audience")) = false
                     \/ truthy (getprop_opt (field v (lit "keywords")) (lit "need")) = false))
    as Hiff.
  { intros i.
    assert (In (WarnInsightKeywords i)
               (warnings_from keywords_incomplete WarnInsightKeywords (firstn 10 l) 0 ++ tail)
            <-> In (WarnInsightKeywords i)
                   (warnings_from keywords_incomplete WarnInsightKeywords (firstn 10 l) 0))
      as ->.
    { rewrite in_app_iff. split; [|auto]. intros [H|H]; [exact H|].
      destruct Htail as [-> | ->]; [contradiction|].
      destruct H as [H|H]; [discriminate H|contradiction]. }
    rewrite warnings_from_In by (intros a b H; congruence).
    rewrite Nat.sub_0_r. unfold keywords_incomplete.
    split.
    - intros [_ (v & Hn & Hb)]. exists v. split; [exact Hn|].
      apply orb_true_iff in Hb. destruct Hb as [Hb|Hb].
      + apply orb_true_iff in Hb. destruct Hb as [Hb|Hb];
          apply negb_true_iff in Hb; auto.
      + apply negb_true_iff in Hb; auto.
    - intros (v & Hn & Hb). split; [lia|]. exists v. split; [exact Hn|].
      destruct Hb as [Hb|[Hb|Hb]]; rewrite Hb; simpl;
        rewrite ?orb_true_r; reflexivity. }
  split; [reflexivity|].
  split; [exact Hiff|].
  intros i v Hn Hk. apply Hiff. exists v. split; [exact Hn|].
  left. rewrite Hk. reflexivity.
Qed.

Lemma keyword_warning_iff_witness :
  exists warnings,
    fst (generateInsights_response (VStr documented_text) quiet)
    = logged quiet (cap_entry 1 :: warnings)
    /\ In (WarnInsightKeywords 0) warnings.
Proof.
  destruct (keyword_warning_iff documented_text quiet
              (VObj [(lit "insights",
                      VArr [VObj [ (lit "title", VStr (lit "t"));
                                   (lit "confidence", VNum (of_Z 85));
                                   (lit "decisionStage",
                                    VObj [ (lit "stage", VStr (lit "s"));
                                           (lit "reason", VStr (lit "r")) ]);
                                   (lit "audienceScene",
                                    VObj [ (lit "audience", VStr (lit "a"));
                                           (lit "scene", VStr (lit "s"));
                                           (lit "reason", VStr (lit "r")) ]);
                                   (lit "demandPainPoint",
                                    VObj [ (lit "emotionalPain", VStr (lit "e"));
                                           (lit "realisticPain", VStr (lit "p"));
                                           (lit "expectation", VStr (lit "x"));
                                           (lit "reason", VStr (lit "r")) ]) ]])])
              _
              ltac:(vm_compute; reflexivity)
              ltac:(vm_compute; reflexivity)
              ltac:(repeat constructor; discriminate))
    as (warnings & Hrun & _ & Hdoc).
  exists warnings. split; [exact Hrun|].
  eapply (Hdoc 0%nat); [reflexivity|].
  vm_compute. reflexivity.
Defined.

(** C7, as stated, fails: with the three keyword fields all present and
    [scene] the empty string, the warning is written. *)
Lemma warning_with_all_fields_present :
  parse (strip_fence (trim empty_scene_text)) = Some (VObj [(lit "insights", VArr [empty_scene])])
  /\ getprop_opt (field empty_scene (lit "keywords")) (lit "scene") = Some (VStr [])
  /\ getprop_opt (field empty_scene (lit "keywords")) (lit "audience") = Some (VStr (lit "a"))
  /\ getprop_opt (field empty_scene (lit "keywords")) (lit "need") = Some (VStr (lit "n"))
  /\ console (fst (generateInsights_response (VStr empty_scene_text) quiet))
     = [LogCount (Some (VNum (of_Z 1))); WarnInsightKeywords 0].
Proof. repeat split; vm_compute; reflexivity. Qed.

(* ================================================================== *)
(** * The Word-Frequency Aggregator *)
(* ================================================================== *)

Lemma eqb_eq (s t : jsstring) : JsString.eqb s t = true <-> s = t.
Proof.
  revert t. induction s as [|c s IH]; intros [|d t]; simpl; split;
    try congruence; try reflexivity.
  - intros H. apply andb_true_iff in H. destruct H as [H1 H2].
    apply N.eqb_eq in H1. apply IH in H2. congruence.
  - intros H. injection H as -> ->. rewrite N.eqb_refl. simpl.
    apply IH. reflexivity.
Qed.

Lemma eqb_refl (s : jsstring) : JsString.eqb s s = true.
Proof. apply eqb_eq. reflexivity. Qed.

Lemma eqb_neq (s t : jsstring) : JsString.eqb s t = false <-> s <> t.
Proof.
  split.
  - intros H E. apply eqb_eq in E. congruence.
  - intros H. destruct (JsString.eqb s t) eqn:E; [|reflexivity].
    apply eqb_eq in E. contradiction.
Qed.

Lemma eqb_sym (s t : jsstring) : JsString.eqb s t = JsString.eqb t s.
Proof.
  destruct (JsString.eqb s t) eqn:E.
  - apply eqb_eq in E. subst. symmetry. apply eqb_refl.
  - symmetry. apply eqb_neq. apply eqb_neq in E. congruence.
Qed.

Lemma distinct_In (x : jsstring) (ks : list jsstring) : In x (distinct ks) <-> In x ks.
Proof.
  induction ks as [|k t IH]; simpl; [tauto|].
  rewrite filter_In, IH. split.
  - intros [H|[H _]]; auto.
  - intros [H|H]; [auto|].
    destruct (JsString.eqb x k) eqn:E.
    + apply eqb_eq in E. auto.
    + right. split; [exact H|reflexivity].
Qed.

Lemma NoDup_filter {A} (p : A -> bool) (l : list A) : NoDup l -> NoDup (filter p l).
Proof.
  induction 1 as [|x l Hx Hl IH]; simpl; [constructor|].
  destruct (p x); [|exact IH].
  constructor; [|exact IH]. rewrite filter_In. tauto.
Qed.

Lemma distinct_NoDup (ks : list jsstring) : NoDup (distinct ks).
Proof.
  induction ks as [|k t IH]; simpl; constructor.
  - rewrite filter_In. intros [_ H]. rewrite eqb_refl in H. discriminate.
  - apply NoDup_filter, IH.
Qed.

Lemma occurrences_nonneg (w : jsstring) (ks : list jsstring) : 0 <= occurrences w ks.
Proof. induction ks as [|k t IH]; simpl; [lia|]. destruct (JsString.eqb k w); lia. Qed.

Lemma occurrences_In (w : jsstring) (ks : list jsstring) : In w ks <-> 0 < occurrences w ks.
Proof.
  induction ks as [|k t IH]; simpl; [split; [tauto|lia]|].
  pose proof (occurrences_nonneg w t).
  destruct (JsString.eqb k w) eqn:E.
  - apply eqb_eq in E. split; [lia|auto].
  - apply eqb_neq in E. rewrite IH. split; [intros [?|?]; [contradiction|lia]|].
    intros ?. right. lia.
Qed.

Lemma occurrences_snoc (x w : jsstring) (ks : list jsstring) :
  occurrences x (ks ++ [w]) = occurrences x ks + (if JsString.eqb w x then 1 else 0).
Proof. induction ks as [|k t IH]; simpl; [lia|]. rewrite IH. lia. Qed.

Lemma distinct_snoc (w : jsstring) (ks : list jsstring) :
  distinct (ks ++ [w])
  = distinct ks ++ (if existsb (JsString.eqb w) ks then [] else [w]).
Proof.
  induction ks as [|k t IH]; simpl; [reflexivity|].
  rewrite IH, filter_app. f_equal.
  destruct (JsString.eqb w k) eqn:E; simpl.
  - destruct (existsb (JsString.eqb w) t); simpl; [reflexivity|].
    rewrite E. reflexivity.
  - destruct (existsb (JsString.eqb w) t); simpl; [reflexivity|].
    rewrite E. reflexivity.
Qed.

Lemma existsb_eqb_In (w : jsstring) (ks : list jsstring) :
  existsb (JsString.eqb w) ks = true <-> In w ks.
Proof.
  rewrite existsb_exists. split.
  - intros (x & Hx & E). apply eqb_eq in E. subst. exact Hx.
  - intros H. exists w. split; [exact H|apply eqb_refl].
Qed.

(** One more occurrence of an ordinary word [w], on properties that
    hold counts. *)
Lemma update_counts (w : jsstring) (c : jsstring -> Z) (ds : list jsstring) :
  inherited w = false ->
  NoDup ds ->
  update w (map (fun x => (x, Count (c x))) ds)
  = map (fun x => (x, Count (c x + (if JsString.eqb w x then 1 else 0)))) ds
    ++ (if existsb (JsString.eqb w) ds then [] else [(w, Count 1)]).
Proof.
  intros Hw Hd. induction Hd as [|x ds Hx Hd IH]; simpl.
  - rewrite Hw. reflexivity.
  - destruct (JsString.eqb w x) eqn:E; simpl.
    + apply eqb_eq in E. subst x. rewrite app_nil_r. f_equal.
      apply map_ext_in. intros y Hy.
      assert (JsString.eqb w y = false) as -> by (apply eqb_neq; congruence).
      rewrite Z.add_0_r. reflexivity.
    + rewrite IH, Z.add_0_r. reflexivity.
Qed.

Lemma wordCount_tallied (ks : list jsstring) :
  Forall ordinary ks -> fold_left count_word ks [] = tallied ks.
Proof.
  induction ks as [|w ks IH] using rev_ind; intros Hk; [reflexivity|].
  apply Forall_app in Hk. destruct Hk as [Hk Hw].
  inversion Hw as [|? ? [Hi Hp] _]; subst.
  rewrite fold_left_app. simpl. rewrite (IH Hk).
  unfold count_word. rewrite Hp. unfold tallied.
  rewrite update_counts by (auto using distinct_NoDup).
  rewrite distinct_snoc, map_app.
  assert (existsb (JsString.eqb w) (distinct ks) = existsb (JsString.eqb w) ks) as ->.
  { apply eq_true_iff_eq. rewrite !existsb_eqb_In. apply distinct_In. }
  f_equal.
  - apply map_ext. intros x. rewrite occurrences_snoc. reflexivity.
  - destruct (existsb (JsString.eqb w) ks) eqn:E; [reflexivity|].
    simpl. rewrite occurrences_snoc, eqb_refl.
    assert (occurrences w ks = 0) as ->; [|reflexivity].
    pose proof (occurrences_nonneg w ks). pose proof (occurrences_In w ks) as HI.
    destruct (Z.eq_dec (occurrences w ks) 0) as [?|N]; [assumption|].
    assert (In w ks) as Hin by (apply HI; lia).
    apply existsb_eqb_In in Hin. congruence.
Qed.

Lemma filter_split_perm {A} (p : A -> bool) (l : list A) :
  Permutation (filter p l ++ filter (fun x => negb (p x)) l) l.
Proof.
  induction l as [|x t IH]; simpl; [constructor|].
  destruct (p x); simpl.
  - constructor. exact IH.
  - apply Permutation_sym, Permutation_cons_app, Permutation_sym, IH.
Qed.

Lemma entries_perm (own : list (jsstring * tally)) : Permutation (entries own) own.
Proof.
  unfold entries.
  eapply perm_trans; [|apply (filter_split_perm is_index)].
  apply Permutation_app_tail, sort_perm.
Qed.




Lemma sorted_app {A} (R : A -> A -> Prop) (x y : list A) (a b : A) :
  StronglySorted R (x ++ y) -> In a x -> In b y -> R a b.
Proof.
  intros Hs Ha Hb. apply in_split in Ha. destruct Ha as (x1 & x2 & ->).
  apply in_split in Hb. destruct Hb as (y1 & y2 & ->).
  apply (sorted_occurs_before R a b _ Hs).
  exists x1, (x2 ++ y1), y2. repeat (rewrite <- app_assoc; simpl). reflexivity.
Qed.


Lemma NoDup_firstn_of {A} (n : nat) (l : list A) : NoDup l -> NoDup (firstn n l).
Proof.
  intros H. rewrite <- (firstn_skipn n l) in H. apply NoDup_app_remove_r in H. exact H.
Qed.

(** ** The rows of the result *)

Lemma with_size_nth (l : list (jsstring * tally)) (k : Z) (i : nat) (e : cloud_entry) :
  nth_error (with_size l k) i = Some e ->
  nth_error l i = Some (word e, count e)
  /\ size e = Z.max 20 (48 - (k + Z.of_nat i) * 2).
Proof.
  revert k i. induction l as [|[w c] t IH]; intros k i H.
  - destruct i; discriminate.
  - destruct i as [|i]; simpl in H.
    + injection H as <-. simpl. rewrite Z.add_0_r. auto.
    + apply IH in H. destruct H as [H1 H2]. split; [exact H1|].
      rewrite H2. f_equal. lia.
Qed.

Lemma with_size_words (l : list (jsstring * tally)) (k : Z) :
  map (fun e => (word e, count e)) (with_size l k) = l.
Proof.
  revert k. induction l as [|[w c] t IH]; intros k; simpl; [reflexivity|].
  rewrite IH. reflexivity.
Qed.

(** ** The comparators on tallied words *)





(** ** Array-index numerals denote distinct indices *)














(* ================================================================== *)
(** * The engagement percentage *)
(* ================================================================== *)

Lemma round_half_even_bounds (a b n : Z) :
  0 <= a -> 0 < b -> a <= n * b -> 0 <= round_half_even a b <= n.
Proof.
  intros Ha Hb Hn. unfold round_half_even.
  pose proof (Z.div_mod a b ltac:(lia)) as Hdm.
  pose proof (Z.mod_pos_bound a b Hb) as Hr.
  pose proof (Z.div_pos a b Ha Hb) as Hq.
  assert (a / b <= n) as Hle by nia.
  destruct (2 * (a mod b) ?= b) eqn:C.
  - apply Z.compare_eq in C.
    destruct (Z.even (a / b)); [lia|]. nia.
  - lia.
  - rewrite Z.compare_gt_iff in C. nia.
Qed.

Lemma ilog2_range (n d : Z) :
  Z.log2 n - Z.log2 d - 1 <= ilog2 n d <= Z.log2 n - Z.log2 d.
Proof. unfold ilog2. destruct (_ <=? _); lia. Qed.

Lemma pow2_pos (k : Z) : 0 < 2 ^ Z.max k 0.
Proof. apply Z.pow_pos_nonneg; lia. Qed.

(** Rounding a positive rational that is at most [2^j] gives a finite
    number that is at most [2^j]. *)
Lemma round_pos_le (n d j : Z) :
  0 < n -> 0 < d -> 0 <= j < 1024 -> n <= d * 2 ^ j ->
  exists q, round_pos n d = Finite q /\ (0 <= q)%Q /\ (q <= inject_Z (2 ^ j))%Q.
Proof.
  intros Hn Hd Hj Hle. unfold round_pos.
  pose proof (ilog2_range n d) as He.
  set (e := ilog2 n d) in *.
  set (k := Z.max (e - 52) (- 1074)).
  assert (Z.log2 n <= Z.log2 d + j) as Hlog.
  { rewrite Z.add_comm, <- Z.log2_mul_pow2 by lia. apply Z.log2_le_mono. lia. }
  assert (k <= j) as Hkj by lia.
  destruct (Z.log2_spec n Hn) as [_ Hn2].
  destruct (Z.log2_spec d Hd) as [Hd2 _].
  set (m := round_half_even (n * 2 ^ Z.max (- k) 0) (d * 2 ^ Z.max k 0)).
  assert (0 < 2 ^ (j - k)) as Hp by (apply Z.pow_pos_nonneg; lia).
  assert (0 <= m <= 2 ^ (j - k)) as Hm.
  { apply round_half_even_bounds.
    - pose proof (pow2_pos (- k)). nia.
    - pose proof (pow2_pos k). nia.
    - destruct (Z.le_gt_cases 0 k) as [K|K].
      + rewrite (Z.max_r (- k) 0), (Z.max_l k 0) by lia.
        replace (2 ^ j) with (2 ^ (j - k) * 2 ^ k) in Hle
          by (rewrite <- Z.pow_add_r by lia; f_equal; lia).
        simpl (2 ^ 0). nia.
      + rewrite (Z.max_l (- k) 0), (Z.max_r k 0) by lia.
        replace (2 ^ (j - k)) with (2 ^ j * 2 ^ (- k))
          by (rewrite <- Z.pow_add_r by lia; f_equal; lia).
        assert (0 < 2 ^ (- k)) by (apply Z.pow_pos_nonneg; lia).
        simpl (2 ^ 0). nia. }
  assert (k < 0 -> m <= 2 ^ 54) as Hm54.
  { intros K. apply round_half_even_bounds.
    - pose proof (pow2_pos (- k)). nia.
    - pose proof (pow2_pos k). nia.
    - rewrite (Z.max_l (- k) 0), (Z.max_r k 0) by lia. simpl (2 ^ 0).
      set (a := Z.log2 n) in *. set (b := Z.log2 d) in *.
      assert (0 <= a) by apply Z.log2_nonneg.
      assert (0 <= b) by apply Z.log2_nonneg.
      assert (- k <= 53 - a + b) as Hk by lia.
      assert (2 ^ (- k) <= 2 ^ (53 - a + b)) as Hpow
        by (apply Z.pow_le_mono_r; lia).
      assert (2 ^ Z.succ a * 2 ^ (53 - a + b) = 2 ^ 54 * 2 ^ b) as Heq.
      { rewrite <- !Z.pow_add_r by lia. f_equal. lia. }
      assert (0 < 2 ^ (- k)) by (apply Z.pow_pos_nonneg; lia).
      assert (0 < 2 ^ b) by (apply Z.pow_pos_nonneg; lia).
      assert (n * 2 ^ (- k) <= 2 ^ Z.succ a * 2 ^ (53 - a + b)) by nia.
      nia. }
  assert ((2 ^ 1024 <=? m * 2 ^ Z.max k 0) = false) as ->.
  { apply Z.leb_gt.
    destruct (Z.le_gt_cases 0 k) as [K|K].
    - rewrite (Z.max_l k 0) by lia.
      apply Z.le_lt_trans with (2 ^ j).
      + replace (2 ^ j) with (2 ^ (j - k) * 2 ^ k)
          by (rewrite <- Z.pow_add_r by lia; f_equal; lia).
        assert (0 < 2 ^ k) by (apply Z.pow_pos_nonneg; lia). nia.
      + apply Z.pow_lt_mono_r; lia.
    - rewrite (Z.max_r k 0) by lia. simpl (2 ^ 0).
      specialize (Hm54 K).
      assert (2 ^ 54 < 2 ^ 1024) by (apply Z.pow_lt_mono_r; lia). lia. }
  eexists. split; [reflexivity|].
  rewrite Qred_correct. unfold dyadic, Qle, inject_Z. simpl Qnum. simpl Qden.
  rewrite Z2Pos.id by apply pow2_pos.
  pose proof (pow2_pos k). pose proof (pow2_pos (- k)).
  split; [nia|].
  destruct (Z.le_gt_cases 0 k) as [K|K].
  - rewrite (Z.max_r (- k) 0), (Z.max_l k 0) by lia.
    replace (2 ^ j) with (2 ^ (j - k) * 2 ^ k)
      by (rewrite <- Z.pow_add_r by lia; f_equal; lia).
    assert (0 < 2 ^ k) by (apply Z.pow_pos_nonneg; lia).
    simpl (2 ^ 0). nia.
  - rewrite (Z.max_l (- k) 0), (Z.max_r k 0) by lia.
    replace (2 ^ j * 2 ^ (- k)) with (2 ^ (j - k))
      by (rewrite <- Z.pow_add_r by lia; f_equal; lia).
    simpl (2 ^ 0). lia.
Qed.

(** The same for a rational that is not negative. *)
Lemma round_Q_le (q : Q) (j : Z) :
  (0 <= q)%Q -> (q <= inject_Z (2 ^ j))%Q -> 0 <= j < 1024 ->
  exists q', round_Q q = Finite q' /\ (0 <= q')%Q /\ (q' <= inject_Z (2 ^ j))%Q.
Proof.
  intros H0 Hq Hj. unfold round_Q, round_frac.
  unfold Qle in H0, Hq. simpl in H0, Hq.
  destruct (Qnum q ?= 0) eqn:C.
  - exists 0%Q. split; [reflexivity|]. split; [apply Qle_refl|].
    unfold Qle. simpl. assert (0 < 2 ^ j) by (apply Z.pow_pos_nonneg; lia). lia.
  - rewrite Z.compare_lt_iff in C. lia.
  - rewrite Z.compare_gt_iff in C.
    apply round_pos_le; lia.
Qed.

Lemma digit_of (d : Z) : 0 <= d < 10 -> is_digit (Z.to_N (48 + d)) = true.
Proof.
  intros H. unfold is_digit. apply andb_true_iff. split; apply N.leb_le; lia.
Qed.

Lemma digits_fuel_digits (fuel : nat) (n : Z) (acc : jsstring) :
  Forall (fun c => is_digit c = true) acc ->
  Forall (fun c => is_digit c = true) (digits_fuel fuel n acc).
Proof.
  revert n acc. induction fuel as [|f IH]; intros n acc Hacc; simpl; [exact Hacc|].
  assert (Forall (fun c => is_digit c = true) (Z.to_N (48 + n mod 10) :: acc)) as H.
  { constructor; [|exact Hacc]. apply digit_of. apply Z.mod_pos_bound. lia. }
  destruct (n / 10 =? 0); [exact H|]. apply IH, H.
Qed.

Lemma digits_fuel_nonempty (fuel : nat) (n : Z) (acc : jsstring) :
  digits_fuel (S fuel) n acc <> [].
Proof.
  revert n acc. induction fuel as [|f IH]; intros n acc.
  - simpl. destruct (n / 10 =? 0); discriminate.
  - change (digits_fuel (S (S f)) n acc)
      with (if n / 10 =? 0 then Z.to_N (48 + n mod 10) :: acc
            else digits_fuel (S f) (n / 10) (Z.to_N (48 + n mod 10) :: acc)).
    destruct (n / 10 =? 0); [discriminate|apply IH].
Qed.

Lemma of_Z_nonneg_digit (d : Z) : 0 <= d < 10 -> of_Z_nonneg d = [Z.to_N (48 + d)].
Proof.
  intros H. unfold of_Z_nonneg. simpl digits_fuel.
  rewrite Z.div_small, Z.mod_small by lia. reflexivity.
Qed.

Lemma fixed_point_1_digits (ds : jsstring) (f : N) :
  ds <> [] -> Forall (fun c => is_digit c = true) ds -> is_digit f = true ->
  fixed_point_1 (ds ++ [46%N; f]) = true.
Proof.
  intros Hne Hds Hf. induction Hds as [|d t Hd Ht IH]; [congruence|].
  simpl. rewrite Hd. simpl.
  destruct t as [|d' t].
  - simpl. exact Hf.
  - specialize (IH ltac:(discriminate)).
    destruct t as [|d'' t]; simpl app in *; [exact IH|].
    destruct (t ++ [46%N; f]) eqn:E; [destruct t; discriminate E|exact IH].
Qed.

Lemma round_half_up_spec (q : Q) :
  (0 <= q)%Q ->
  0 <= round_half_up q
  /\ (inject_Z (round_half_up q) <= q + (1 # 2))%Q
  /\ (q + (1 # 2) < inject_Z (round_half_up q) + 1)%Q.
Proof.
  intros H. destruct q as [a b]. unfold round_half_up. cbn [Qnum Qden].
  pose proof (Z.div_mod (2 * a + Z.pos b) (2 * Z.pos b) ltac:(lia)) as Hdm.
  pose proof (Z.mod_pos_bound (2 * a + Z.pos b) (2 * Z.pos b) ltac:(lia)) as Hr.
  set (n := (2 * a + Z.pos b) / (2 * Z.pos b)) in *.
  unfold Qle, Qlt, Qplus, inject_Z in *. cbn [Qnum Qden] in *.
  assert (0 <= n) by (apply Z.div_pos; lia).
  rewrite ?Pos2Z.inj_mul. repeat split; nia.
Qed.

(** C8, as the code has it: for counts that are integers, the likes
    count from [0] to below [2^53] and the reads count not negative,
    the engagement with [reads > 0] is the nearest tenth (the larger of
    two) of the computed percentage, written in fixed notation with
    exactly one decimal place, and with [reads = 0] it is the string
    [0]. *)
Theorem engagement_rendering :
  forall (a : article) (l r : Z),
    likes a = of_Z l -> reads a = of_Z r ->
    0 <= l < 2 ^ 53 -> 0 <= r ->
    (0 < r ->
     exists x n,
       mul (div (likes a) (reads a)) (of_Z 100) = Finite x
       /\ n = round_half_up (x * inject_Z 10)
       /\ 0 <= n
       /\ (inject_Z n <= x * inject_Z 10 + (1 # 2))%Q
       /\ (x * inject_Z 10 + (1 # 2) < inject_Z n + 1)%Q
       /\ engagement a = of_Z_nonneg (n / 10) ++ [46%N; Z.to_N (48 + n mod 10)]
       /\ one_decimal_place (engagement a) = true)
    /\ (r = 0 -> engagement a = lit "0").
Proof.
  intros a l r Hl Hr Hlb Hrb. unfold engagement. rewrite Hl, Hr, gt_of_Z.
  split; [|intros ->; reflexivity].
  intros Hpos.
  assert ((0 <? r) = true) as -> by (apply Z.ltb_lt; exact Hpos).
  (* the quotient *)
  assert (exists x1, div (of_Z l) (of_Z r) = Finite x1
                     /\ (0 <= x1)%Q /\ (x1 <= inject_Z (2 ^ 53))%Q) as (x1 & -> & H1a & H1b).
  { unfold div, of_Z.
    assert (Qeq_bool (inject_Z r) 0 = false) as ->.
    { apply not_true_is_false. intros H. apply Qeq_bool_iff in H.
      unfold Qeq in H. simpl in H. lia. }
    apply round_Q_le; [| |lia].
    - destruct r as [|p|p]; try lia. unfold Qle. simpl. lia.
    - destruct r as [|p|p]; try lia. unfold Qle. simpl.
      change (2 ^ 53) with 9007199254740992 in *. nia. }
  (* the product *)
  assert (exists x, mul (Finite x1) (of_Z 100) = Finite x
                    /\ (0 <= x)%Q /\ (x <= inject_Z (2 ^ 60))%Q) as (x & Hx & Ha & Hb).
  { unfold mul, of_Z. apply round_Q_le; [| |lia].
    - destruct x1 as [p q]. unfold Qle in *. simpl in *. lia.
    - destruct x1 as [p q]. unfold Qle in *. simpl in *.
      change (2 ^ 53) with 9007199254740992 in *.
      change (2 ^ 60) with 1152921504606846976 in *. lia. }
  rewrite Hx.
  destruct (round_half_up_spec (x * inject_Z 10)) as (Hn0 & Hn1 & Hn2).
  { destruct x as [p q]. unfold Qle in *. simpl in *. lia. }
  exists x, (round_half_up (x * inject_Z 10)).
  assert (toFixed1 (Finite x)
          = of_Z_nonneg (round_half_up (x * inject_Z 10) / 10)
            ++ [46%N; Z.to_N (48 + round_half_up (x * inject_Z 10) mod 10)]) as Hfix.
  { unfold toFixed1.
    assert (Qabs x = x) as ->.
    { destruct x as [p q]. unfold Qle in Ha. simpl in Ha. unfold Qabs.
      rewrite Z.abs_eq by lia. reflexivity. }
    assert ((x ?= 0)%Q <> Lt) as Hs.
    { pose proof (proj1 (Qle_alt _ _) Ha) as Hc. rewrite <- Qcompare_antisym.
      destruct (0 ?= x)%Q; simpl; congruence. }
    assert (Qle_bool (inject_Z (10 ^ 21)) x = false) as ->.
    { apply not_true_is_false. intros H. apply Qle_bool_iff in H.
      pose proof (Qle_trans _ _ _ H Hb) as C. apply Qle_bool_iff in C.
      vm_compute in C. discriminate C. }
    rewrite (of_Z_nonneg_digit (round_half_up (x * inject_Z 10) mod 10))
      by (apply Z.mod_pos_bound; lia).
    destruct (x ?= 0)%Q; try congruence; reflexivity. }
  repeat split; try assumption.
  rewrite Hfix. unfold one_decimal_place.
  assert (fixed_point_1
            (of_Z_nonneg (round_half_up (x * inject_Z 10) / 10)
             ++ [46%N; Z.to_N (48 + round_half_up (x * inject_Z 10) mod 10)]) = true) as F.
  { apply fixed_point_1_digits.
    - apply digits_fuel_nonempty.
    - apply digits_fuel_digits. constructor.
    - apply digit_of. apply Z.mod_pos_bound. lia. }
  destruct (of_Z_nonneg (round_half_up (x * inject_Z 10) / 10)
            ++ [46%N; Z.to_N (48 + round_half_up (x * inject_Z 10) mod 10)])
    as [|c t] eqn:E; [discriminate F|].
  destruct (N.eq_dec c 45) as [->|Hc].
  - simpl in F. discriminate F.
  - destruct c as [|p]; [exact F|].
    do 6 (destruct p as [p|p|]; try exact F). congruence.
Qed.

Lemma engagement_rendering_witness :
  (0 < 2000 ->
   exists x n,
     mul (div (likes (article_with 3 2000)) (reads (article_with 3 2000))) (of_Z 100) = Finite x
     /\ n = round_half_up (x * inject_Z 10)
     /\ 0 <= n
     /\ (inject_Z n <= x * inject_Z 10 + (1 # 2))%Q
     /\ (x * inject_Z 10 + (1 # 2) < inject_Z n + 1)%Q
     /\ engagement (article_with 3 2000)
        = of_Z_nonneg (n / 10) ++ [46%N; Z.to_N (48 + n mod 10)]
     /\ one_decimal_place (engagement (article_with 3 2000)) = true)
  /\ (2000 = 0 -> engagement (article_with 3 2000) = lit "0").
Proof.
  apply (engagement_rendering (article_with 3 2000) 3 2000).
  - reflexivity.
  - reflexivity.
  - vm_compute. split; [discriminate|reflexivity].
  - lia.
Defined.

(** C8, as stated, fails: with [10^21] likes on one read the engagement
    is written in exponent notation, with no decimal place. *)
Lemma engagement_in_exponent_notation :
  gt (reads (article_with (10 ^ 21) 1)) (of_Z 0) = true
  /\ engagement (article_with (10 ^ 21) 1) = lit "1e+23"
  /\ one_decimal_place (engagement (article_with (10 ^ 21) 1)) = false.
Proof. repeat split; vm_compute; reflexivity. Qed.

(* ================================================================== *)
(** * The recogniser never runs out of steps *)
(* ================================================================== *)

Lemma skip_ws_length (s : jsstring) : (length (skip_ws s) <= length s)%nat.
Proof.
  induction s as [|c t IH]; simpl; [lia|].
  destruct (is_json_ws c); simpl; lia.
Qed.

Lemma take_digits_length (s : jsstring) (acc count v n : Z) (r : jsstring) :
  take_digits s acc count = (v, n, r) -> (length r <= length s)%nat.
Proof.
  revert acc count. induction s as [|c t IH]; intros acc count H; simpl in H.
  - injection H as _ _ <-. simpl. lia.
  - destruct (is_digit c).
    + apply IH in H. simpl. lia.
    + injection H as _ _ <-. lia.
Qed.

Lemma lex_string_shorter (n : nat) :
  forall (s acc str r : jsstring),
    (length s <= n)%nat ->
    lex_string s acc = Some (str, r) -> (length r < length s)%nat.
Proof.
  induction n as [|n IH]; intros s acc str r Hn H.
  - destruct s; [discriminate H|simpl in Hn; lia].
  - destruct s as [|c t]; [discriminate H|]. simpl in Hn. simpl in H.
    destruct (c =? 34)%N.
    { injection H as _ <-. simpl. lia. }
    destruct (c =? 92)%N.
    + destruct t as [|e t']; [discriminate H|]. simpl in Hn.
      repeat match type of H with
             | (if (e =? ?k)%N then _ else _) = _ =>
                 destruct (e =? k)%N;
                 [try (apply IH in H; [simpl; lia|lia])|]
             end; try discriminate H.
      destruct t' as [|h1 [|h2 [|h3 [|h4 t'']]]]; try discriminate H.
      destruct (hex_value h1), (hex_value h2), (hex_value h3), (hex_value h4);
        try discriminate H.
      apply IH in H; simpl in *; lia.
    + destruct (c <? 32)%N; [discriminate H|].
      apply IH in H; simpl; lia.
Qed.

Lemma lex_fraction_length (m : Z) (s : jsstring) (m' n : Z) (r : jsstring) :
  lex_fraction m s = (m', n, r) -> (length r <= length s)%nat.
Proof.
  unfold lex_fraction. intros H.
  destruct s as [|c t]; [injection H as _ _ <-; lia|].
  destruct c as [|p]; [injection H as _ _ <-; lia|].
  do 6 (destruct p as [p|p|]; try (injection H as _ _ <-; lia)).
  destruct (take_digits t m 0) as [[v k] rest] eqn:E.
  apply take_digits_length in E.
  destruct (k =? 0); injection H as _ _ <-; simpl; lia.
Qed.

Lemma lex_exponent_length (s : jsstring) (e : Z) (r : jsstring) :
  lex_exponent s = (e, r) -> (length r <= length s)%nat.
Proof.
  unfold lex_exponent. intros H.
  destruct s as [|c t]; [injection H as _ <-; lia|].
  destruct ((c =? 101) || (c =? 69))%N; [|injection H as _ <-; lia].
  destruct (match t with
            | 43%N :: u => (1, u)
            | 45%N :: u => (- 1, u)
            | _ => (1, t)
            end) as [sgn t1] eqn:Es.
  assert (length t1 <= length t)%nat as Ht.
  { destruct t as [|d u]; [injection Es as _ <-; lia|].
    destruct d as [|p]; [injection Es as _ <-; lia|].
    do 6 (destruct p as [p|p|]; try (injection Es as _ <-; simpl; lia)). }
  destruct (take_digits t1 0 0) as [[v k] rest] eqn:E.
  apply take_digits_length in E.
  destruct (k =? 0); injection H as _ <-; simpl; lia.
Qed.

Lemma lex_unsigned_shorter (s : jsstring) (x : number) (r : jsstring) :
  lex_unsigned s = Some (x, r) -> (length r < length s)%nat.
Proof.
  unfold lex_unsigned. intros H.
  destruct s as [|c t]; [discriminate H|].
  destruct (is_digit c) eqn:D; [|discriminate H].
  destruct (if (c =? 48)%N then (0, t)
            else let '(i, _, r0) := take_digits (c :: t) 0 0 in (i, r0))
    as [i r0] eqn:Ei.
  assert (length r0 <= length t)%nat as H0.
  { destruct (c =? 48)%N; [injection Ei as _ <-; lia|].
    simpl in Ei. rewrite D in Ei.
    destruct (take_digits t _ _) as [[v k] rest] eqn:E.
    apply take_digits_length in E. injection Ei as _ <-. exact E. }
  destruct (lex_fraction i r0) as [[m fd] r1] eqn:Ef.
  apply lex_fraction_length in Ef.
  destruct (lex_exponent r1) as [e r2] eqn:Ee.
  apply lex_exponent_length in Ee.
  injection H as _ <-. simpl. lia.
Qed.

Lemma lex_number_shorter (s : jsstring) (x : number) (r : jsstring) :
  lex_number s = Some (x, r) -> (length r < length s)%nat.
Proof.
  unfold lex_number. intros H.
  assert (forall t, match lex_unsigned t with
                    | Some (y, r') => Some (neg y, r')
                    | None => None
                    end = Some (x, r) -> (length r < length t)%nat) as Hneg.
  { intros t Ht. destruct (lex_unsigned t) as [[y r']|] eqn:E; [|discriminate Ht].
    injection Ht as _ <-. apply lex_unsigned_shorter in E. exact E. }
  destruct s as [|c t]; [apply lex_unsigned_shorter in H; exact H|].
  destruct c as [|p]; [apply lex_unsigned_shorter in H; exact H|].
  do 6 (destruct p as [p|p|]; try (apply lex_unsigned_shorter in H; exact H)).
  apply Hneg in H. simpl. lia.
Qed.

Lemma lex1_shorter (s : jsstring) (t : token) (r : jsstring) :
  lex1 s = Some (t, r) -> (length r < length s)%nat.
Proof.
  unfold lex1. intros H. pose proof (skip_ws_length s) as Hw.
  destruct (skip_ws s) as [|c u]; [discriminate H|]. simpl in Hw.
  repeat match type of H with
         | (if (c =? ?k)%N then _ else _) = _ =>
             destruct (c =? k)%N; [try (injection H as _ <-; lia)|]
         end.
  - destruct (lex_string u []) as [[str r']|] eqn:E; [|discriminate H].
    injection H as _ <-. apply (lex_string_shorter (length u)) in E; lia.
  - assert (forall k tok, Some (tok, skipn (S k) (c :: u)) = Some (t, r) ->
                          (length r < length s)%nat) as Hlit.
    { intros k tok E. assert (r = skipn (S k) (c :: u)) as -> by congruence.
      simpl. rewrite length_skipn. lia. }
    repeat match type of H with
           | (if startsWith ?p ?l then _ else _) = _ =>
               destruct (startsWith p l); [apply (Hlit _ _ H)|]
           end.
    destruct (lex_number (c :: u)) as [[x r']|] eqn:E; [|discriminate H].
    injection H as _ <-. apply lex_number_shorter in E. simpl in E. lia.
Qed.

Lemma run_fuel_irrelevant (f1 : nat) :
  forall (f2 : nat) (st : pstate) (s : jsstring),
    (length s < f1)%nat -> (length s < f2)%nat -> run f1 st s = run f2 st s.
Proof.
  induction f1 as [|f1 IH]; intros f2 st s H1 H2; [lia|].
  destruct f2 as [|f2]; [lia|]. simpl.
  destruct st; try reflexivity;
    (destruct (lex1 s) as [[t r]|] eqn:E; [|reflexivity];
     apply lex1_shorter in E;
     match goal with
     | |- match ?o with _ => _ end = _ => destruct o; [|reflexivity]
     end;
     apply IH; lia).
Qed.

(** More steps than [parse] allows change nothing. *)
Lemma run_fuel (fuel : nat) (s : jsstring) :
  (length s < fuel)%nat -> run fuel (SValue []) s = parse s.
Proof. intros H. apply run_fuel_irrelevant; [exact H|lia]. Qed.

(* ================================================================== *)
(** * The client and the operations around it *)
(* ================================================================== *)

Lemma mute_ret {A} (a : A) : mute (ret a).
Proof. intros w. reflexivity. Qed.

Lemma mute_throw {A} (x : exn) : mute (@throw A x).
Proof. intros w. reflexivity. Qed.

Lemma mute_lift {A} (r : result A) : mute (lift r).
Proof. intros w. reflexivity. Qed.

Lemma mute_bind {A B} (c : M A) (k : A -> M B) :
  mute c -> (forall a, mute (k a)) -> mute (bind c k).
Proof.
  intros Hc Hk w. unfold bind. specialize (Hc w).
  destruct (c w) as [w' [a|x]]; simpl in *; [|exact Hc].
  rewrite Hk. exact Hc.
Qed.

Lemma mute_callOpenAI (e : env) (messages : list message) (temperature : number) :
  mute (callOpenAI e messages temperature).
Proof.
  unfold callOpenAI.
  destruct (OPENAI_API_KEY e) as [|c k]; [apply mute_throw|].
  apply mute_bind; [intros w; reflexivity|]. intros resp.
  destruct (negb (ok resp)).
  - apply mute_bind; [apply mute_lift|intros ?].
    destruct (unconvertible _); apply mute_throw.
  - apply mute_bind.
    { unfold response_json. destruct (json _); [apply mute_ret|apply mute_throw]. }
    intros data.
    repeat (apply mute_bind; [apply mute_lift|intros ?]).
    apply mute_ret.
Qed.

Lemma completion_call (e : env) (op : operation) :
  completion e op = callOpenAI e (messages_of op) (temperature_of op).
Proof. destruct op; reflexivity. Qed.

Lemma run_operation_bind (e : env) (op : operation) (w : world) :
  has_input op ->
  run_operation e op w = bind (completion e op) (respond op) w.
Proof.
  destruct op as [articles|summaries st]; simpl; intros Hi.
  - destruct articles; [congruence|]. reflexivity.
  - destruct summaries; [congruence|]. reflexivity.
Qed.

Lemma silent_respond (op : operation) (response : value) : silent (respond op response).
Proof.
  destruct op; [apply silent_deepAnalyze_response|apply silent_generateInsights_response].
Qed.

(** X1: without a credential an operation on a non-empty input throws
    the configuration error as it is, not the error of its phase, and
    leaves the world untouched: no request is sent and nothing is
    written. *)
Theorem missing_key_stops_operation :
  forall (e : env) (op : operation) (w : world),
    has_input op ->
    OPENAI_API_KEY e = [] ->
    run_operation e op w = (w, Throw ConfigurationError).
Proof.
  intros e op w Hi Hk.
  rewrite run_operation_bind by exact Hi.
  rewrite completion_call. unfold bind, callOpenAI. rewrite Hk. reflexivity.
Qed.

Lemma missing_key_stops_operation_witness :
  run_operation keyless (DeepAnalyze [one_article]) quiet = (quiet, Throw ConfigurationError).
Proof.
  apply (missing_key_stops_operation keyless (DeepAnalyze [one_article]) quiet).
  - simpl. discriminate.
  - reflexivity.
Defined.

(** X2: a failure of the client (no credential, an unreachable
    endpoint, a refused request, a body that is not the expected JSON)
    leaves the operation as it is: the call stands outside the [try]
    block, so the error is not replaced by the error of the phase, and
    nothing is written to the console. *)
Theorem client_failure_passes_through :
  forall (e : env) (op : operation) (w w' : world) (x : exn),
    has_input op ->
    completion e op w = (w', Throw x) ->
    run_operation e op w = (w', Throw x) /\ console w' = console w.
Proof.
  intros e op w w' x Hi Hc. split.
  - rewrite run_operation_bind by exact Hi. unfold bind. rewrite Hc. reflexivity.
  - pose proof (mute_callOpenAI e (messages_of op) (temperature_of op) w) as Hm.
    rewrite <- completion_call, Hc in Hm. exact Hm.
Qed.

Lemma client_failure_passes_through_witness :
  run_operation unreachable (GenerateInsights [VObj []] no_stats) quiet
  = ({| console := [];
        sent := [chat_request unreachable (insights_messages [VObj []] no_stats)
                   (of_decimal 4 (- 1))] |}, Throw NetworkError)
  /\ console {| console := [];
                sent := [chat_request unreachable (insights_messages [VObj []] no_stats)
                           (of_decimal 4 (- 1))] |} = console quiet.
Proof.
  apply (client_failure_passes_through unreachable (GenerateInsights [VObj []] no_stats)
           quiet _ NetworkError).
  - simpl. discriminate.
  - reflexivity.
Defined.

(** X3: with a credential, an operation on a non-empty input sends
    exactly one request, whatever the endpoint answers and whatever the
    response handler does with the answer: to the chat-completions path
    of the configured base, with the configured model and key, and with
    the messages and the temperature of its phase. *)
Theorem operation_sends_its_request :
  forall (e : env) (op : operation) (w : world),
    has_input op ->
    OPENAI_API_KEY e <> [] ->
    sent (fst (run_operation e op w))
    = sent w ++ [ {| req_url := OPENAI_API_BASE e ++ lit "/chat/completions";
                     req_key := OPENAI_API_KEY e;
                     req_model := OPENAI_MODEL e;
                     req_messages := messages_of op;
                     req_temperature := temperature_of op |} ].
Proof.
  intros e op w Hi Hk.
  rewrite run_operation_bind by exact Hi.
  pose proof (callOpenAI_sends_one e (messages_of op) (temperature_of op) w Hk) as Hs.
  rewrite <- completion_call in Hs. unfold bind.
  destruct (completion e op w) as [w' [response|x]]; simpl in Hs |- *.
  - rewrite silent_respond. exact Hs.
  - exact Hs.
Qed.

Lemma operation_sends_its_request_witness :
  sent (fst (run_operation unreachable (DeepAnalyze [one_article]) quiet))
  = sent quiet ++ [ {| req_url := OPENAI_API_BASE unreachable ++ lit "/chat/completions";
                       req_key := OPENAI_API_KEY unreachable;
                       req_model := OPENAI_MODEL unreachable;
                       req_messages := messages_of (DeepAnalyze [one_article]);
                       req_temperature := temperature_of (DeepAnalyze [one_article]) |} ].
Proof.
  apply (operation_sends_its_request unreachable (DeepAnalyze [one_article]) quiet).
  - simpl. discriminate.
  - simpl. discriminate.
Defined.

(** X4: a response with a status other than 2xx never yields a
    completion, whatever its body holds.  The error carries the
    [error.message] of the body when that is truthy and the status text
    otherwise, unless that message cannot be converted to a string, in
    which case building the error text faults with a TypeError; a body
    that [response.json()] cannot parse counts as one with the message
    [Unknown error], so the status text is not used for it; and on the
    body [null] reading the error faults before any message is built. *)
Theorem refused_request_detail :
  forall (e : env) (messages : list message) (temperature : number) (w : world)
         (response : http_response),
    OPENAI_API_KEY e <> [] ->
    fetch e (chat_request e messages temperature) = Some response ->
    ok response = false ->
    let outcome := snd (callOpenAI e messages temperature w) in
    (forall content, outcome <> Ok content)
    /\ (json response = None ->
        outcome = Throw (UpstreamError (VStr (lit "Unknown error"))))
    /\ (json response = Some VNull -> outcome = Throw TypeError)
    /\ (forall error detail,
          json response = Some error ->
          getprop_opt (field error (lit "error")) (lit "message") = Some detail ->
          truthy (Some detail) = true ->
          outcome = if unconvertible detail then Throw TypeError
                    else Throw (UpstreamError detail))
    /\ (forall error,
          json response = Some error ->
          error <> VNull ->
          truthy (getprop_opt (field error (lit "error")) (lit "message")) = false ->
          outcome = Throw (UpstreamError (VStr (statusText response)))).
Proof.
  intros e messages temperature w response Hk Hf Hok outcome.
  assert (outcome =
          match getprop (match json response with
                         | Some v => v
                         | None => unknown_error
                         end) (lit "error") with
          | Ok inner =>
              let detail := or_else (getprop_opt inner (lit "message"))
                                    (VStr (statusText response)) in
              if unconvertible detail then Throw TypeError
              else Throw (UpstreamError detail)
          | Throw x => Throw x
          end) as Ho.
  { unfold outcome, callOpenAI.
    destruct (OPENAI_API_KEY e) as [|c k] eqn:Ek; [congruence|].
    unfold bind, do_fetch. rewrite Hf, Hok. cbn [negb].
    unfold lift. destruct (getprop _ _); [|reflexivity].
    cbv zeta. destruct (unconvertible _); reflexivity. }
  rewrite Ho. clear Ho outcome.
  split; [|split; [|split; [|split]]].
  - intros content. destruct (getprop _ _); [|discriminate].
    cbv zeta. destruct (unconvertible _); discriminate.
  - intros ->. reflexivity.
  - intros ->. reflexivity.
  - intros error detail -> Hd Ht.
    assert (error <> VNull) as Hn by (intros ->; discriminate Hd).
    rewrite (getprop_field _ _ Hn), Hd. unfold or_else. rewrite Ht. reflexivity.
  - intros error -> Hn Ht.
    rewrite (getprop_field _ _ Hn), (or_else_falsy _ _ Ht). reflexivity.
Qed.

Lemma refused_request_detail_witness :
  let response :=
    {| ok := false; statusText := lit "Too Many Requests"; body := marked_refusal |} in
  let outcome :=
    snd (callOpenAI (refusing (lit "Too Many Requests") marked_refusal) []
           (of_decimal 7 (- 1)) quiet) in
  (forall content, outcome <> Ok content)
  /\ (json response = None ->
      outcome = Throw (UpstreamError (VStr (lit "Unknown error"))))
  /\ (json response = Some VNull -> outcome = Throw TypeError)
  /\ (forall error detail,
        json response = Some error ->
        getprop_opt (field error (lit "error")) (lit "message") = Some detail ->
        truthy (Some detail) = true ->
        outcome = if unconvertible detail then Throw TypeError
                  else Throw (UpstreamError detail))
  /\ (forall error,
        json response = Some error ->
        error <> VNull ->
        truthy (getprop_opt (field error (lit "error")) (lit "message")) = false ->
        outcome = Throw (UpstreamError (VStr (lit "Too Many Requests")))).
Proof.
  apply (refused_request_detail (refusing (lit "Too Many Requests") marked_refusal)
           [] (of_decimal 7 (- 1)) quiet
           {| ok := false; statusText := lit "Too Many Requests"; body := marked_refusal |}).
  - simpl. discriminate.
  - reflexivity.
  - reflexivity.
Defined.

(** X5: what the client returns is either truthy or the empty string:
    a first choice without content, or with a falsy one ([null], [0],
    [false]), reads as the empty string.  (It need not be a string: a
    truthy content of another type is returned as it is.) *)
Theorem completion_truthy_or_empty :
  forall (e : env) (messages : list message) (temperature : number) (w : world)
         (content : value),
    snd (callOpenAI e messages temperature w) = Ok content ->
    truthy (Some content) = true \/ content = VStr [].
Proof.
  intros e messages temperature w content.
  unfold callOpenAI.
  destruct (OPENAI_API_KEY e) as [|c k]; [discriminate|].
  unfold bind, do_fetch.
  destruct (fetch e _) as [resp|]; [|discriminate].
  destruct (negb (ok resp)).
  - unfold lift. destruct (getprop _ _); [|discriminate].
    destruct (unconvertible _); discriminate.
  - unfold response_json. destruct (json _) as [data|]; [|discriminate].
    unfold ret at 1. unfold lift.
    destruct (getprop data _) as [choices|]; [|discriminate].
    destruct (index0 choices) as [first|]; [|discriminate].
    unfold ret. simpl. intros H. injection H as <-.
    unfold or_else.
    destruct (getprop_opt _ _) as [v|]; [|right; reflexivity].
    destruct (truthy (Some v)) eqn:T; [left; exact T|right; reflexivity].
Qed.

Lemma completion_truthy_or_empty_witness :
  truthy (Some (VStr (lit "not json"))) = true \/ VStr (lit "not json") = VStr [].
Proof.
  apply (completion_truthy_or_empty (answering prose_body) [] (of_decimal 7 (- 1)) quiet).
  vm_compute. reflexivity.
Defined.

(** X6: of the choices of a success response only the first is read:
    the completion is its [message.content] when that is truthy and the
    empty string otherwise, whatever the choices after it hold. *)
Theorem first_choice_is_the_completion :
  forall (e : env) (messages : list message) (temperature : number) (w : world)
         (response : http_response) (data first : value) (others : list value),
    OPENAI_API_KEY e <> [] ->
    fetch e (chat_request e messages temperature) = Some response ->
    ok response = true ->
    parse (body response) = Some data ->
    field data (lit "choices") = Some (VArr (first :: others)) ->
    snd (callOpenAI e messages temperature w)
    = Ok (or_else (getprop_opt (getprop_opt (Some first) (lit "message")) (lit "content"))
                  (VStr [])).
Proof.
  intros e messages temperature w response data first others Hk Hf Hok Hp Hc.
  assert (data <> VNull) as Hn by (intros ->; discriminate Hc).
  unfold callOpenAI.
  destruct (OPENAI_API_KEY e) as [|c k] eqn:Ek; [congruence|].
  unfold bind, do_fetch. rewrite Hf, Hok. cbn [negb].
  unfold response_json. rewrite (json_parsed _ _ Hp). unfold ret at 1. unfold lift.
  rewrite (getprop_field _ _ Hn), Hc. reflexivity.
Qed.

Lemma first_choice_is_the_completion_witness :
  snd (callOpenAI (answering two_choices_body) [] (of_decimal 7 (- 1)) quiet)
  = Ok (or_else (getprop_opt
                   (getprop_opt (Some (VObj [(lit "message",
                                              VObj [(lit "content", VStr (lit "one"))])]))
                                (lit "message"))
                   (lit "content"))
                (VStr [])).
Proof.
  apply (first_choice_is_the_completion (answering two_choices_body) [] (of_decimal 7 (- 1))
           quiet {| ok := true; statusText := lit "OK"; body := two_choices_body |}
           (VObj [(lit "choices",
                   VArr [ VObj [(lit "message", VObj [(lit "content", VStr (lit "one"))])];
                          VObj [(lit "message", VObj [(lit "content", VStr (lit "two"))])] ])])
           _ [VObj [(lit "message", VObj [(lit "content", VStr (lit "two"))])]]).
  - simpl. discriminate.
  - reflexivity.
  - reflexivity.
  - vm_compute. reflexivity.
  - vm_compute. reflexivity.
Defined.

(* ================================================================== *)
(** * Responses the handlers reject, and records they never look at *)
(* ================================================================== *)

Lemma respond_non_string (op : operation) (v : value) (w : world) :
  (forall s, v <> VStr s) ->
  respond op v w = (logged w [failure_entry op v], Throw (failure op)).
Proof.
  intros Hv. destruct v; try (destruct op; reflexivity).
  exfalso. apply (Hv s). reflexivity.
Qed.

(** X7: a completion that is not a string, or is empty or blank, fails
    the operation with the error of its phase, the completion being
    written to the error console; so does, in particular, a success
    response without choices, which the client reads as the empty
    string. *)
Theorem blank_completion_fails :
  forall (e : env) (op : operation) (w w' : world) (response : value),
    has_input op ->
    completion e op w = (w', Ok response) ->
    (forall s, response = VStr s -> trim s = []) ->
    run_operation e op w
    = (logged w' [failure_entry op response], Throw (failure op)).
Proof.
  intros e op w w' response Hi Hc Hb.
  rewrite (run_operation_call e op w w' response Hi Hc).
  destruct response as [| | |s| |];
    try (apply respond_non_string; intros s; discriminate).
  apply respond_unparsable. rewrite (Hb s eq_refl). reflexivity.
Qed.

Lemma blank_completion_fails_witness :
  run_operation (answering no_choices_body) (DeepAnalyze [one_article]) quiet
  = (logged {| console := [];
               sent := [chat_request (answering no_choices_body)
                          (deepAnalysis_messages [one_article]) (of_decimal 3 (- 1))] |}
            [failure_entry (DeepAnalyze [one_article]) (VStr [])],
     Throw (failure (DeepAnalyze [one_article]))).
Proof.
  apply (blank_completion_fails (answering no_choices_body) (DeepAnalyze [one_article]) quiet).
  - simpl. discriminate.
  - vm_compute. reflexivity.
  - intros s H. injection H as <-. reflexivity.
Defined.




Lemma forEach_from_stops (f : value -> nat -> M unit) (bad : value -> bool)
      (mk : nat -> console_entry) :
  (forall v i w, v <> VNull ->
                 f v i w = (logged w (if bad v then [mk i] else []), Ok tt)) ->
  (forall i w, f VNull i w = (w, Throw TypeError)) ->
  forall l1 l2 i w, Forall (fun v => v <> VNull) l1 ->
    forEach_from f (l1 ++ VNull :: l2) i w
    = (logged w (warnings_from bad mk l1 i), Throw TypeError).
Proof.
  intros Hf Hnull l1 l2. induction l1 as [|v t IH]; intros i w Hl; simpl.
  - unfold bind. rewrite Hnull, logged_nil. reflexivity.
  - inversion Hl; subst. unfold bind.
    rewrite Hf by assumption. rewrite IH by assumption.
    rewrite logged_app. reflexivity.
Qed.

(** X9: a [null] among the records the handler inspects (all of them
    in phase 1, the first ten in phase 2) fails the phase, though the
    response parses and holds an array under the expected key; the
    warnings for the records before the [null] stay on the console,
    followed by the error entry. *)
Theorem null_record_fails_phase :
  forall (r : jsstring) (w : world) (parsed : value) (before after : list value),
    parse (strip_fence (trim r)) = Some parsed ->
    Forall (fun v => v <> VNull) before ->
    (field parsed (lit "summaries") = Some (VArr (before ++ VNull :: after)) ->
     deepAnalyze_response (VStr r) w
     = (logged w (warnings_from summary_incomplete WarnSummaryFields before 0
                  ++ [ErrorParseFailed (VStr r)]),
        Throw DeepAnalysisFailed))
    /\ (field parsed (lit "insights") = Some (VArr (before ++ VNull :: after)) ->
        (length before < 10)%nat ->
        generateInsights_response (VStr r) w
        = (logged w (cap_entry (length (before ++ VNull :: after))
                     :: warnings_from keywords_incomplete WarnInsightKeywords before 0
                     ++ [ErrorInsightsFailed (VStr r)]),
           Throw InsightGenerationFailed)).
Proof.
  intros r w parsed l1 l2 Hp Hl. split.
  - intros Hf.
    assert (parsed <> VNull) as Hn by (intros ->; discriminate Hf).
    unfold deepAnalyze_response, try_catch, deepAnalyze_try, bind.
    simpl call_trim. unfold ret at 1. unfold parse_json. rewrite Hp.
    unfold ret at 1. unfold lift. rewrite (getprop_field _ _ Hn), Hf.
    simpl or_else. simpl forEach.
    rewrite (forEach_from_stops check_summary summary_incomplete WarnSummaryFields
               check_summary_run) by (try exact Hl; reflexivity).
    rewrite write_logged, logged_app. reflexivity.
  - intros Hf Hlen.
    assert (parsed <> VNull) as Hn by (intros ->; discriminate Hf).
    unfold generateInsights_response, try_catch, generateInsights_try, bind.
    simpl call_trim. unfold ret at 1. unfold parse_json. rewrite Hp.
    unfold ret at 1. unfold lift. rewrite (getprop_field _ _ Hn), Hf.
    simpl or_else. rewrite cap_array. simpl forEach.
    assert (firstn 10 (l1 ++ VNull :: l2)
            = l1 ++ VNull :: firstn (10 - length l1 - 1) l2) as ->.
    { rewrite firstn_app.
      rewrite firstn_all2 by lia. f_equal.
      destruct (10 - length l1)%nat as [|n] eqn:E; [lia|].
      rewrite firstn_cons. f_equal. f_equal. lia. }
    rewrite (forEach_from_stops check_insight keywords_incomplete WarnInsightKeywords
               check_insight_run) by (try exact Hl; reflexivity).
    rewrite write_logged, !logged_app. reflexivity.
Qed.

Lemma null_record_fails_phase_witness :
  deepAnalyze_response (VStr null_record_text) quiet
  = (logged quiet (warnings_from summary_incomplete WarnSummaryFields
                     [VObj [(lit "scenario", VStr (lit "s"))]] 0
                   ++ [ErrorParseFailed (VStr null_record_text)]),
     Throw DeepAnalysisFailed)
  /\ generateInsights_response (VStr null_record_text) quiet
     = (logged quiet (cap_entry (length ([VObj [(lit "scenario", VStr (lit "s"))]]
                                         ++ VNull :: [VObj []]))
                      :: warnings_from keywords_incomplete WarnInsightKeywords
                           [VObj [(lit "scenario", VStr (lit "s"))]] 0
                      ++ [ErrorInsightsFailed (VStr null_record_text)]),
        Throw InsightGenerationFailed).
Proof.
  destruct (null_record_fails_phase null_record_text quiet
              (VObj [ (lit "summaries",
                       VArr [VObj [(lit "scenario", VStr (lit "s"))]; VNull; VObj []]);
                      (lit "insights",
                       VArr [VObj [(lit "scenario", VStr (lit "s"))]; VNull; VObj []]) ])
              [VObj [(lit "scenario", VStr (lit "s"))]] [VObj []]) as [H1 H2].
  - vm_compute. reflexivity.
  - repeat constructor; discriminate.
  - split.
    + apply H1. vm_compute. reflexivity.
    + apply H2; [vm_compute; reflexivity|simpl; lia].
Defined.

(** X10: phase 2 looks at the first ten records only.  When each of
    them has a number other than NaN for its confidence, the records after the tenth
    are neither inspected nor compared nor returned, so a [null] or a
    confidence that cannot be converted among them does no harm; the
    ten are returned by descending confidence, ties in the order of the
    input, and the count written to the console is that of all the
    records the model sent. *)
Theorem records_after_tenth_ignored :
  forall (r : jsstring) (w : world) (parsed : value) (l : list value),
    parse (strip_fence (trim r)) = Some parsed ->
    field parsed (lit "insights") = Some (VArr l) ->
    Forall rated (firstn 10 l) ->
    generateInsights_response (VStr r) w
    = (logged w (cap_entry (length l)
                 :: warnings_from keywords_incomplete WarnInsightKeywords (firstn 10 l) 0),
       Ok (VArr (sort by_rating (firstn 10 l)))).
Proof.
  intros r w parsed l Hp Hf Hl.
  assert (parsed <> VNull) as Hn by (intros ->; discriminate Hf).
  rewrite (insights_array_run r w parsed l Hp).
  - do 2 f_equal. f_equal. apply sort_agree. intros a b Ha Hb.
    rewrite Forall_forall in Hl.
    destruct (Hl a Ha) as (x & Hx & _). destruct (Hl b Hb) as (y & Hy & _).
    unfold by_confidence, by_rating. rewrite Hx, Hy.
    destruct (rated_converts a x Hx) as (_ & -> & _).
    destruct (rated_converts b y Hy) as (_ & -> & _). reflexivity.
  - rewrite (getprop_field _ _ Hn), Hf. reflexivity.
  - eapply Forall_impl; [|exact Hl]. intros v (x & Hx & _). apply (rated_converts v x Hx).
  - eapply Forall_impl; [|exact Hl]. intros v (x & Hx & _). exists x.
    apply (rated_converts v x Hx).
Qed.

Lemma records_after_tenth_ignored_witness :
  generateInsights_response (VStr twelve_text) quiet
  = (logged quiet
       (cap_entry (length (map scored [70; 71; 72; 73; 74; 75; 76; 77; 78; 79]
                           ++ [VObj [(lit "confidence", VObj [(lit "toString", VNum (of_Z 0))])];
                               VNull]))
        :: warnings_from keywords_incomplete WarnInsightKeywords
             (firstn 10 (map scored [70; 71; 72; 73; 74; 75; 76; 77; 78; 79]
                         ++ [VObj [(lit "confidence", VObj [(lit "toString", VNum (of_Z 0))])];
                             VNull])) 0),
     Ok (VArr (sort by_rating
                 (firstn 10 (map scored [70; 71; 72; 73; 74; 75; 76; 77; 78; 79]
                             ++ [VObj [(lit "confidence",
                                        VObj [(lit "toString", VNum (of_Z 0))])];
                                 VNull]))))).
Proof.
  apply (records_after_tenth_ignored twelve_text quiet
           (VObj [(lit "insights",
                   VArr (map scored [70; 71; 72; 73; 74; 75; 76; 77; 78; 79]
                         ++ [VObj [(lit "confidence", VObj [(lit "toString", VNum (of_Z 0))])];
                             VNull]))])).
  - vm_compute. reflexivity.
  - reflexivity.
  - repeat constructor; eexists; (split; [reflexivity|discriminate]).
Defined.

Lemma sort_all_tied {A} (cmp : A -> A -> option comparison) (l : list A) :
  (forall a b, In a l -> In b l -> before cmp a b = true) -> sort cmp l = l.
Proof.
  induction l as [|a t IH]; intros H; [reflexivity|].
  simpl. rewrite IH by (intros x y Hx Hy; apply H; right; assumption).
  destruct t as [|b u]; [reflexivity|].
  simpl. rewrite H; [reflexivity|left; reflexivity|right; left; reflexivity].
Qed.

(** X11: when the confidence of every record that is kept converts to
    NaN (the member is absent, or holds a word), the comparator yields
    NaN for every pair and phase 2 returns the records in the order the
    model sent them. *)
Theorem unscored_insights_keep_order :
  forall (r : jsstring) (w : world) (parsed : value) (l : list value),
    parse (strip_fence (trim r)) = Some parsed ->
    field parsed (lit "insights") = Some (VArr l) ->
    Forall (fun v => v <> VNull /\ ToNumber (field v (lit "confidence")) = Ok NaN)
           (firstn 10 l) ->
    snd (generateInsights_response (VStr r) w) = Ok (VArr (firstn 10 l)).
Proof.
  intros r w parsed l Hp Hf Hl.
  assert (parsed <> VNull) as Hn by (intros ->; discriminate Hf).
  assert (Forall (fun v => confidence_of v = Ok NaN) (firstn 10 l)) as Hc.
  { eapply Forall_impl; [|exact Hl]. intros v [Hv Hx].
    unfold confidence_of. rewrite (getprop_field v _ Hv). exact Hx. }
  rewrite (insights_array_run r w parsed l Hp).
  - cbn [snd]. rewrite sort_all_tied; [reflexivity|].
    intros a b Ha Hb. rewrite Forall_forall in Hc.
    unfold before, by_confidence, confidence. rewrite (Hc b Hb). reflexivity.
  - rewrite (getprop_field _ _ Hn), Hf. reflexivity.
  - eapply Forall_impl; [|exact Hl]. intros v [Hv _]. exact Hv.
  - eapply Forall_impl; [|exact Hc]. intros v Hv. exists NaN. exact Hv.
Qed.

Lemma unscored_insights_keep_order_witness :
  snd (generateInsights_response (VStr graded_text) quiet)
  = Ok (VArr (firstn 10 [graded (lit "low"); graded (lit "high"); graded (lit "medium")])).
Proof.
  apply (unscored_insights_keep_order graded_text quiet
           (VObj [(lit "insights",
                   VArr [graded (lit "low"); graded (lit "high"); graded (lit "medium")])])).
  - vm_compute. reflexivity.
  - reflexivity.
  - repeat constructor; try discriminate; vm_compute; reflexivity.
Defined.

(* ================================================================== *)
(** * The fence *)
(* ================================================================== *)

Lemma trimStart_blank (ws s : jsstring) :
  blank ws = true -> trimStart (ws ++ s) = trimStart s.
Proof.
  induction ws as [|c t IH]; simpl; intros H; [reflexivity|].
  apply andb_true_iff in H. destruct H as [Hc Ht]. rewrite Hc. apply IH, Ht.
Qed.

Lemma trimStart_head (c : N) (s : jsstring) :
  is_space c = false -> trimStart (c :: s) = c :: s.
Proof. intros H. simpl. rewrite H. reflexivity. Qed.

Lemma blank_rev (ws : jsstring) : blank ws = true -> blank (rev ws) = true.
Proof.
  unfold blank. rewrite !forallb_forall. intros H x Hx. apply H, in_rev, Hx.
Qed.

Lemma trimEnd_blank (s ws : jsstring) :
  blank ws = true -> trimEnd (s ++ ws) = trimEnd s.
Proof.
  intros H. unfold trimEnd. rewrite rev_app_distr.
  rewrite trimStart_blank by (apply blank_rev, H). reflexivity.
Qed.

Lemma trimEnd_last (s : jsstring) (c : N) :
  is_space c = false -> trimEnd (s ++ [c]) = s ++ [c].
Proof.
  intros H. unfold trimEnd. rewrite rev_app_distr.
  change (rev [c] ++ rev s) with (c :: rev s). rewrite trimStart_head by exact H.
  change (c :: rev s) with ([c] ++ rev s). rewrite rev_app_distr, rev_involutive.
  reflexivity.
Qed.

Lemma blank_app (a b : jsstring) :
  blank a = true -> blank b = true -> blank (a ++ b) = true.
Proof. intros Ha Hb. unfold blank. rewrite forallb_app. apply andb_true_iff. split; assumption. Qed.

(** A text without white space at its ends is what [trim] leaves of it
    when white space is put around. *)
Lemma trim_padded (pre s post : jsstring) :
  blank pre = true -> blank post = true -> tight s = true ->
  trim (pre ++ s ++ post) = s.
Proof.
  intros Hpre Hpost Hs. unfold trim.
  rewrite trimStart_blank by exact Hpre.
  destruct s as [|c t].
  - simpl app.
    assert (trimStart post = []) as ->.
    { rewrite <- (app_nil_r post). rewrite trimStart_blank by exact Hpost. reflexivity. }
    reflexivity.
  - unfold tight in Hs. apply andb_true_iff in Hs. destruct Hs as [Hc Hl].
    apply negb_true_iff in Hc, Hl.
    change ((c :: t) ++ post) with (c :: (t ++ post)).
    rewrite trimStart_head by exact Hc.
    change (c :: (t ++ post)) with ((c :: t) ++ post).
    rewrite trimEnd_blank by exact Hpost.
    destruct (exists_last (l := c :: t)) as (u & d & E); [discriminate|].
    rewrite E in Hl |- *. rewrite last_last in Hl.
    apply trimEnd_last, Hl.
Qed.

Lemma startsWith_app (p s : jsstring) : startsWith p (p ++ s) = true.
Proof.
  induction p as [|c t IH]; [reflexivity|]. simpl. rewrite N.eqb_refl. exact IH.
Qed.

Lemma remove_first_unfold (p s : jsstring) :
  remove_first p s
  = if startsWith p s then skipn (length p) s
    else match s with
         | [] => []
         | c :: t => c :: remove_first p t
         end.
Proof. destruct s; reflexivity. Qed.

Lemma remove_first_head (p s : jsstring) : remove_first p (p ++ s) = s.
Proof.
  rewrite remove_first_unfold, startsWith_app.
  rewrite skipn_app, skipn_all, Nat.sub_diag. reflexivity.
Qed.

Lemma remove_first_unticked (x y : jsstring) :
  unticked x = true ->
  remove_first (lit "```") (x ++ lit "```" ++ y) = x ++ y.
Proof.
  induction x as [|c t IH]; intros H.
  - apply (remove_first_head (lit "```") y).
  - simpl in H. apply andb_true_iff in H. destruct H as [Hc Ht].
    apply negb_true_iff in Hc.
    change ((c :: t) ++ lit "```" ++ y) with (c :: (t ++ lit "```" ++ y)).
    cbn [remove_first].
    assert (startsWith (lit "```") (c :: t ++ lit "```" ++ y) = false) as ->.
    { change (lit "```") with [96%N; 96%N; 96%N].
      cbn [startsWith]. rewrite N.eqb_sym, Hc. reflexivity. }
    rewrite IH by exact Ht. reflexivity.
Qed.

Lemma blank_unticked (ws : jsstring) : blank ws = true -> unticked ws = true.
Proof.
  unfold blank, unticked. rewrite !forallb_forall. intros H x Hx.
  specialize (H x Hx). destruct (N.eqb_spec x 96); [subst x; discriminate H|reflexivity].
Qed.

(** X12: a body without a backtick and without white space at its ends,
    put between [```json] and [```] with any white space inside and
    around the fence, is what the cleaning step hands to [JSON.parse]. *)
Theorem fence_removed :
  forall (pre inner1 body inner2 post : jsstring),
    blank pre = true -> blank inner1 = true ->
    blank inner2 = true -> blank post = true ->
    tight body = true -> unticked body = true ->
    strip_fence (trim (pre ++ lit "```json" ++ inner1 ++ body ++ inner2 ++ lit "```" ++ post))
    = body.
Proof.
  intros pre ws1 b ws2 post Hpre H1 H2 Hpost Ht Hu.
  assert (trim (pre ++ lit "```json" ++ ws1 ++ b ++ ws2 ++ lit "```" ++ post)
          = lit "```json" ++ ws1 ++ b ++ ws2 ++ lit "```") as ->.
  { replace (pre ++ lit "```json" ++ ws1 ++ b ++ ws2 ++ lit "```" ++ post)
      with (pre ++ (lit "```json" ++ ws1 ++ b ++ ws2 ++ lit "```") ++ post)
      by (rewrite <- !app_assoc; reflexivity).
    apply trim_padded; [exact Hpre|exact Hpost|].
    change (lit "```json") with ([96%N] ++ lit "``json").
    rewrite <- app_assoc. cbn [app tight].
    change (lit "```") with (lit "``" ++ [96%N]).
    rewrite !app_comm_cons, !app_assoc, last_last. reflexivity. }
  unfold strip_fence. rewrite startsWith_app, remove_first_head.
  replace (ws1 ++ b ++ ws2 ++ lit "```") with ((ws1 ++ b ++ ws2) ++ lit "```" ++ [])
    by (rewrite app_nil_r, <- !app_assoc; reflexivity).
  rewrite remove_first_unticked.
  - rewrite app_nil_r. apply trim_padded; assumption.
  - unfold unticked. rewrite !forallb_app.
    fold (unticked ws1) (unticked b) (unticked ws2).
    rewrite Hu, !blank_unticked by assumption. reflexivity.
Qed.

Lemma fence_removed_witness :
  strip_fence (trim ([32%N] ++ lit "```json" ++ [10%N] ++ quoted "{'insights':[]}"
                     ++ [10%N] ++ lit "```" ++ [10%N]))
  = quoted "{'insights':[]}".
Proof.
  apply (fence_removed [32%N] [10%N] (quoted "{'insights':[]}") [10%N] [10%N]);
    reflexivity.
Defined.

Lemma parse_backtick (t : jsstring) : parse (96%N :: t) = None.
Proof. reflexivity. Qed.

(** X13: a fence is removed only when the trimmed response starts with
    the tag in lower case: a response that starts with a backtick
    otherwise (a fence without a tag, or with another one) is handed to
    [JSON.parse] as it is, and the phase fails. *)
Theorem untagged_fence_fails :
  forall (op : operation) (r rest : jsstring) (w : world),
    trim r = 96%N :: rest ->
    startsWith (lit "```json") (trim r) = false ->
    strip_fence (trim r) = trim r
    /\ respond op (VStr r) w = (logged w [failure_entry op (VStr r)], Throw (failure op)).
Proof.
  intros op r rest w Ht Hs.
  assert (strip_fence (trim r) = trim r) as Hf by (unfold strip_fence; rewrite Hs; reflexivity).
  split; [exact Hf|].
  apply respond_unparsable. rewrite Hf, Ht. apply parse_backtick.
Qed.

Lemma untagged_fence_fails_witness :
  strip_fence (trim (lit "```" ++ [10%N] ++ quoted "{'insights':[]}" ++ [10%N] ++ lit "```"))
  = trim (lit "```" ++ [10%N] ++ quoted "{'insights':[]}" ++ [10%N] ++ lit "```")
  /\ respond (GenerateInsights [VObj []] no_stats)
       (VStr (lit "```" ++ [10%N] ++ quoted "{'insights':[]}" ++ [10%N] ++ lit "```")) quiet
     = (logged quiet
          [failure_entry (GenerateInsights [VObj []] no_stats)
             (VStr (lit "```" ++ [10%N] ++ quoted "{'insights':[]}" ++ [10%N] ++ lit "```"))],
        Throw (failure (GenerateInsights [VObj []] no_stats))).
Proof.
  apply (untagged_fence_fails (GenerateInsights [VObj []] no_stats)
           (lit "```" ++ [10%N] ++ quoted "{'insights':[]}" ++ [10%N] ++ lit "```")
           (tl (trim (lit "```" ++ [10%N] ++ quoted "{'insights':[]}" ++ [10%N] ++ lit "```")))
           quiet).
  - vm_compute. reflexivity.
  - vm_compute. reflexivity.
Defined.

(* ================================================================== *)
(** * The rows of the phase-1 prompt *)
(* ================================================================== *)





(* ================================================================== *)
(** * The word cloud on any keywords *)
(* ================================================================== *)

(** One more occurrence of any word [w], on properties of distinct
    names. *)
Lemma update_tallies (w : jsstring) (T : jsstring -> tally) (ds : list jsstring) :
  NoDup ds ->
  update w (map (fun x => (x, T x)) ds)
  = map (fun x => (x, if JsString.eqb w x then bump (T x) else T x)) ds
    ++ (if existsb (JsString.eqb w) ds then []
        else [(w, if inherited w then NotANumber else Count 1)]).
Proof.
  intros Hd. induction Hd as [|x ds Hx Hd IH]; simpl; [reflexivity|].
  destruct (JsString.eqb w x) eqn:E; simpl.
  - apply eqb_eq in E. subst x. rewrite app_nil_r. f_equal.
    apply map_ext_in. intros y Hy.
    assert (JsString.eqb w y = false) as -> by (apply eqb_neq; congruence).
    reflexivity.
  - rewrite IH. reflexivity.
Qed.

Lemma own_words_In (ks : list jsstring) (x : jsstring) :
  In x (own_words ks) <-> In x ks /\ JsString.eqb x (lit "__proto__") = false.
Proof.
  unfold own_words. rewrite distinct_In, filter_In.
  split; intros [H1 H2]; (split; [exact H1|]).
  - apply negb_true_iff, H2.
  - apply negb_true_iff, H2.
Qed.

Lemma occurrences_absent (w : jsstring) (ks : list jsstring) :
  ~ In w ks -> occurrences w ks = 0.
Proof.
  intros H. pose proof (occurrences_nonneg w ks). pose proof (occurrences_In w ks) as HI.
  destruct (Z.eq_dec (occurrences w ks) 0) as [E|N]; [exact E|].
  exfalso. apply H, HI. lia.
Qed.

(** The own properties of [wordCount] after any keywords were
    counted. *)
Lemma wordCount_own (ks : list jsstring) :
  fold_left count_word ks [] = map (fun w => (w, tally_of ks w)) (own_words ks).
Proof.
  induction ks as [|w ks IH] using rev_ind; [reflexivity|].
  rewrite fold_left_app. cbn [fold_left]. rewrite IH.
  unfold count_word, own_words. rewrite filter_app. cbn [filter].
  destruct (JsString.eqb w (lit "__proto__")) eqn:Ep; cbn [negb].
  - rewrite app_nil_r. apply map_ext_in. intros x Hx.
    apply own_words_In in Hx. destruct Hx as [_ Hx].
    unfold tally_of. rewrite occurrences_snoc.
    assert (JsString.eqb w x = false) as ->.
    { apply eqb_neq. intros ->. congruence. }
    rewrite Z.add_0_r. reflexivity.
  - fold (own_words ks). rewrite update_tallies by apply distinct_NoDup.
    rewrite distinct_snoc, map_app. fold (own_words ks).
    assert (existsb (JsString.eqb w) (own_words ks)
            = existsb (JsString.eqb w)
                (filter (fun w0 => negb (JsString.eqb w0 (lit "__proto__"))) ks)) as ->.
    { apply eq_true_iff_eq. rewrite !existsb_eqb_In. apply distinct_In. }
    f_equal.
    + apply map_ext. intros x. unfold tally_of. rewrite occurrences_snoc.
      destruct (inherited x); [destruct (JsString.eqb w x); reflexivity|].
      destruct (JsString.eqb w x); [reflexivity|]. rewrite Z.add_0_r. reflexivity.
    + destruct (existsb _ _) eqn:E; [reflexivity|].
      cbn [map]. unfold tally_of. rewrite occurrences_snoc, eqb_refl.
      rewrite occurrences_absent; [reflexivity|].
      intros Hin. apply not_true_iff_false in E. apply E.
      apply existsb_eqb_In, filter_In. split; [exact Hin|]. rewrite Ep. reflexivity.
Qed.

Lemma own_words_NoDup (ks : list jsstring) : NoDup (own_words ks).
Proof. apply distinct_NoDup. Qed.

Lemma ranked_entries_perm (own : list (jsstring * tally)) :
  Permutation (sort by_count (entries own)) own.
Proof.
  eapply perm_trans; [apply sort_perm|apply entries_perm].
Qed.

Lemma with_size_length (l : list (jsstring * tally)) (k : Z) :
  length (with_size l k) = length l.
Proof.
  revert k. induction l as [|[w c] t IH]; intros k; [reflexivity|].
  simpl. rewrite IH. reflexivity.
Qed.

(** X15: whatever the keywords, the word cloud has at most 20 entries,
    one for each of that many distinct keywords and none for
    [__proto__]; every entry holds a keyword with the number of its
    occurrences, or, for a keyword that names a member of
    [Object.prototype], no number at all; the sizes lie between 20 and
    48; and when there are no more than 20 distinct keywords all of
    them are listed. *)
Theorem word_cloud_shape :
  forall (summaries : list ArticleSummary),
    let ks := allKeywords summaries in
    let cloud := generateWordCloud summaries in
    length cloud = Nat.min 20 (length (own_words ks))
    /\ NoDup (map word cloud)
    /\ (forall e, In e cloud ->
          In (word e) ks
          /\ word e <> lit "__proto__"
          /\ count e = (if inherited (word e) then NotANumber
                        else Count (occurrences (word e) ks))
          /\ 20 <= size e <= 48)
    /\ ((length (own_words ks) <= 20)%nat ->
        forall w, In w ks -> w <> lit "__proto__" -> In w (map word cloud)).
Proof.
  intros summaries ks cloud.
  set (own := map (fun w => (w, tally_of ks w)) (own_words ks)).
  set (ranked := sort by_count (entries own)).
  assert (cloud = with_size (firstn 20 ranked) 0) as Hc.
  { unfold cloud, generateWordCloud. fold ks. rewrite wordCount_own. reflexivity. }
  assert (Permutation ranked own) as Hp by apply ranked_entries_perm.
  assert (map fst own = own_words ks) as Hw.
  { unfold own. rewrite map_map. simpl. apply map_id. }
  assert (map (fun e => (word e, count e)) cloud = firstn 20 ranked) as Hpairs
    by (rewrite Hc; apply with_size_words).
  assert (map word cloud = firstn 20 (map fst ranked)) as Hwords.
  { rewrite firstn_map, <- Hpairs, map_map. reflexivity. }
  assert (forall e, In e cloud -> In (word e, count e) own) as Hin.
  { intros e He. apply (Permutation_in _ Hp).
    rewrite <- (firstn_skipn 20 ranked). apply in_or_app. left.
    rewrite <- Hpairs. apply (in_map (fun e => (word e, count e))), He. }
  split; [|split; [|split]].
  - rewrite Hc, with_size_length, length_firstn.
    rewrite (Permutation_length Hp). unfold own. rewrite length_map. reflexivity.
  - rewrite Hwords. apply NoDup_firstn_of.
    apply (Permutation_NoDup (l := map fst own)).
    + apply Permutation_map, Permutation_sym, Hp.
    + rewrite Hw. apply own_words_NoDup.
  - intros e He. pose proof (Hin e He) as H.
    unfold own in H. apply in_map_iff in H.
    destruct H as (x & E & Hx). injection E as Ex Ec.
    apply own_words_In in Hx. destruct Hx as [Hk Hn]. subst x.
    split; [exact Hk|]. split; [apply eqb_neq, Hn|]. split; [symmetry; exact Ec|].
    apply In_nth_error in He. destruct He as (i & Hi). rewrite Hc in Hi.
    apply with_size_nth in Hi. destruct Hi as [_ ->]. lia.
  - intros Hle w Hk Hn. rewrite Hwords.
    rewrite firstn_all2.
    + apply (Permutation_in (l := map fst own)).
      * apply Permutation_map, Permutation_sym, Hp.
      * rewrite Hw. apply own_words_In. split; [exact Hk|]. apply eqb_neq, Hn.
    + rewrite length_map, (Permutation_length Hp). unfold own. rewrite length_map. exact Hle.
Qed.

Lemma word_cloud_shape_witness :
  In (lit "toString") (map word (generateWordCloud [summary_with odd_keywords])).
Proof.
  destruct (word_cloud_shape [summary_with odd_keywords]) as (_ & _ & _ & H).
  apply H.
  - vm_compute. lia.
  - vm_compute. tauto.
  - discriminate.
Defined.

(* ================================================================== *)
(** * Sorting by a numeric key, descending *)
(* ================================================================== *)

Section ByKey.
Context {A : Type} (key : A -> number).

Let descending (a b : A) : option comparison := sub_sign (key b) (key a).

Lemma before_key (a b : A) :
  key a <> NaN -> key b <> NaN ->
  (before descending a b = true <-> num_le (key b) (key a)).
Proof. intros Ha Hb. unfold before, descending. apply sub_sign_num_le; assumption. Qed.

Lemma key_sorted (l : list A) :
  Forall (fun a => key a <> NaN) l ->
  StronglySorted (fun a b => num_le (key b) (key a)) (sort descending l).
Proof.
  intros Hl.
  assert (Forall (fun a => key a <> NaN) (sort descending l)) as Hs.
  { rewrite Forall_forall in *. intros x Hx.
    apply Hl. apply (Permutation_in _ (sort_perm descending l)). exact Hx. }
  assert (StronglySorted (fun a b => before descending a b = true)
                         (sort descending l)) as H.
  { apply (sort_sorted descending (fun a => key a <> NaN)); [| |exact Hl].
    - intros a b Ha Hb.
      destruct (num_le_total (key b) (key a) Hb Ha) as [H|H];
        [left|right]; apply before_key; assumption.
    - intros a b c Ha Hb Hc Hab Hbc.
      apply before_key in Hab; try assumption.
      apply before_key in Hbc; try assumption.
      apply before_key; try assumption.
      apply num_le_trans with (key b); assumption. }
  induction H as [|a t Ht IH Ha]; constructor.
  - apply IH. inversion Hs; assumption.
  - inversion Hs as [|? ? Hia Hit]; subst.
    rewrite Forall_forall in *. intros x Hx.
    apply before_key; auto.
Qed.

Lemma num_eqb_refl (x : number) : x <> NaN -> num_eqb x x = true.
Proof.
  destruct x as [q|s|]; simpl; intros H.
  - apply Qeq_bool_iff. reflexivity.
  - apply Bool.eqb_reflx.
  - congruence.
Qed.

Lemma num_eqb_both (x y c : number) :
  num_eqb x c = true -> num_eqb y c = true -> num_eqb x y = true.
Proof.
  destruct x as [p|s|], y as [q|t|], c as [u|v|]; simpl; try discriminate.
  - intros Hx Hy. apply Qeq_bool_iff in Hx, Hy. apply Qeq_bool_iff.
    rewrite Hx, Hy. reflexivity.
  - intros Hx Hy. apply Bool.eqb_prop in Hx, Hy. subst. apply Bool.eqb_reflx.
Qed.

Lemma key_stable (c : number) (l : list A) :
  filter (fun v => num_eqb (key v) c) (sort descending l)
  = filter (fun v => num_eqb (key v) c) l.
Proof.
  apply sort_filter. intros x y Hx Hy.
  unfold before, descending. apply num_eqb_tied.
  apply num_eqb_both with c; assumption.
Qed.

(** Of two elements with the same key the one that stands first in the
    sorted list stood first before. *)
Lemma key_ties_in_order (a b : A) (l : list A) :
  num_eqb (key a) (key b) = true ->
  occurs_before a b (sort descending l) -> occurs_before a b l.
Proof.
  intros Hab H.
  apply occurs_before_filter with (fun v => num_eqb (key v) (key b)).
  rewrite <- key_stable.
  apply occurs_before_in_filter; [exact Hab| |exact H].
  apply num_eqb_refl. intros E. rewrite E in Hab.
  destruct (key a); discriminate Hab.
Qed.

End ByKey.

Lemma sorted_prefix {A} (R : A -> A -> Prop) (x y : list A) :
  StronglySorted R (x ++ y) -> StronglySorted R x.
Proof.
  induction x as [|a x IH]; intros H; [constructor|].
  simpl in H. inversion H as [|? ? Ht Hf]; subst. constructor.
  - apply IH, Ht.
  - rewrite Forall_forall in *. intros z Hz. apply Hf, in_or_app. left. exact Hz.
Qed.

Lemma sorted_image {A B} (f : A -> B) (R : A -> A -> Prop) (Q : B -> B -> Prop)
      (l : list A) :
  (forall a b, R a b -> Q (f a) (f b)) ->
  StronglySorted R l -> StronglySorted Q (map f l).
Proof.
  intros HRQ H. induction H as [|a t Ht IH Ha]; simpl; constructor.
  - exact IH.
  - rewrite Forall_forall in *. intros y Hy.
    apply in_map_iff in Hy. destruct Hy as (x & <- & Hx). apply HRQ, Ha, Hx.
Qed.

(* ================================================================== *)
(** * The rankings of the page *)
(* ================================================================== *)

Lemma or_zero_number (x : option number) : Page.or_zero x <> NaN.
Proof.
  destruct x as [[q|s|]|]; simpl; try discriminate.
  destruct (Qeq_bool q 0); discriminate.
Qed.

(** X16: the ranking by likes sorts before it cuts: on a non-empty
    list it returns one row for each of the [articleCount] most liked
    articles (for all of them when there are fewer), in descending order
    of likes, a missing count reading as 0 and articles with the same
    likes keeping the order of the input. *)
Theorem top_likes_ranking :
  forall (articles : list Page.WeChat.Article) (articleCount : nat),
    articles <> [] ->
    exists kept dropped,
      Page.getTopLikesArticles articles articleCount = map Page.likes_row kept
      /\ Permutation (kept ++ dropped) articles
      /\ length kept = Nat.min articleCount (length articles)
      /\ StronglySorted (fun r s => num_le (Page.likes s) (Page.likes r))
                        (Page.getTopLikesArticles articles articleCount)
      /\ (forall a b, In a kept -> In b dropped ->
            num_le (Page.or_zero (Page.WeChat.praise b))
                   (Page.or_zero (Page.WeChat.praise a)))
      /\ (forall a b,
            num_eqb (Page.or_zero (Page.WeChat.praise a))
                    (Page.or_zero (Page.WeChat.praise b)) = true ->
            occurs_before a b kept -> occurs_before a b articles).
Proof.
  intros articles n Hne.
  set (key := fun a => Page.or_zero (Page.WeChat.praise a)).
  set (ranked := sort Page.by_praise articles).
  assert (StronglySorted (fun a b => num_le (key b) (key a)) ranked) as Hs.
  { apply (key_sorted key). apply Forall_forall. intros a _. apply or_zero_number. }
  assert (Page.getTopLikesArticles articles n = map Page.likes_row (firstn n ranked)) as Hr.
  { unfold Page.getTopLikesArticles. destruct articles; [congruence|reflexivity]. }
  exists (firstn n ranked), (skipn n ranked).
  split; [exact Hr|].
  split; [rewrite firstn_skipn; apply sort_perm|].
  split; [rewrite length_firstn; unfold ranked; rewrite sort_length; reflexivity|].
  split; [|split].
  - rewrite Hr. apply sorted_image with (R := fun a b => num_le (key b) (key a)).
    + intros a b H. exact H.
    + apply sorted_prefix with (skipn n ranked). rewrite firstn_skipn. exact Hs.
  - intros a b Ha Hb.
    apply (sorted_app (fun a b => num_le (key b) (key a)) (firstn n ranked) (skipn n ranked));
      [rewrite firstn_skipn; exact Hs|exact Ha|exact Hb].
  - intros a b Hab H.
    apply (key_ties_in_order key a b articles Hab).
    apply occurs_before_firstn with n. exact H.
Qed.

Lemma top_likes_ranking_witness :
  exists kept dropped,
    Page.getTopLikesArticles posts 3 = map Page.likes_row kept
    /\ Permutation (kept ++ dropped) posts
    /\ length kept = Nat.min 3 (length posts)
    /\ StronglySorted (fun r s => num_le (Page.likes s) (Page.likes r))
                      (Page.getTopLikesArticles posts 3)
    /\ (forall a b, In a kept -> In b dropped ->
          num_le (Page.or_zero (Page.WeChat.praise b))
                 (Page.or_zero (Page.WeChat.praise a)))
    /\ (forall a b,
          num_eqb (Page.or_zero (Page.WeChat.praise a))
                  (Page.or_zero (Page.WeChat.praise b)) = true ->
          occurs_before a b kept -> occurs_before a b posts).
Proof.
  apply (top_likes_ranking posts 3). discriminate.
Defined.

Lemma round_Q_number (q : Q) : round_Q q <> NaN.
Proof.
  unfold round_Q, round_frac.
  destruct (Qnum q ?= 0); try discriminate; unfold round_pos.
  - destruct (_ <=? _); discriminate.
  - destruct (_ <=? _); discriminate.
Qed.

Lemma ratio_number (a : Page.WeChat.Article) :
  Page.was_read a = true -> finite_praise a -> Page.ratio a <> NaN.
Proof.
  unfold Page.was_read, Page.ratio, finite_praise.
  destruct (Page.WeChat.read a) as [[q|s|]|]; simpl; try discriminate.
  - intros Hq Hp.
    assert (Qeq_bool q 0 = false) as Hz.
    { unfold gt, sub_sign, of_Z in Hq. change (inject_Z 0) with 0%Q in Hq.
      destruct (q ?= 0)%Q eqn:E; try discriminate Hq.
      apply not_true_iff_false. intros H. apply Qeq_bool_iff in H.
      rewrite Qeq_alt in H. congruence. }
    destruct (Page.WeChat.praise a) as [[p|t|]|]; simpl; try contradiction.
    + destruct (Qeq_bool p 0); simpl; rewrite Hz; apply round_Q_number.
    + rewrite Hz. apply round_Q_number.
    + rewrite Hz. apply round_Q_number.
  - intros _ Hp.
    destruct (Page.WeChat.praise a) as [[p|t|]|]; simpl; try contradiction; try discriminate.
    destruct (Qeq_bool p 0); discriminate.
Qed.

(** X17: the ranking by engagement leaves out every article without
    reads before it sorts and cuts, so on a non-empty input it may
    return fewer rows than asked for, or none, but not the sample rows;
    the rows are those of the [articleCount] read articles with the
    highest ratio of likes to reads, in descending order of that ratio,
    ties in the order of the input. *)
Theorem top_engagement_ranking :
  forall (articles : list Page.WeChat.Article) (articleCount : nat),
    articles <> [] ->
    Forall finite_praise articles ->
    exists kept dropped,
      Page.getTopEngagementArticles articles articleCount = map Page.engagement_row kept
      /\ Permutation (kept ++ dropped) (filter Page.was_read articles)
      /\ length kept = Nat.min articleCount (length (filter Page.was_read articles))
      /\ StronglySorted (fun a b => num_le (Page.ratio b) (Page.ratio a)) kept
      /\ (forall a b, In a kept -> In b dropped -> num_le (Page.ratio b) (Page.ratio a))
      /\ (forall a b,
            num_eqb (Page.ratio a) (Page.ratio b) = true ->
            occurs_before a b kept -> occurs_before a b articles).
Proof.
  intros articles n Hne Hf.
  set (ranked := sort Page.by_ratio (filter Page.was_read articles)).
  assert (StronglySorted (fun a b => num_le (Page.ratio b) (Page.ratio a)) ranked) as Hs.
  { apply (key_sorted Page.ratio). apply Forall_forall. intros a Ha.
    apply filter_In in Ha. destruct Ha as [Ha Hr].
    rewrite Forall_forall in Hf. apply ratio_number; auto. }
  exists (firstn n ranked), (skipn n ranked).
  split; [unfold Page.getTopEngagementArticles; destruct articles; [congruence|reflexivity]|].
  split; [rewrite firstn_skipn; apply sort_perm|].
  split; [rewrite length_firstn; unfold ranked; rewrite sort_length; reflexivity|].
  split; [|split].
  - apply sorted_prefix with (skipn n ranked). rewrite firstn_skipn. exact Hs.
  - intros a b Ha Hb.
    apply (sorted_app (fun a b => num_le (Page.ratio b) (Page.ratio a))
             (firstn n ranked) (skipn n ranked));
      [rewrite firstn_skipn; exact Hs|exact Ha|exact Hb].
  - intros a b Hab H.
    apply occurs_before_filter with Page.was_read.
    apply (key_ties_in_order Page.ratio a b _ Hab).
    apply occurs_before_firstn with n. exact H.
Qed.

Lemma top_engagement_ranking_witness :
  exists kept dropped,
    Page.getTopEngagementArticles posts 3 = map Page.engagement_row kept
    /\ Permutation (kept ++ dropped) (filter Page.was_read posts)
    /\ length kept = Nat.min 3 (length (filter Page.was_read posts))
    /\ StronglySorted (fun a b => num_le (Page.ratio b) (Page.ratio a)) kept
    /\ (forall a b, In a kept -> In b dropped -> num_le (Page.ratio b) (Page.ratio a))
    /\ (forall a b,
          num_eqb (Page.ratio a) (Page.ratio b) = true ->
          occurs_before a b kept -> occurs_before a b posts).
Proof.
  apply (top_engagement_ranking posts 3); [discriminate|].
  repeat constructor.
Defined.

(* ================================================================== *)
(** * The overview of the page *)
(* ================================================================== *)

(** An integer below [2^53] is a binary64 value: rounding leaves it as
    it is. *)
Lemma round_pos_integer (n : Z) :
  0 < n < 2 ^ 53 -> round_pos n 1 = Finite (inject_Z n).
Proof.
  intros Hn. unfold round_pos, ilog2.
  change (Z.log2 1) with 0. rewrite Z.sub_0_r.
  pose proof (Z.log2_nonneg n) as H0.
  assert (Z.log2 n < 53) as H1 by (apply Z.log2_lt_pow2; lia).
  pose proof (Z.log2_spec n (proj1 Hn)) as [H2 _].
  rewrite (Z.max_l (Z.log2 n) 0), (Z.max_r (- Z.log2 n) 0) by lia.
  rewrite Z.pow_0_r, Z.mul_1_l, Z.mul_1_r.
  assert ((2 ^ Z.log2 n <=? n) = true) as -> by (apply Z.leb_le; exact H2).
  rewrite (Z.max_l (Z.log2 n - 52) (- 1074)) by lia.
  rewrite (Z.max_r (Z.log2 n - 52) 0), (Z.max_l (- (Z.log2 n - 52)) 0) by lia.
  rewrite Z.pow_0_r, !Z.mul_1_r.
  set (P := 2 ^ (- (Z.log2 n - 52))).
  assert (0 < P) as HP by (apply Z.pow_pos_nonneg; lia).
  assert (P <= 2 ^ 52) as HP2 by (apply Z.pow_le_mono_r; lia).
  assert (round_half_even (n * P) 1 = n * P) as ->.
  { unfold round_half_even. rewrite Z.div_1_r, Z.mod_1_r. reflexivity. }
  assert ((2 ^ 1024 <=? n * P) = false) as ->.
  { apply Z.leb_gt. apply Z.lt_trans with (2 ^ 53 * 2 ^ 52); [nia|reflexivity]. }
  f_equal. unfold dyadic.
  rewrite (Z.max_r (Z.log2 n - 52) 0), (Z.max_l (- (Z.log2 n - 52)) 0) by lia.
  fold P. rewrite Z.pow_0_r, Z.mul_1_r.
  rewrite <- (Qred_identity (inject_Z n)) by (simpl; apply Z.gcd_1_r).
  apply Qred_complete. unfold Qeq, inject_Z. simpl Qnum. simpl Qden.
  rewrite Z2Pos.id by exact HP. lia.
Qed.

Lemma add_integers (a b : Z) :
  0 <= a -> 0 <= b -> a + b < 2 ^ 53 ->
  Page.add (of_Z a) (of_Z b) = of_Z (a + b).
Proof.
  intros Ha Hb Hs. unfold Page.add, of_Z, round_Q, round_frac.
  change (Qnum (inject_Z a + inject_Z b)) with (a * 1 + b * 1).
  change (Zpos (Qden (inject_Z a + inject_Z b))) with 1.
  rewrite !Z.mul_1_r.
  destruct (a + b ?= 0) eqn:E.
  - apply Z.compare_eq in E. rewrite E. reflexivity.
  - rewrite Z.compare_lt_iff in E. lia.
  - rewrite Z.compare_gt_iff in E. apply round_pos_integer. lia.
Qed.

Lemma or_zero_counts (x : option number) (n : Z) :
  counts_as x n -> Page.or_zero x = of_Z n.
Proof.
  intros [Hn Hx]. destruct x as [y|]; [|subst n; reflexivity].
  subst y. unfold Page.or_zero, of_Z.
  change (Qeq_bool (inject_Z n) 0) with (is_zero (of_Z n)). rewrite is_zero_of_Z.
  destruct (Z.eqb_spec n 0) as [->|_]; reflexivity.
Qed.

Lemma sum_Z_nonneg (count : Page.WeChat.Article -> option number)
      (articles : list Page.WeChat.Article) (ns : list Z) :
  Forall2 (fun a n => counts_as (count a) n) articles ns -> 0 <= sum_Z ns.
Proof.
  induction 1 as [|a n t ns [Hn _] _ IH]; simpl; [lia|]. lia.
Qed.

(** The totals are exact: no rounding happens while integers are
    summed below [2^53]. *)
Lemma total_exact (count : Page.WeChat.Article -> option number)
      (articles : list Page.WeChat.Article) (ns : list Z) :
  Forall2 (fun a n => counts_as (count a) n) articles ns ->
  sum_Z ns < 2 ^ 53 ->
  Page.total count articles = of_Z (sum_Z ns).
Proof.
  intros H Hs. unfold Page.total.
  assert (forall s, 0 <= s -> s + sum_Z ns < 2 ^ 53 ->
            fold_left (fun sum article => Page.add sum (Page.or_zero (count article)))
                      articles (of_Z s)
            = of_Z (s + sum_Z ns)) as G.
  { clear Hs. induction H as [|a n t ns Ha Ht IH]; intros s H0 Hs.
    - cbn [fold_left sum_Z fold_right]. rewrite Z.add_0_r. reflexivity.
    - pose proof (sum_Z_nonneg count t ns Ht) as Hnn.
      pose proof (proj1 Ha) as Hn.
      change (sum_Z (n :: ns)) with (n + sum_Z ns) in Hs |- *.
      cbn [fold_left]. rewrite (or_zero_counts _ n Ha).
      rewrite add_integers by lia.
      rewrite IH by lia. f_equal. lia. }
  apply (G 0); [lia|exact Hs].
Qed.

(** X18: for counts that are integers (a missing count reading as 0)
    with totals below [2^53], the overview is computed from the exact
    totals: the number of articles, the two totals divided by it and
    rounded to the nearest integer, and the total likes as a percentage
    of the total reads with one decimal place, which is the string [0%],
    without a decimal place, when nothing was read. *)
Theorem stats_from_exact_totals :
  forall (articles : list Page.WeChat.Article) (reads likes : list Z),
    articles <> [] ->
    Forall2 (fun a n => counts_as (Page.WeChat.read a) n) articles reads ->
    Forall2 (fun a n => counts_as (Page.WeChat.praise a) n) articles likes ->
    sum_Z reads < 2 ^ 53 ->
    sum_Z likes < 2 ^ 53 ->
    let n := of_Z (Z.of_nat (length articles)) in
    Page.calculateStats articles
    = Some {| Page.totalArticles := n;
              Page.avgReads := Page.Math_round (div (of_Z (sum_Z reads)) n);
              Page.avgLikes := Page.Math_round (div (of_Z (sum_Z likes)) n);
              Page.avgEngagement :=
                if sum_Z reads =? 0 then lit "0%"
                else toFixed1 (mul (div (of_Z (sum_Z likes)) (of_Z (sum_Z reads)))
                                   (of_Z 100)) ++ lit "%" |}.
Proof.
  intros articles reads likes Hne Hr Hl Sr Sl n.
  unfold Page.calculateStats.
  destruct articles as [|a t]; [congruence|].
  cbn [length Nat.eqb]. fold n.
  rewrite (total_exact _ _ _ Hr Sr), (total_exact _ _ _ Hl Sl).
  rewrite gt_of_Z.
  pose proof (sum_Z_nonneg _ _ _ Hr) as H0.
  destruct (Z.eqb_spec (sum_Z reads) 0) as [E|E].
  - rewrite E. reflexivity.
  - assert ((0 <? sum_Z reads) = true) as -> by (apply Z.ltb_lt; lia). reflexivity.
Qed.

Lemma stats_from_exact_totals_witness :
  let n := of_Z (Z.of_nat (length posts)) in
  Page.calculateStats posts
  = Some {| Page.totalArticles := n;
            Page.avgReads := Page.Math_round (div (of_Z (sum_Z [100; 200; 10; 0; 0; 3])) n);
            Page.avgLikes := Page.Math_round (div (of_Z (sum_Z [5; 50; 0; 5; 7; 50])) n);
            Page.avgEngagement :=
              if sum_Z [100; 200; 10; 0; 0; 3] =? 0 then lit "0%"
              else toFixed1 (mul (div (of_Z (sum_Z [5; 50; 0; 5; 7; 50]))
                                      (of_Z (sum_Z [100; 200; 10; 0; 0; 3])))
                                 (of_Z 100)) ++ lit "%" |}.
Proof.
  apply (stats_from_exact_totals posts [100; 200; 10; 0; 0; 3] [5; 50; 0; 5; 7; 50]).
  - discriminate.
  - repeat constructor; simpl; lia.
  - repeat constructor; simpl; lia.
  - reflexivity.
  - reflexivity.
Defined.

(** X19: the two rankings render an article that was read but has no
    likes count differently: both rows show 0 likes, but the ranking by
    likes divides the missing count itself and shows [NaN%], while the
    ranking by engagement divides the 0 and shows [0%]. *)
Theorem missing_likes_two_renderings :
  forall (a : Page.WeChat.Article),
    Page.WeChat.praise a = None ->
    Page.was_read a = true ->
    Page.likes (Page.likes_row a) = of_Z 0
    /\ Page.likes (Page.engagement_row a) = of_Z 0
    /\ Page.engagement (Page.likes_row a) = lit "NaN%"
    /\ Page.engagement (Page.engagement_row a) = lit "0%".
Proof.
  intros a Hp Hr. unfold Page.was_read in Hr.
  unfold Page.likes_row, Page.engagement_row, Page.ratio. cbn [Page.likes Page.engagement].
  rewrite Hp, Hr. cbn [Page.or_zero Page.as_number].
  split; [reflexivity|]. split; [reflexivity|]. split; [reflexivity|].
  destruct (Page.WeChat.read a) as [[q|s|]|]; cbn [Page.as_number] in *; try discriminate Hr.
  - assert (Qeq_bool q 0 = false) as Hz.
    { unfold gt, sub_sign, of_Z in Hr. change (inject_Z 0) with 0%Q in Hr.
      destruct (q ?= 0)%Q eqn:E; try discriminate Hr.
      apply not_true_iff_false. intros H. apply Qeq_bool_iff in H.
      rewrite Qeq_alt in H. congruence. }
    unfold div, of_Z. rewrite Hz. reflexivity.
  - destruct s; [discriminate Hr|]. reflexivity.
Qed.

Lemma missing_likes_two_renderings_witness :
  Page.likes (Page.likes_row (post "c" None (Some 10))) = of_Z 0
  /\ Page.likes (Page.engagement_row (post "c" None (Some 10))) = of_Z 0
  /\ Page.engagement (Page.likes_row (post "c" None (Some 10))) = lit "NaN%"
  /\ Page.engagement (Page.engagement_row (post "c" None (Some 10))) = lit "0%".
Proof.
  apply (missing_likes_two_renderings (post "c" None (Some 10))); reflexivity.
Defined.

(* ================================================================== *)
(** * What an operation can return, and how it can fail *)
(* ================================================================== *)

Lemma bind_returns {A B} (c : M A) (k : A -> M B) (w w' : world) (b : B) :
  bind c k w = (w', Ok b) ->
  exists a w1, c w = (w1, Ok a) /\ k a w1 = (w', Ok b).
Proof.
  unfold bind. destruct (c w) as [w1 [a|x]]; intros H; [|discriminate H].
  exists a, w1. split; [reflexivity|exact H].
Qed.

Lemma forEach_from_returns (f : value -> nat -> M unit) :
  (forall i w, snd (f VNull i w) = Throw TypeError) ->
  forall l i w w', forEach_from f l i w = (w', Ok tt) -> Forall (fun v => v <> VNull) l.
Proof.
  intros Hnull l. induction l as [|v t IH]; intros i w w' H; [constructor|].
  cbn [forEach_from] in H. apply bind_returns in H. destruct H as (u & w1 & Hf & Ht).
  constructor; [|apply (IH _ _ _ Ht)].
  intros ->. specialize (Hnull i w). rewrite Hf in Hnull. discriminate Hnull.
Qed.

Lemma forEach_returns (v : value) (f : value -> nat -> M unit) (w w' : world) :
  (forall i w, snd (f VNull i w) = Throw TypeError) ->
  forEach v f w = (w', Ok tt) ->
  exists l, v = VArr l /\ Forall (fun x => x <> VNull) l.
Proof.
  intros Hnull H. destruct v; try discriminate H.
  exists elems. split; [reflexivity|]. apply (forEach_from_returns f Hnull _ _ _ _ H).
Qed.

Lemma cap_returns_array (v : value) (w w' : world) (l' : list value) :
  cap v w = (w', Ok (VArr l')) -> exists l, v = VArr l /\ l' = firstn 10 l.
Proof.
  destruct v as [|b|x|s|l|ms].
  5: { rewrite cap_array. intros H. injection H as _ <-. exists l. split; reflexivity. }
  all: unfold cap, bind, lift; intros H;
    destruct (is_number_zero _); [discriminate H|];
    destruct (ToNumber _) as [n|x']; [|discriminate H];
    destruct (gt _ _); discriminate H.
Qed.

Lemma deepAnalyze_returns (response : value) (w : world) (out : value) :
  snd (deepAnalyze_response response w) = Ok out ->
  exists l, out = VArr l /\ Forall (fun v => v <> VNull) l.
Proof.
  unfold deepAnalyze_response, try_catch.
  destruct (deepAnalyze_try response w) as [w1 [a|x]] eqn:E; [|discriminate].
  cbn [snd]. intros H. injection H as ->.
  unfold deepAnalyze_try in E.
  apply bind_returns in E. destruct E as (trimmed & w2 & _ & E).
  apply bind_returns in E. destruct E as (parsed & w3 & _ & E).
  apply bind_returns in E. destruct E as (fld & w4 & _ & E).
  apply bind_returns in E. destruct E as ([] & w5 & E & R).
  injection R as _ <-.
  apply forEach_returns in E; [exact E|reflexivity].
Qed.

Lemma generateInsights_returns (response : value) (w : world) (out : value) :
  snd (generateInsights_response response w) = Ok out ->
  exists l, out = VArr l /\ Forall (fun v => v <> VNull) l /\ (length l <= 10)%nat.
Proof.
  unfold generateInsights_response, try_catch.
  destruct (generateInsights_try response w) as [w1 [a|x]] eqn:E; [|discriminate].
  cbn [snd]. intros H. injection H as ->.
  unfold generateInsights_try in E.
  apply bind_returns in E. destruct E as (trimmed & w2 & _ & E).
  apply bind_returns in E. destruct E as (parsed & w3 & _ & E).
  apply bind_returns in E. destruct E as (fld & w4 & _ & E).
  apply bind_returns in E. destruct E as (insights & w5 & Hcap & E).
  apply bind_returns in E. destruct E as ([] & w6 & E & R).
  apply forEach_returns in E; [|reflexivity]. destruct E as (l & -> & Hl).
  apply cap_returns_array in Hcap. destruct Hcap as (l0 & _ & ->).
  unfold call_sort, bind, lift, ret in R.
  destruct (sort_by compare_confidence (firstn 10 l0)) as [sorted|x] eqn:S; [|discriminate R].
  injection R as _ <-. apply sort_by_perm in S.
  exists sorted. split; [reflexivity|]. split.
  - rewrite Forall_forall in *. intros v Hv. apply Hl.
    apply (Permutation_in _ S). exact Hv.
  - rewrite (Permutation_length S), length_firstn. lia.
Qed.

(** X20: whatever the endpoint and the model answer, what an operation
    returns is an array without [null] elements, and in phase 2 one of
    at most ten elements. *)
Theorem operations_return_records :
  forall (e : env) (op : operation) (w : world) (out : value),
    snd (run_operation e op w) = Ok out ->
    exists l,
      out = VArr l
      /\ Forall (fun v => v <> VNull) l
      /\ match op with
         | DeepAnalyze _ => True
         | GenerateInsights _ _ => (length l <= 10)%nat
         end.
Proof.
  intros e op w out H.
  destruct op as [articles|summaries st]; cbn [run_operation] in H.
  - unfold deepAnalyzeArticles in H. destruct (length articles =? 0)%nat.
    + injection H as <-. exists []. repeat split. constructor.
    + unfold bind in H. destruct (callOpenAI _ _ _ w) as [w1 [response|x]]; [|discriminate H].
      apply deepAnalyze_returns in H. destruct H as (l & -> & Hl).
      exists l. repeat split. exact Hl.
  - unfold generateSmartTopicInsights in H. destruct (length summaries =? 0)%nat.
    + injection H as <-. exists []. repeat split; [constructor|simpl; lia].
    + unfold bind in H. destruct (callOpenAI _ _ _ w) as [w1 [response|x]]; [|discriminate H].
      apply generateInsights_returns in H. exact H.
Qed.

Lemma operations_return_records_witness :
  exists l,
    VArr (map scored [79; 78; 77; 76; 75; 74; 73; 72; 71; 70]) = VArr l
    /\ Forall (fun v => v <> VNull) l
    /\ (length l <= 10)%nat.
Proof.
  apply (operations_return_records (answering eleven_body)
           (GenerateInsights [VObj []] no_stats) quiet).
  vm_compute. reflexivity.
Defined.

Lemma appending_ret {A} (a : A) : appending (ret a).
Proof. intros w. exists []. symmetry. apply logged_nil. Qed.

Lemma appending_throw {A} (x : exn) : appending (@throw A x).
Proof. intros w. exists []. symmetry. apply logged_nil. Qed.

Lemma appending_lift {A} (r : result A) : appending (lift r).
Proof. intros w. exists []. symmetry. apply logged_nil. Qed.

Lemma appending_write (entry : console_entry) : appending (write entry).
Proof. intros w. exists [entry]. reflexivity. Qed.

Lemma appending_bind {A B} (c : M A) (k : A -> M B) :
  appending c -> (forall a, appending (k a)) -> appending (bind c k).
Proof.
  intros Hc Hk w. unfold bind. destruct (Hc w) as (l1 & H1).
  destruct (c w) as [w' [a|x]]; cbn [fst] in *.
  - destruct (Hk a w') as (l2 & H2). exists (l1 ++ l2).
    rewrite H2, H1. apply logged_app.
  - exists l1. exact H1.
Qed.

Lemma appending_forEach (f : value -> nat -> M unit) (v : value) :
  (forall x i, appending (f x i)) -> appending (forEach v f).
Proof.
  intros Hf. destruct v; try apply appending_throw. simpl.
  generalize 0%nat. induction elems as [|x t IH]; intros i; simpl.
  - apply appending_ret.
  - apply appending_bind; [apply Hf|intros _; apply IH].
Qed.

Lemma appending_deepAnalyze_try (response : value) : appending (deepAnalyze_try response).
Proof.
  unfold deepAnalyze_try.
  apply appending_bind; [destruct response; try apply appending_throw; apply appending_ret|].
  intros trimmed. apply appending_bind.
  { unfold parse_json. destruct (parse _); [apply appending_ret|apply appending_throw]. }
  intros parsed. apply appending_bind; [apply appending_lift|]. intros fld.
  apply appending_bind; [|intros _; apply appending_ret].
  apply appending_forEach. intros x i. unfold check_summary.
  repeat (apply appending_bind; [apply appending_lift|intros ?]).
  destruct (_ || _ || _); [apply appending_write|apply appending_ret].
Qed.

Lemma appending_generateInsights_try (response : value) :
  appending (generateInsights_try response).
Proof.
  unfold generateInsights_try.
  apply appending_bind; [destruct response; try apply appending_throw; apply appending_ret|].
  intros trimmed. apply appending_bind.
  { unfold parse_json. destruct (parse _); [apply appending_ret|apply appending_throw]. }
  intros parsed. apply appending_bind; [apply appending_lift|]. intros fld.
  apply appending_bind.
  { unfold cap. destruct (is_number_zero _).
    - apply appending_bind; [apply appending_write|intros _; apply appending_ret].
    - apply appending_bind; [apply appending_lift|intros n].
      destruct (gt _ _).
      + apply appending_bind; [apply appending_write|intros _].
        unfold slice_0_10. destruct (or_else fld (VArr []));
          try apply appending_throw; apply appending_ret.
      + apply appending_bind; [apply appending_write|intros _; apply appending_ret]. }
  intros insights. apply appending_bind.
  { apply appending_forEach. intros x i. unfold check_insight.
    apply appending_bind; [apply appending_lift|intros ?].
    destruct (_ || _ || _); [apply appending_write|apply appending_ret]. }
  intros _. unfold call_sort. destruct insights; try apply appending_throw.
  apply appending_bind; [apply appending_lift|intros ?; apply appending_ret].
Qed.

Lemma respond_throws (op : operation) (response : value) (w : world) (x : exn) :
  snd (respond op response w) = Throw x ->
  x = failure op
  /\ exists entries,
       fst (respond op response w) = logged w (entries ++ [failure_entry op response]).
Proof.
  destruct op as [articles|summaries st]; cbn [respond failure failure_entry].
  - unfold deepAnalyze_response, try_catch.
    destruct (appending_deepAnalyze_try response w) as (entries & He).
    destruct (deepAnalyze_try response w) as [w1 [a|y]]; [discriminate|].
    cbn [fst] in He. subst w1. unfold bind, write, throw. cbn [fst snd].
    intros H. injection H as <-. split; [reflexivity|].
    exists entries. unfold logged. cbn [console sent]. rewrite app_assoc. reflexivity.
  - unfold generateInsights_response, try_catch.
    destruct (appending_generateInsights_try response w) as (entries & He).
    destruct (generateInsights_try response w) as [w1 [a|y]]; [discriminate|].
    cbn [fst] in He. subst w1. unfold bind, write, throw. cbn [fst snd].
    intros H. injection H as <-. split; [reflexivity|].
    exists entries. unfold logged. cbn [console sent]. rewrite app_assoc. reflexivity.
Qed.

(** X21: an operation fails in one of two ways only.  Either the
    client failed, and the operation throws that error with nothing
    written to the console; or the client returned a completion, and
    the operation throws the fixed error of its phase after writing the
    completion to the error console as the last entry.  No other error
    of the response handler (a fault on [null], a syntax error) gets
    out. *)
Theorem operation_failures :
  forall (e : env) (op : operation) (w : world) (x : exn),
    snd (run_operation e op w) = Throw x ->
    (snd (completion e op w) = Throw x
     /\ console (fst (run_operation e op w)) = console w)
    \/ (x = failure op
        /\ exists response entries,
             snd (completion e op w) = Ok response
             /\ console (fst (run_operation e op w))
                = console w ++ entries ++ [failure_entry op response]).
Proof.
  intros e op w x H.
  assert (has_input op) as Hi.
  { destruct op as [[|a t]|[|a t] st]; cbn in H |- *; try discriminate. }
  rewrite run_operation_bind in H |- * by exact Hi.
  pose proof (mute_callOpenAI e (messages_of op) (temperature_of op) w) as Hm.
  rewrite <- completion_call in Hm.
  unfold bind in *. destruct (completion e op w) as [w1 [response|y]]; cbn [fst snd] in *.
  - right. apply respond_throws in H. destruct H as (-> & entries & He).
    split; [reflexivity|]. exists response, entries. split; [reflexivity|].
    rewrite He. unfold logged. cbn [console]. rewrite Hm. reflexivity.
  - left. injection H as <-. split; [reflexivity|exact Hm].
Qed.

Lemma operation_failures_witness :
  (snd (completion (answering prose_body) (DeepAnalyze [one_article]) quiet)
   = Throw DeepAnalysisFailed
   /\ console (fst (run_operation (answering prose_body) (DeepAnalyze [one_article]) quiet))
      = console quiet)
  \/ (DeepAnalysisFailed = failure (DeepAnalyze [one_article])
      /\ exists response entries,
           snd (completion (answering prose_body) (DeepAnalyze [one_article]) quiet)
           = Ok response
           /\ console (fst (run_operation (answering prose_body)
                              (DeepAnalyze [one_article]) quiet))
              = console quiet ++ entries
                ++ [failure_entry (DeepAnalyze [one_article]) response]).
Proof.
  apply (operation_failures (answering prose_body) (DeepAnalyze [one_article]) quiet).
  vm_compute. reflexivity.
Defined.

(* ================================================================== *)
(** * Counting loses nothing *)
(* ================================================================== *)

Lemma sum_Z_perm (l l' : list Z) : Permutation l l' -> sum_Z l = sum_Z l'.
Proof.
  induction 1 as [|x l l' _ IH|x y l|l l' l'' _ IH1 _ IH2]; simpl in *; lia.
Qed.

Lemma sum_Z_pointwise {A} (f g : A -> Z) (l : list A) :
  sum_Z (map (fun x => f x + g x) l) = sum_Z (map f l) + sum_Z (map g l).
Proof. induction l as [|x t IH]; simpl in *; lia. Qed.

Lemma sum_Z_absent (k : jsstring) (ws : list jsstring) :
  ~ In k ws -> sum_Z (map (fun w => if JsString.eqb k w then 1 else 0) ws) = 0.
Proof.
  induction ws as [|w t IH]; intros H; [reflexivity|].
  simpl in *. assert (JsString.eqb k w = false) as -> by (apply eqb_neq; intuition congruence).
  rewrite IH by tauto. reflexivity.
Qed.

Lemma sum_Z_once (k : jsstring) (ws : list jsstring) :
  NoDup ws -> In k ws -> sum_Z (map (fun w => if JsString.eqb k w then 1 else 0) ws) = 1.
Proof.
  induction 1 as [|w t Hw Ht IH]; intros Hk; [contradiction|].
  simpl. destruct Hk as [->|Hk].
  - rewrite eqb_refl, sum_Z_absent by exact Hw. reflexivity.
  - assert (JsString.eqb k w = false) as -> by (apply eqb_neq; intros ->; contradiction).
    rewrite (IH Hk). reflexivity.
Qed.

(** Every occurrence is counted under exactly one word. *)
Lemma occurrences_add_up (ks ws : list jsstring) :
  NoDup ws -> (forall k, In k ks -> In k ws) ->
  sum_Z (map (fun w => occurrences w ks) ws) = Z.of_nat (length ks).
Proof.
  intros Hd. induction ks as [|k t IH]; intros Hin.
  - clear Hd Hin. induction ws as [|w u IHu]; [reflexivity|].
    simpl in *. rewrite IHu. reflexivity.
  - cbn [occurrences length]. rewrite sum_Z_pointwise.
    rewrite sum_Z_once by (try exact Hd; apply Hin; left; reflexivity).
    rewrite IH by (intros x Hx; apply Hin; right; exact Hx). lia.
Qed.

(** X22: for keywords that name no member of [Object.prototype], no
    more than 20 of them distinct, the counts of the word cloud add up
    to the number of keywords: no occurrence is lost or counted
    twice. *)
Theorem word_cloud_counts_add_up :
  forall (summaries : list ArticleSummary),
    Forall ordinary (allKeywords summaries) ->
    (length (distinct (allKeywords summaries)) <= 20)%nat ->
    sum_Z (map (fun e => count_value (count e)) (generateWordCloud summaries))
    = Z.of_nat (length (allKeywords summaries)).
Proof.
  intros summaries Ho Hlen.
  set (ks := allKeywords summaries) in *.
  set (ranked := sort by_count (entries (tallied ks))).
  assert (Permutation ranked (tallied ks)) as Hp
    by (eapply perm_trans; [apply sort_perm|apply entries_perm]).
  assert (map (fun e => (word e, count e)) (generateWordCloud summaries) = ranked) as Hc.
  { unfold generateWordCloud. fold ks. rewrite (wordCount_tallied ks Ho).
    rewrite with_size_words. apply firstn_all2.
    fold ranked. rewrite (Permutation_length Hp). unfold tallied. rewrite length_map. exact Hlen. }
  transitivity (sum_Z (map (fun p => count_value (snd p)) ranked)).
  { rewrite <- Hc, map_map. reflexivity. }
  rewrite (sum_Z_perm _ _ (Permutation_map _ Hp)).
  unfold tallied. rewrite map_map. cbn [snd count_value].
  apply occurrences_add_up; [apply distinct_NoDup|].
  intros k Hk. apply distinct_In, Hk.
Qed.

Lemma word_cloud_counts_add_up_witness :
  sum_Z (map (fun e => count_value (count e))
             (generateWordCloud [summary_with [lit "AI"; lit "2024"; lit "AI"]]))
  = Z.of_nat (length (allKeywords [summary_with [lit "AI"; lit "2024"; lit "AI"]])).
Proof.
  apply (word_cloud_counts_add_up [summary_with [lit "AI"; lit "2024"; lit "AI"]]).
  - repeat constructor.
  - vm_compute. lia.
Defined.

(* ================================================================== *)
(** * The engagement of an article with no more likes than reads *)
(* ================================================================== *)

(** Rounding a positive rational that is at most the integer [B], a
    binary64 value itself, gives a finite number that is at most [B]. *)
Lemma round_pos_below (n d B : Z) :
  0 < n -> 0 < d -> 0 < B < 2 ^ 53 -> n <= d * B ->
  exists q, round_pos n d = Finite q /\ (0 <= q)%Q /\ (q <= inject_Z B)%Q.
Proof.
  intros Hn Hd HB Hle.
  assert (n < d * 2 ^ 53) as Hlt by nia.
  destruct (round_pos_le n d 53 Hn Hd) as (q & Hq & Hq0 & _); [lia|lia|].
  exists q. split; [exact Hq|]. split; [exact Hq0|].
  assert (ilog2 n d <= 52) as He.
  { unfold ilog2.
    assert (Z.log2 n <= Z.log2 d + 53) as Hlog.
    { rewrite Z.add_comm, <- Z.log2_mul_pow2 by lia. apply Z.log2_le_mono. lia. }
    destruct (Z.eq_dec (Z.log2 n - Z.log2 d) 53) as [E|E].
    - cbv zeta. rewrite E. rewrite (Z.max_l 53 0), (Z.max_r (Z.opp 53) 0) by lia.
      rewrite Z.pow_0_r, Z.mul_1_r.
      assert ((d * 2 ^ 53 <=? n) = false) as -> by (apply Z.leb_gt; exact Hlt). lia.
    - cbv zeta. destruct (_ <=? _); lia. }
  unfold round_pos in Hq.
  set (k := Z.max (ilog2 n d - 52) (- 1074)) in *.
  assert (k <= 0) as Hk by lia.
  rewrite (Z.max_l (- k) 0), (Z.max_r k 0) in Hq by lia.
  rewrite Z.pow_0_r, !Z.mul_1_r in Hq.
  set (m := round_half_even (n * 2 ^ (- k)) d) in *.
  assert (0 < 2 ^ (- k)) as Hp by (apply Z.pow_pos_nonneg; lia).
  assert (0 <= m <= B * 2 ^ (- k)) as Hm.
  { apply round_half_even_bounds; nia. }
  destruct (2 ^ 1024 <=? m); [discriminate Hq|].
  assert (Qred (dyadic m k) = q) as <- by congruence. rewrite Qred_correct.
  unfold dyadic, Qle, inject_Z. cbn [Qnum Qden].
  rewrite (Z.max_l (- k) 0), (Z.max_r k 0) by lia.
  rewrite Z2Pos.id by exact Hp. rewrite Z.pow_0_r. lia.
Qed.

Lemma round_Q_below (q : Q) (B : Z) :
  (0 <= q)%Q -> (q <= inject_Z B)%Q -> 0 < B < 2 ^ 53 ->
  exists q', round_Q q = Finite q' /\ (0 <= q')%Q /\ (q' <= inject_Z B)%Q.
Proof.
  intros H0 Hq HB. unfold round_Q, round_frac.
  unfold Qle in H0, Hq. simpl in H0, Hq.
  destruct (Qnum q ?= 0) eqn:C.
  - exists 0%Q. split; [reflexivity|]. split; [apply Qle_refl|].
    unfold Qle. simpl. lia.
  - rewrite Z.compare_lt_iff in C. lia.
  - rewrite Z.compare_gt_iff in C.
    apply round_pos_below; lia.
Qed.

(** [toFixed(1)] of a number between 0 and 100: the tenths, rounded,
    written with the last digit behind the point. *)
Lemma toFixed1_percentage (x : Q) :
  (0 <= x)%Q -> (x <= inject_Z 100)%Q ->
  let n := round_half_up (x * inject_Z 10) in
  0 <= n <= 1000
  /\ toFixed1 (Finite x) = of_Z_nonneg (n / 10) ++ [46%N; Z.to_N (48 + n mod 10)].
Proof.
  intros Ha Hb n.
  destruct (round_half_up_spec (x * inject_Z 10)) as (Hn0 & Hn1 & _).
  { destruct x as [p q]. unfold Qle in *. simpl in *. lia. }
  fold n in Hn0, Hn1.
  assert (n <= 1000) as Hn.
  { destruct x as [p q]. unfold Qle, Qplus, Qmult, inject_Z in *.
    cbn [Qnum Qden] in *. rewrite ?Pos2Z.inj_mul in *. nia. }
  split; [lia|].
  unfold toFixed1.
  assert (Qabs x = x) as ->.
  { destruct x as [p q]. unfold Qle in Ha. simpl in Ha. unfold Qabs.
    rewrite Z.abs_eq by lia. reflexivity. }
  cbv zeta. fold n.
  assert ((x ?= 0)%Q <> Lt) as Hs.
  { pose proof (proj1 (Qle_alt _ _) Ha) as Hc. rewrite <- Qcompare_antisym.
    destruct (0 ?= x)%Q; simpl; congruence. }
  assert (Qle_bool (inject_Z (10 ^ 21)) x = false) as ->.
  { apply not_true_is_false. intros H. apply Qle_bool_iff in H.
    pose proof (Qle_trans _ _ _ H Hb) as C. apply Qle_bool_iff in C.
    vm_compute in C. discriminate C. }
  rewrite (of_Z_nonneg_digit (n mod 10)) by (apply Z.mod_pos_bound; lia).
  destruct (x ?= 0)%Q; try congruence; reflexivity.
Qed.

(** X23: for an article with no more likes than reads, and some reads,
    the engagement of the prompt row is a numeral from [0.0] to [100.0]
    with one decimal place: the two roundings of the quotient and of
    the product never carry the percentage above 100. *)
Theorem engagement_at_most_100 :
  forall (a : article) (l r : Z),
    likes a = of_Z l -> reads a = of_Z r ->
    0 <= l <= r -> 0 < r ->
    exists x n,
      mul (div (likes a) (reads a)) (of_Z 100) = Finite x
      /\ (0 <= x)%Q /\ (x <= inject_Z 100)%Q
      /\ n = round_half_up (x * inject_Z 10)
      /\ 0 <= n <= 1000
      /\ engagement a = of_Z_nonneg (n / 10) ++ [46%N; Z.to_N (48 + n mod 10)].
Proof.
  intros a l r Hl Hr Hlr Hpos. unfold engagement. rewrite Hl, Hr, gt_of_Z.
  assert ((0 <? r) = true) as -> by (apply Z.ltb_lt; exact Hpos).
  assert (exists x1, div (of_Z l) (of_Z r) = Finite x1
                     /\ (0 <= x1)%Q /\ (x1 <= inject_Z 1)%Q) as (x1 & -> & H1a & H1b).
  { unfold div, of_Z.
    assert (Qeq_bool (inject_Z r) 0 = false) as ->.
    { apply not_true_is_false. intros H. apply Qeq_bool_iff in H.
      unfold Qeq in H. simpl in H. lia. }
    apply round_Q_below; [| |vm_compute; split; reflexivity].
    - destruct r as [|p|p]; try lia. unfold Qle. simpl. lia.
    - destruct r as [|p|p]; try lia. unfold Qle. simpl. lia. }
  assert (exists x, mul (Finite x1) (of_Z 100) = Finite x
                    /\ (0 <= x)%Q /\ (x <= inject_Z 100)%Q) as (x & Hx & Ha & Hb).
  { unfold mul, of_Z. apply round_Q_below; [| |vm_compute; split; reflexivity].
    - destruct x1 as [p q]. unfold Qle in *. simpl in *. lia.
    - destruct x1 as [p q]. unfold Qle in *. simpl in *. lia. }
  rewrite Hx.
  destruct (toFixed1_percentage x Ha Hb) as (Hn & Hfix).
  exists x, (round_half_up (x * inject_Z 10)).
  repeat split; try assumption; lia.
Qed.

Lemma engagement_at_most_100_witness :
  exists x n,
    mul (div (likes (article_with 2000 2000)) (reads (article_with 2000 2000))) (of_Z 100)
    = Finite x
    /\ (0 <= x)%Q /\ (x <= inject_Z 100)%Q
    /\ n = round_half_up (x * inject_Z 10)
    /\ 0 <= n <= 1000
    /\ engagement (article_with 2000 2000)
       = of_Z_nonneg (n / 10) ++ [46%N; Z.to_N (48 + n mod 10)].
Proof.
  apply (engagement_at_most_100 (article_with 2000 2000) 2000 2000).
  - reflexivity.
  - reflexivity.
  - lia.
  - lia.
Defined.
